(** * pyzfs: the libzfs_core wrappers, their list codec and error protocol

    A shallow embedding of [libzfs_core/_libzfs_core.py] together with the
    collaborators it imports ([_nvlist], [_error_translation], [bindings]).
    The wrappers are translated from the Python source; the collaborators
    whose source is not part of the tree are modelled from the design
    document and are marked as such. *)

From Stdlib Require Import ZArith Lia List Bool.
From Stdlib.Strings Require Import String Ascii Byte.
From stdpp Require Import base option list gmap strings.

Import ListNotations.
Local Open Scope Z_scope.
#[local] Set Warnings "-register-all".

(** ** The list codec *)

Module Codec.

(** Fixed-width integer kinds of §3: signed and unsigned, 8 to 64 bits. *)
Inductive int_kind := I8 | I16 | I32 | I64 | U8 | U16 | U32 | U64.

(** The kind tag that precedes a payload on the wire. *)
Inductive tag :=
| TFlag | TBool | TInt (k : int_kind) | TBytes | TList | TSeq.

(** Modelled from the spec: the value tree of §3 ("The List value"); the
    module [_nvlist] that defines the native representation is not in the
    tree.  A List is an insertion-ordered association from byte-string keys
    to typed values; a sequence carries the kind of its elements. *)
Inductive value :=
| VFlag
| VBool (b : bool)
| VInt (k : int_kind) (n : Z)
| VBytes (s : string)
| VList (es : list (string * value))
| VSeq (t : tag) (vs : list value).

Abbreviation nvlist := (list (string * value)).
Abbreviation buffer := (list byte).

Inductive codec_error := EncodingError | DecodingError.

Inductive result (A : Type) :=
| Ok (a : A)
| Err (e : codec_error).
Arguments Ok {A} a.
Arguments Err {A} e.

Definition int_kind_eqb (a b : int_kind) : bool :=
  match a, b with
  | I8, I8 | I16, I16 | I32, I32 | I64, I64
  | U8, U8 | U16, U16 | U32, U32 | U64, U64 => true
  | _, _ => false
  end.

Definition tag_eqb (a b : tag) : bool :=
  match a, b with
  | TFlag, TFlag | TBool, TBool | TBytes, TBytes
  | TList, TList | TSeq, TSeq => true
  | TInt j, TInt k => int_kind_eqb j k
  | _, _ => false
  end.

Definition tag_of (v : value) : tag :=
  match v with
  | VFlag => TFlag
  | VBool _ => TBool
  | VInt k _ => TInt k
  | VBytes _ => TBytes
  | VList _ => TList
  | VSeq _ _ => TSeq
  end.

(** Width of an integer kind, in bytes. *)
Definition width (k : int_kind) : nat :=
  match k with
  | I8 | U8 => 1 | I16 | U16 => 2 | I32 | U32 => 4 | I64 | U64 => 8
  end%nat.

Definition signed (k : int_kind) : bool :=
  match k with
  | I8 | I16 | I32 | I64 => true
  | _ => false
  end.

Definition modulus (w : nat) : Z := 256 ^ Z.of_nat w.

Definition in_range (k : int_kind) (n : Z) : bool :=
  if signed k
  then (- (modulus (width k) / 2) <=? n) && (n <? modulus (width k) / 2)
  else (0 <=? n) && (n <? modulus (width k)).

(** *** Scalar codec: bytes and little-endian integers *)

Definition byte_of_Z (z : Z) : byte :=
  default x00 (Byte.of_N (Z.to_N (z mod 256))).

Definition Z_of_byte (b : byte) : Z := Z.of_N (Byte.to_N b).

Fixpoint le_bytes (w : nat) (n : Z) : buffer :=
  match w with
  | O => []
  | S w' => byte_of_Z n :: le_bytes w' (n / 256)
  end.

Fixpoint le_value (bs : buffer) : Z :=
  match bs with
  | [] => 0
  | b :: bs' => Z_of_byte b + 256 * le_value bs'
  end.

(** Two's complement reading of [w] little-endian bytes. *)
Definition int_of_le (k : int_kind) (bs : buffer) : Z :=
  let u := le_value bs in
  if signed k && (modulus (width k) / 2 <=? u)
  then u - modulus (width k)
  else u.

(** A length prefix is an unsigned 32-bit little-endian count. *)
Definition len_ok (n : nat) : bool := Z.of_nat n <? modulus 4.
Definition len_bytes (n : nat) : buffer := le_bytes 4 (Z.of_nat n).

Definition tag_byte (t : tag) : byte :=
  match t with
  | TFlag => x00
  | TBool => x01
  | TInt I8 => x02 | TInt I16 => x03 | TInt I32 => x04 | TInt I64 => x05
  | TInt U8 => x06 | TInt U16 => x07 | TInt U32 => x08 | TInt U64 => x09
  | TBytes => x0a
  | TList => x0b
  | TSeq => x0c
  end.

Definition tag_of_byte (b : byte) : option tag :=
  match b with
  | x00 => Some TFlag
  | x01 => Some TBool
  | x02 => Some (TInt I8) | x03 => Some (TInt I16)
  | x04 => Some (TInt I32) | x05 => Some (TInt I64)
  | x06 => Some (TInt U8) | x07 => Some (TInt U16)
  | x08 => Some (TInt U32) | x09 => Some (TInt U64)
  | x0a => Some TBytes
  | x0b => Some TList
  | x0c => Some TSeq
  | _ => None
  end.

(** A sequence holds flags, booleans, integers, byte strings or Lists,
    never sequences. *)
Definition elem_tag_ok (t : tag) : bool :=
  match t with TSeq => false | _ => true end.

(** *** Encode *)

Definition key_bytes (k : string) : buffer :=
  len_bytes (String.length k) ++ list_byte_of_string k.

(** Modelled from the spec: §4.1 Encode, the payload of one typed field.
    The kind tag is written by the enclosing container; a byte string is
    length-prefixed; Lists and sequences recurse. *)
Fixpoint payload (v : value) : buffer :=
  match v with
  | VFlag => []
  | VBool b => [if b then x01 else x00]
  | VInt k n => le_bytes (width k) n
  | VBytes s => key_bytes s
  | VList es =>
      len_bytes (length es) ++
      flat_map (fun e => match e with
                         | (k, v) => key_bytes k ++ tag_byte (tag_of v) :: payload v
                         end) es
  | VSeq t vs =>
      tag_byte t :: len_bytes (length vs) ++ flat_map payload vs
  end.

(** Modelled from the spec: §4.1, the two ways Encode fails: a value that
    does not fit its tag, and a sequence whose elements are not uniformly
    typed.  Counts and lengths must fit the 32-bit prefix. *)
Fixpoint encodable (v : value) : bool :=
  match v with
  | VFlag | VBool _ => true
  | VInt k n => in_range k n
  | VBytes s => len_ok (String.length s)
  | VList es =>
      len_ok (length es) &&
      forallb (fun e => match e with
                        | (k, v) => len_ok (String.length k) && encodable v
                        end) es
  | VSeq t vs =>
      elem_tag_ok t && len_ok (length vs) &&
      forallb (fun v => tag_eqb (tag_of v) t && encodable v) vs
  end.

(** Modelled from the spec: §4.1 Encode, a pure function of the tree. *)
Definition Encode (l : nvlist) : result buffer :=
  if encodable (VList l) then Ok (payload (VList l)) else Err EncodingError.

(** *** Decode *)

Definition take_bytes (n : nat) (buf : buffer) : option (buffer * buffer) :=
  if (n <=? length buf)%nat then Some (firstn n buf, skipn n buf) else None.

Definition decode_len (buf : buffer) : option (nat * buffer) :=
  '(bs, rest) ← take_bytes 4 buf;
  Some (Z.to_nat (le_value bs), rest).

Definition decode_key (buf : buffer) : option (string * buffer) :=
  '(n, rest) ← decode_len buf;
  '(bs, rest') ← take_bytes n rest;
  Some (string_of_list_byte bs, rest').

(** Count-driven readers for the entries of a List and the elements of a
    sequence, over the decoder [dec] of one payload. *)
Fixpoint decode_entries (dec : tag → buffer → option (value * buffer))
    (n : nat) (buf : buffer) : option (nvlist * buffer) :=
  match n with
  | O => Some ([], buf)
  | S n' =>
      '(k, b1) ← decode_key buf;
      match b1 with
      | [] => None
      | tb :: b2 =>
          t ← tag_of_byte tb;
          '(v, b3) ← dec t b2;
          '(es, b4) ← decode_entries dec n' b3;
          Some ((k, v) :: es, b4)
      end
  end.

Fixpoint decode_elems (dec : buffer → option (value * buffer))
    (n : nat) (buf : buffer) : option (list value * buffer) :=
  match n with
  | O => Some ([], buf)
  | S n' =>
      '(v, b) ← dec buf;
      '(vs, b') ← decode_elems dec n' b;
      Some (v :: vs, b')
  end.

(** Modelled from the spec: §4.1 Decode.  Every read is bounds-checked, so
    a truncated or malformed buffer yields [None]; the fuel bounds the
    nesting depth and is taken from the buffer length by [Decode]. *)
Fixpoint decode_payload (fuel : nat) (t : tag) (buf : buffer)
  : option (value * buffer) :=
  match fuel with
  | O => None
  | S fuel' =>
    match t with
    | TFlag => Some (VFlag, buf)
    | TBool =>
        match buf with
        | x00 :: rest => Some (VBool false, rest)
        | x01 :: rest => Some (VBool true, rest)
        | _ => None
        end
    | TInt k =>
        '(bs, rest) ← take_bytes (width k) buf;
        Some (VInt k (int_of_le k bs), rest)
    | TBytes =>
        '(s, rest) ← decode_key buf;
        Some (VBytes s, rest)
    | TList =>
        '(n, rest) ← decode_len buf;
        '(es, rest') ← decode_entries (decode_payload fuel') n rest;
        Some (VList es, rest')
    | TSeq =>
        match buf with
        | [] => None
        | tb :: b1 =>
            et ← tag_of_byte tb;
            if elem_tag_ok et then
              '(n, b2) ← decode_len b1;
              '(vs, b3) ← decode_elems (decode_payload fuel' et) n b2;
              Some (VSeq et vs, b3)
            else None
        end
    end
  end.

(** Nesting depth of a value tree: the fuel its decoding needs. *)
Fixpoint depth (v : value) : nat :=
  match v with
  | VList es =>
      S (fold_right (fun e d => match e with
                                | (_, v) => Nat.max (depth v) d
                                end) O es)
  | VSeq _ vs => S (fold_right (fun v d => Nat.max (depth v) d) O vs)
  | _ => 1%nat
  end.

(** Modelled from the spec: §4.1 Decode of a whole buffer: a List, with
    nothing left over. *)
Definition Decode (buf : buffer) : result nvlist :=
  match decode_payload (S (length buf)) TList buf with
  | Some (VList es, []) => Ok es
  | _ => Err DecodingError
  end.

(** Induction over value trees that reaches the values inside Lists and
    sequences. *)
Section value_induction.
Variable P : value → Prop.
Hypothesis Hflag : P VFlag.
Hypothesis Hbool : ∀ b, P (VBool b).
Hypothesis Hint : ∀ k n, P (VInt k n).
Hypothesis Hbytes : ∀ s, P (VBytes s).
Hypothesis Hlist : ∀ es, Forall (λ e, P e.2) es → P (VList es).
Hypothesis Hseq : ∀ t vs, Forall P vs → P (VSeq t vs).

Fixpoint value_nested_ind (v : value) : P v :=
  match v with
  | VFlag => Hflag
  | VBool b => Hbool b
  | VInt k n => Hint k n
  | VBytes s => Hbytes s
  | VList es =>
      Hlist es
        ((fix go (es : list (string * value)) : Forall (λ e, P e.2) es :=
            match es with
            | [] => List.Forall_nil _
            | (k, v) :: es' => List.Forall_cons _ (k, v) es' (value_nested_ind v) (go es')
            end) es)
  | VSeq t vs =>
      Hseq t vs
        ((fix go (vs : list value) : Forall P vs :=
            match vs with
            | [] => List.Forall_nil _
            | v :: vs' => List.Forall_cons _ v vs' (value_nested_ind v) (go vs')
            end) vs)
  end.
End value_induction.

(** *** The grammar of §3

    A value tree is constructible when it can be encoded and the keys of
    every List in it are unique. *)
Fixpoint distinct (ks : list string) : bool :=
  match ks with
  | [] => true
  | k :: ks' => negb (existsb (String.eqb k) ks') && distinct ks'
  end.

Fixpoint unique_keys (v : value) : bool :=
  match v with
  | VList es =>
      distinct (map fst es) &&
      forallb (fun e => match e with (_, v) => unique_keys v end) es
  | VSeq _ vs => forallb unique_keys vs
  | _ => true
  end.

Definition constructible (v : value) : bool := encodable v && unique_keys v.

End Codec.

(** ** The Python side: objects, exceptions, the boundary *)

Module Py.
Import Codec.

Definition ENOENT : Z := 2.

(** Fault kinds of the taxonomy in §7. *)
Inductive fault_kind :=
| NameInvalid | NameTooLong | DatasetExists | DatasetNotFound
| PropertyInvalid | PoolsDiffer | SnapshotMismatch | DestinationModified
| DatasetBusy | StreamCorruptOrUnsupportedFeature | MultipleTargetsRejected
| InitializationFailed | UnclassifiedCompound.

(** A compound fault: an overall kind and one record per attributable
    target. *)
Record compound_fault := {
  overall : fault_kind;
  records : list (string * fault_kind)
}.

(** The exceptions the wrappers can raise. *)
Inductive exn :=
| TypeError (msg : string)
| AssertionError
| UnknownStreamFeature (flag : string)
| ZFSInitializationFailed (ret : Z)
| CodecFault (e : codec_error)
| ZFSFault (f : compound_fault).

Inductive outcome (A : Type) :=
| Return (a : A)
| Raise (e : exn).
Arguments Return {A} a.
Arguments Raise {A} e.

(** What a wrapper hands back: [None], or a list of names. *)
Inductive pyret :=
| RNone
| RList (names : list string).

(** The names a return value reports back to the caller. *)
Definition reported (r : pyret) : list string :=
  match r with
  | RNone => []
  | RList names => names
  end.

(** A call reports all of [targets] back: it returns, and every target is
    among the names of its return value. *)
Definition reports_all (o : outcome pyret) (targets : list string) : Prop :=
  ∃ r, o = Return r ∧ ∀ t, t ∈ targets → t ∈ reported r.

(** The value a caller may give for one snapshot in [lzc_release]'s
    [holds]: a list of tags, or something that is not a list. *)
Inductive hold_tags :=
| Tags (tags : list string)
| TagBytes (s : string)
| TagInt (n : Z)
| TagNone.

Definition isinstance_list (h : hold_tags) : bool :=
  match h with Tags _ => true | _ => false end.

(** *** Python dicts

    A dict is kept as the list of its entries in the order in which their
    keys were first inserted, with unique keys; [d[k] = v] on a key that is
    present replaces the value and inserts nothing.  That order is the
    history of the dict, not the order in which it is iterated: see
    [items] below. *)
Fixpoint dict_set (d : nvlist) (k : string) (v : value) : nvlist :=
  match d with
  | [] => [(k, v)]
  | (k', v') :: d' =>
      if String.eqb k' k then (k', v) :: d' else (k', v') :: dict_set d' k v
  end.

(** [{ name: None for name in names }] *)
Definition dict_fromkeys (names : list string) : nvlist :=
  fold_left (fun d name => dict_set d name VFlag) names [].

(** Filling an empty dict with decoded entries. *)
Definition dict_of_entries (es : nvlist) : nvlist :=
  fold_left (fun d e => dict_set d e.1 e.2) es [].

(** The names of a list in order of first occurrence. *)
Fixpoint dedup_from (seen : list string) (names : list string)
  : list string :=
  match names with
  | [] => []
  | x :: rest =>
      if existsb (String.eqb x) seen then dedup_from seen rest
      else x :: dedup_from (x :: seen) rest
  end.

Definition dedup (names : list string) : list string := dedup_from [] names.

(** The flags [lzc_send] knows, and the first flag of a list that it does
    not know. *)
Definition known_flag (flag : string) : bool :=
  String.eqb flag "embedded_data" || String.eqb flag "large_blocks".

Definition first_unknown (flags : list string) : option string :=
  find (fun flag => negb (known_flag flag)) flags.

(** One flag entry per name. *)
Definition flagged (names : list string) : nvlist :=
  map (fun name => (name, VFlag)) names.

(** [x == errno.ENOENT] for a decoded value [x]. *)
Definition is_enoent (v : value) : bool :=
  match v with
  | VInt _ n => n =? ENOENT
  | _ => false
  end.

(** *** The interpreter

    The module runs on Python 2 only: it uses [iteritems], [itervalues]
    and [has_key].  There a dict is iterated in the order of its hash
    table, some arrangement of its entries that the language leaves open;
    and under [python -O] the flag [__debug__] is unset and every [assert]
    statement is dropped. *)
Record interp := {
  debug : bool;
  items : ∀ V : Type, list (string * V) → list (string * V);
  items_perm : ∀ (V : Type) (d : list (string * V)), items V d ≡ₚ d
}.
Arguments items _ {V} _.
Arguments items_perm _ {V} _.

(** A value as it is iterated: every dict in it, at every depth, in the
    order of the interpreter. *)
Fixpoint layout (py : interp) (v : value) : value :=
  match v with
  | VList es =>
      VList (items py (map (fun e => match e with
                                     | (k, x) => (k, layout py x)
                                     end) es))
  | VSeq t vs => VSeq t (map (layout py) vs)
  | _ => v
  end.

(** The entries of a dict as a traversal of the dict and of the dicts
    inside it meets them. *)
Definition iterated (py : interp) (d : nvlist) : nvlist :=
  items py (map (fun e => match e with (k, x) => (k, layout py x) end) d).

(** [d.keys()] and [d.itervalues()] *)
Definition dict_keys (py : interp) (d : nvlist) : list string :=
  map fst (items py d).
Definition dict_values (py : interp) (d : nvlist) : list value :=
  map snd (items py d).

(** *** The native library

    The entry points of [bindings.libzfs_core.lib] that the wrappers call,
    as transformers of the engine state [σ].  An entry point with an output
    handle leaves a buffer in it. *)
Record Lib (σ : Type) := {
  libzfs_core_init : σ → Z * σ;
  c_lzc_snapshot : buffer → buffer → σ → Z * buffer * σ;
  c_lzc_destroy_snaps : buffer → bool → σ → Z * buffer * σ;
  c_lzc_bookmark : buffer → σ → Z * buffer * σ;
  c_lzc_hold : buffer → Z → σ → Z * buffer * σ;
  c_lzc_release : buffer → σ → Z * buffer * σ;
  c_lzc_send : string → option string → Z → Z → σ → Z * σ;
  LZC_SEND_FLAG_EMBED_DATA : Z;
  LZC_SEND_FLAG_LARGE_BLOCK : Z
}.
Arguments libzfs_core_init {σ} _ _.
Arguments c_lzc_snapshot {σ} _ _ _ _.
Arguments c_lzc_destroy_snaps {σ} _ _ _ _.
Arguments c_lzc_bookmark {σ} _ _ _.
Arguments c_lzc_hold {σ} _ _ _ _.
Arguments c_lzc_release {σ} _ _ _.
Arguments c_lzc_send {σ} _ _ _ _ _ _.
Arguments LZC_SEND_FLAG_EMBED_DATA {σ} _.
Arguments LZC_SEND_FLAG_LARGE_BLOCK {σ} _.

(** The operation-specific tables of [_error_translation], from a status
    code to a fault kind; a code a table does not list has no kind. *)
Record kind_tables := {
  snapshot_kinds : Z → option fault_kind;
  destroy_snaps_kinds : Z → option fault_kind;
  bookmark_kinds : Z → option fault_kind;
  hold_kinds : Z → option fault_kind;
  release_kinds : Z → option fault_kind;
  send_kinds : Z → option fault_kind
}.

(** The functions [lzc_*_xlate_errors] of [_error_translation] for the
    batch wrappers.  The module is not in the tree, so they are taken as
    they are called: from the status, the error map and the further
    arguments the wrapper hands over, each tells whether a fault is raised,
    and which.  They are taken to read their arguments only. *)
Record translator := {
  snapshot_xlate : Z → nvlist → list string → nvlist → option compound_fault;
  destroy_snaps_xlate :
    Z → nvlist → list string → bool → option compound_fault;
  bookmark_xlate : Z → nvlist → nvlist → option compound_fault;
  hold_xlate : Z → nvlist → nvlist → Z → option compound_fault;
  release_xlate :
    Z → nvlist → list (string * hold_tags) → option compound_fault
}.

(** *** The world a wrapper runs in *)
Record world (σ : Type) := World {
  engine : σ;                      (* the native engine *)
  inited : bool;                   (* [LazyInit._inited] *)
  native : gmap nat buffer;        (* live native List handles *)
  next_handle : nat;
  dicts : gmap nat nvlist;         (* Python dict objects, by reference *)
  next_dict : nat;
  calls : list string              (* entry points called so far *)
}.
Arguments World {σ} _ _ _ _ _ _ _.
Arguments engine {σ} _.
Arguments inited {σ} _.
Arguments native {σ} _.
Arguments next_handle {σ} _.
Arguments dicts {σ} _.
Arguments next_dict {σ} _.
Arguments calls {σ} _.

Section Wrappers.
Context {σ : Type} (lib : Lib σ) (tables : kind_tables)
  (xlate : translator) (py : interp).

(** Statements run in a world and return or raise. *)
Definition M (A : Type) : Type := world σ → outcome A * world σ.

Definition ret {A} (a : A) : M A := fun w => (Return a, w).
Definition raise {A} (e : exn) : M A := fun w => (Raise e, w).
Definition bind {A B} (m : M A) (k : A → M B) : M B :=
  fun w =>
    match m w with
    | (Return a, w') => k a w'
    | (Raise e, w') => (Raise e, w')
    end.

Notation "'let*' x ':=' m 'in' k" := (bind m (fun x => k))
  (at level 10, x name, m at level 100, k at level 200, only parsing).

Definition lift {A} (o : outcome A) : M A := fun w => (o, w).

(** [d = {}] *)
Definition new_dict : M nat :=
  fun w =>
    (Return (next_dict w),
     World (engine w) (inited w) (native w) (next_handle w)
           (<[next_dict w := []]> (dicts w)) (S (next_dict w)) (calls w)).

Definition read_dict (d : nat) : M nvlist :=
  fun w => (Return (default [] (dicts w !! d)), w).

(** [LazyInit.__getattr__]: the first access to an attribute of [_lib]
    runs [libzfs_core_init] under the lock; [_inited] is set only when it
    returns 0. *)
Definition getattr : M unit :=
  fun w =>
    if inited w then (Return tt, w)
    else
      let '(r, e') := libzfs_core_init lib (engine w) in
      let log := calls w ++ ["libzfs_core_init"%string] in
      if r =? 0
      then (Return tt,
            World e' true (native w) (next_handle w)
                  (dicts w) (next_dict w) log)
      else (Raise (ZFSInitializationFailed r),
            World e' (inited w) (native w) (next_handle w)
                  (dicts w) (next_dict w) log).

(** What [__getattr__] finds: status 0 and the engine as it is when
    [_inited] is set, the answer of [libzfs_core_init] otherwise. *)
Definition init_result (w : world σ) : Z * σ :=
  if inited w then (0, engine w) else libzfs_core_init lib (engine w).

(** A call of an entry point that fills the output handle [h]. *)
Definition call_out (name : string) (h : nat)
    (f : σ → Z * buffer * σ) : M Z :=
  fun w =>
    let '(r, out, e') := f (engine w) in
    (Return r,
     World e' (inited w) (<[h := out]> (native w)) (next_handle w)
           (dicts w) (next_dict w) (calls w ++ [name])).

(** A call of an entry point without output handle. *)
Definition call (name : string) (f : σ → Z * σ) : M Z :=
  fun w =>
    let '(r, e') := f (engine w) in
    (Return r,
     World e' (inited w) (native w) (next_handle w)
           (dicts w) (next_dict w) (calls w ++ [name])).

(** Modelled from the spec: [nvlist_in] of the module [_nvlist], which is
    not in the tree: §4.1 Encode of the dict as it is iterated, an
    [EncodingError] being raised. *)
Definition nvlist_in (d : nvlist) : M buffer :=
  match Encode (iterated py d) with
  | Ok buf => ret buf
  | Err e => raise (CodecFault e)
  end.

(** Modelled from the spec: [nvlist_out] of the module [_nvlist], which is
    not in the tree: the scoped output buffer of §4.1 and §9.  An empty
    List handle is allocated and passed to the body; on scope exit, whether
    the body returned or raised, the handle's contents are decoded into the
    sink and the handle is released, also when decoding faults. *)
Definition nvlist_out {A} (sink : nat) (body : nat → M A) : M A :=
  fun w =>
    let h := next_handle w in
    let w0 := World (engine w) (inited w)
                    (<[h := payload (VList [])]> (native w)) (S h)
                    (dicts w) (next_dict w) (calls w) in
    let '(o, w1) := body h w0 in
    let decoded := Decode (default [] (native w1 !! h)) in
    let released := delete h (native w1) in
    match decoded with
    | Ok es =>
        (o, World (engine w1) (inited w1) released (next_handle w1)
                  (<[sink := dict_of_entries es]> (dicts w1)) (next_dict w1)
                  (calls w1))
    | Err e =>
        (Raise (CodecFault e),
         World (engine w1) (inited w1) released (next_handle w1)
               (dicts w1) (next_dict w1) (calls w1))
    end.

(** The kind of a status code, and of one entry of the error map: the
    status supplies the kind of the single entry of a one-entry map when
    the entry's code is not in the table (§4.2, step 4). *)
Definition kind_of (table : Z → option fault_kind) (code : Z) : fault_kind :=
  default UnclassifiedCompound (table code).

Definition entry_kind (table : Z → option fault_kind) (S : Z)
    (single : bool) (v : value) : fault_kind :=
  match v with
  | VInt _ code =>
      match table code with
      | Some k => k
      | None => if single then kind_of table S else UnclassifiedCompound
      end
  | _ => UnclassifiedCompound
  end.

(** Modelled from the spec: the Error Classifier of §4.2, which lives in
    the module [_error_translation], not in the tree.  A success status is
    no fault (steps 1 and 2).  A failure status is a compound fault whose
    overall kind comes from the status and which has one record per entry
    of the error map (steps 3 and 4). *)
Definition classify (table : Z → option fault_kind) (S : Z) (E : nvlist)
  : option compound_fault :=
  if S =? 0 then None
  else
    let single := (length E =? 1)%nat in
    Some {| overall := kind_of table S;
            records := map (fun e => (e.1, entry_kind table S single e.2)) E |}.

(** Modelled from the spec: the [lzc_*_xlate_error] functions of
    [_error_translation] for the calls without an error map: the fault of
    [classify] is raised; on a success status nothing is raised. *)
Definition xlate_errors (table : Z → option fault_kind) (S : Z) (E : nvlist)
  : M unit :=
  match classify table S E with
  | None => ret tt
  | Some f => raise (ZFSFault f)
  end.

(** Raising what a translator of the batch wrappers found. *)
Definition translate (fault : option compound_fault) : M unit :=
  match fault with
  | None => ret tt
  | Some f => raise (ZFSFault f)
  end.

(** [assert all(x == errno.ENOENT for x in errlist.itervalues())]; the
    statement is there only while [__debug__] is set. *)
Definition assert_all_enoent (E : nvlist) : M unit :=
  if debug py then
    if forallb is_enoent (dict_values py E) then ret tt
    else raise AssertionError
  else ret tt.

(** *** The wrappers of [_libzfs_core.py] *)

Definition lzc_snapshot (snaps : list string) (props : option nvlist)
  : M pyret :=
  let snaps_dict := dict_fromkeys snaps in
  let* errlist := new_dict in
  let* snaps_nvlist := nvlist_in snaps_dict in
  let props := default [] props in
  let* props_nvlist := nvlist_in props in
  let* r :=
    nvlist_out errlist (fun errlist_nvlist =>
      let* _ := getattr in
      call_out "lzc_snapshot" errlist_nvlist
               (c_lzc_snapshot lib snaps_nvlist props_nvlist)) in
  let* E := read_dict errlist in
  let* _ := translate (snapshot_xlate xlate r E snaps props) in
  ret RNone.

Definition lzc_destroy_snaps (snaps : list string) (defer : bool)
  : M pyret :=
  let snaps_dict := dict_fromkeys snaps in
  let* errlist := new_dict in
  let* snaps_nvlist := nvlist_in snaps_dict in
  let* r :=
    nvlist_out errlist (fun errlist_nvlist =>
      let* _ := getattr in
      call_out "lzc_destroy_snaps" errlist_nvlist
               (c_lzc_destroy_snaps lib snaps_nvlist defer)) in
  let* E := read_dict errlist in
  let* _ := translate (destroy_snaps_xlate xlate r E snaps defer) in
  ret RNone.

Definition lzc_bookmark (bookmarks : nvlist) : M pyret :=
  let* errlist := new_dict in
  let* nvlist := nvlist_in bookmarks in
  let* r :=
    nvlist_out errlist (fun errlist_nvlist =>
      let* _ := getattr in
      call_out "lzc_bookmark" errlist_nvlist (c_lzc_bookmark lib nvlist)) in
  let* E := read_dict errlist in
  let* _ := translate (bookmark_xlate xlate r E bookmarks) in
  ret RNone.

Definition lzc_hold (holds : nvlist) (fd : option Z) : M pyret :=
  let* errlist := new_dict in
  let fd := default (-1) fd in
  let* nvlist := nvlist_in holds in
  let* r :=
    nvlist_out errlist (fun errlist_nvlist =>
      let* _ := getattr in
      call_out "lzc_hold" errlist_nvlist (c_lzc_hold lib nvlist fd)) in
  let* E := read_dict errlist in
  let* _ := translate (hold_xlate xlate r E holds fd) in
  let* _ := assert_all_enoent E in
  ret (RList (dict_keys py E)).

(** The loop of [lzc_release] over the entries that [holds.iteritems()]
    yields; it touches nothing but its local [holds_dict]. *)
Fixpoint release_holds_dict (holds : list (string * hold_tags))
    (holds_dict : nvlist) : outcome nvlist :=
  match holds with
  | [] => Return holds_dict
  | (snap, hold_list) :: rest =>
      match hold_list with
      | Tags tags =>
          release_holds_dict rest
            (dict_set holds_dict snap (VList (dict_fromkeys tags)))
      | _ => Raise (TypeError "holds must be in a list")
      end
  end.

Definition lzc_release (holds : list (string * hold_tags)) : M pyret :=
  let* errlist := new_dict in
  let* holds_dict := lift (release_holds_dict (items py holds) []) in
  let* nvlist := nvlist_in holds_dict in
  let* r :=
    nvlist_out errlist (fun errlist_nvlist =>
      let* _ := getattr in
      call_out "lzc_release" errlist_nvlist (c_lzc_release lib nvlist)) in
  let* E := read_dict errlist in
  let* _ := translate (release_xlate xlate r E holds) in
  let* _ := assert_all_enoent E in
  ret (RList (dict_keys py E)).

(** The table of [lzc_send]'s loop body; building the dict literal reads
    both constants through [_lib]. *)
Definition send_flag (flag : string) : M (option Z) :=
  let* _ := getattr in
  let embed := LZC_SEND_FLAG_EMBED_DATA lib in
  let* _ := getattr in
  let large := LZC_SEND_FLAG_LARGE_BLOCK lib in
  ret (if String.eqb flag "embedded_data" then Some embed
       else if String.eqb flag "large_blocks" then Some large
       else None).

Fixpoint send_flags (flags : list string) (c_flags : Z) : M Z :=
  match flags with
  | [] => ret c_flags
  | flag :: rest =>
      let* c_flag := send_flag flag in
      match c_flag with
      | None => raise (UnknownStreamFeature flag)
      | Some c => send_flags rest (Z.lor c_flags c)
      end
  end.

Definition lzc_send (snapname : string) (fromsnap : option string) (fd : Z)
    (flags : option (list string)) : M pyret :=
  let c_fromsnap := fromsnap in
  let flags := default [] flags in
  let* c_flags := send_flags flags 0 in
  let* _ := getattr in
  let* r := call "lzc_send" (c_lzc_send lib snapname c_fromsnap fd c_flags) in
  let* _ := xlate_errors (send_kinds tables) r [] in
  ret RNone.

(** A computation that leaves no native handle behind. *)
Definition no_leak {A} (m : M A) : Prop :=
  ∀ w, native (m w).2 ⊆ native w.

End Wrappers.

(** Modelled from the spec: the translators of the batch wrappers as the
    Error Classifier of §4.2, whose algorithm reads the status, the error
    map and the table of the operation; it has no step that looks at the
    targets. *)
Definition spec_xlate (tables : kind_tables) : translator := {|
  snapshot_xlate := fun S E _ _ => classify (snapshot_kinds tables) S E;
  destroy_snaps_xlate :=
    fun S E _ _ => classify (destroy_snaps_kinds tables) S E;
  bookmark_xlate := fun S E _ => classify (bookmark_kinds tables) S E;
  hold_xlate := fun S E _ _ => classify (hold_kinds tables) S E;
  release_xlate := fun S E _ => classify (release_kinds tables) S E
|}.

End Py.

(** ** [LazyInit.__getattr__] under threads

    The statements of [__getattr__] as atomic steps of several threads that
    share [_inited] and [_lock]; [libzfs_core_init] answers its calls in
    order from [oracle]. *)

Module LazyInit.

Inductive pc :=
| Check1                (* if not self._inited: *)
| Acquire               (* with self._lock: *)
| Check2                (* if not self._inited: *)
| Init                  (* ret = self._lib.libzfs_core_init() *)
| SetFlag               (* self._inited = True *)
| ReleaseOk             (* the with block is left normally *)
| ReleaseErr (ret : Z)  (* raise ZFSInitializationFailed(ret), leaving it *)
| Done                  (* return getattr(self._lib, name) *)
| Raised (ret : Z).     (* the exception reached the caller *)

Record state := State {
  threads : list pc;
  inited : bool;
  lock : option nat;      (* the thread that holds [_lock] *)
  init_log : list Z       (* results of the calls of libzfs_core_init *)
}.

(** The statements between acquiring and releasing the lock. *)
Definition holds_lock (p : pc) : bool :=
  match p with
  | Check2 | Init | SetFlag | ReleaseOk | ReleaseErr _ => true
  | _ => false
  end.

Definition at_pc (s : state) (t : nat) (p : pc) : state :=
  State (<[t := p]> (threads s)) (inited s) (lock s) (init_log s).

(** One step of thread [t]; a thread that is blocked on the lock or has
    finished does not move. *)
Definition step (oracle : nat → Z) (t : nat) (s : state) : state :=
  match threads s !! t with
  | Some Check1 => at_pc s t (if inited s then Done else Acquire)
  | Some Acquire =>
      match lock s with
      | None => State (<[t := Check2]> (threads s)) (inited s) (Some t)
                      (init_log s)
      | Some _ => s
      end
  | Some Check2 => at_pc s t (if inited s then ReleaseOk else Init)
  | Some Init =>
      let r := oracle (length (init_log s)) in
      State (<[t := if r =? 0 then SetFlag else ReleaseErr r]> (threads s))
            (inited s) (lock s) (init_log s ++ [r])
  | Some SetFlag =>
      State (<[t := ReleaseOk]> (threads s)) true (lock s) (init_log s)
  | Some ReleaseOk =>
      State (<[t := Done]> (threads s)) (inited s) None (init_log s)
  | Some (ReleaseErr r) =>
      State (<[t := Raised r]> (threads s)) (inited s) None (init_log s)
  | Some Done | Some (Raised _) | None => s
  end.

(** A schedule names the thread that moves at each step. *)
Definition run (oracle : nat → Z) (schedule : list nat) (s : state) : state :=
  fold_left (fun s t => step oracle t s) schedule s.

(** [n] threads at the first use of [_lib]. *)
Definition first_use (n : nat) : state :=
  State (replicate n Check1) false None [].

(** Calls of [libzfs_core_init] that returned 0. *)
Definition successes (s : state) : nat :=
  length (filter (fun r => r = 0) (init_log s)).

(** What every interleaving keeps true: the lock excludes, a thread about
    to initialize has seen [_inited] unset, at most one initialization has
    succeeded, and a thread raises only the failure of a run. *)
Definition inv (oracle : nat → Z) (s : state) : Prop :=
  (∀ t p, threads s !! t = Some p → holds_lock p = true → lock s = Some t)
  ∧ (∀ t, threads s !! t = Some Init → inited s = false)
  ∧ (successes s ≤ 1)%nat
  ∧ (successes s = 1%nat →
     inited s = true ∨ ∃ t, threads s !! t = Some SetFlag)
  ∧ (∀ t r, threads s !! t = Some (Raised r) ∨
            threads s !! t = Some (ReleaseErr r) → r ≠ 0 ∧ r ∈ init_log s)
  ∧ (∀ r, r ∈ init_log s → ∃ i, r = oracle i).

End LazyInit.

(** ** A scripted engine

    The native library is outside the repository.  The theorems below hold
    for every [Lib]; this one answers from a script, and provides the
    concrete engines of the examples. *)

Module Script.
Import Codec Py.

Record script := Script {
  inits : list Z;                  (* results of libzfs_core_init *)
  replies : list (Z * buffer)      (* status and output of the calls *)
}.

Definition next_init (s : script) : Z * script :=
  match inits s with
  | [] => (0, s)
  | r :: rest => (r, Script rest (replies s))
  end.

Definition next_reply (s : script) : Z * buffer * script :=
  match replies s with
  | [] => (0, payload (VList []), s)
  | (r, out) :: rest => (r, out, Script (inits s) rest)
  end.

Definition scripted : Lib script := {|
  libzfs_core_init := next_init;
  c_lzc_snapshot := fun _ _ => next_reply;
  c_lzc_destroy_snaps := fun _ _ => next_reply;
  c_lzc_bookmark := fun _ => next_reply;
  c_lzc_hold := fun _ _ => next_reply;
  c_lzc_release := fun _ => next_reply;
  c_lzc_send := fun _ _ _ _ s => let '(r, _, s') := next_reply s in (r, s');
  LZC_SEND_FLAG_EMBED_DATA := 1;
  LZC_SEND_FLAG_LARGE_BLOCK := 2
|}.

(** errno values as kinds. *)
Definition errno_kinds (code : Z) : option fault_kind :=
  if code =? 2 then Some DatasetNotFound
  else if code =? 16 then Some DatasetBusy
  else if code =? 17 then Some DatasetExists
  else if code =? 18 then Some PoolsDiffer
  else if code =? 22 then Some PropertyInvalid
  else if code =? 36 then Some NameTooLong
  else None.

Definition errno_tables : kind_tables :=
  Build_kind_tables errno_kinds errno_kinds errno_kinds
                    errno_kinds errno_kinds errno_kinds.

Definition errno_xlate : translator := spec_xlate errno_tables.

(** Interpreters: one that iterates a dict in the order of insertion, with
    and without [-O], and one that iterates it backwards. *)
Definition in_order : interp := {|
  debug := true;
  items := fun V d => d;
  items_perm := fun V d => Permutation_refl d
|}.

Definition in_order_O : interp := {|
  debug := false;
  items := fun V d => d;
  items_perm := fun V d => Permutation_refl d
|}.

Definition backwards : interp := {|
  debug := true;
  items := fun V d => reverse d;
  items_perm := fun V d => reverse_Permutation d
|}.

(** A process that has not yet used [_lib]. *)
Definition boot (s : script) : world script :=
  World s false ∅ 0%nat ∅ 0%nat [].

(** The output buffer of an error map. *)
Definition errmap (E : nvlist) : buffer := payload (VList E).

End Script.

(** ** Concrete inputs *)

Module Examples.
Import Codec Py Script.
Local Open Scope string_scope.

(** Scenario 1 of §8, extended with a nested List. *)
Definition scenario1 : nvlist :=
  [("a", VInt U32 1);
   ("b", VSeq TBytes [VBytes "x"; VBytes "y"; VBytes "z"]);
   ("c", VList [("flag", VFlag); ("neg", VInt I16 (-300));
                ("subs", VSeq TList [VList []; VList [("on", VBool true)]])])].

(** An engine that answers a hold with success and a busy entry. *)
Definition busy_entry : nvlist := [("p@s1", VInt I32 16)].
Definition busy_script : script := Script [] [(0, errmap busy_entry)].

(** Scenario 4 of §8: one tag of the snapshot is missing. *)
Definition scenario4 : list (string * hold_tags) :=
  [("p@s1", Tags ["tag1"; "missing-tag"])].
Definition scenario4_misses : nvlist := [("p@s1#missing-tag", VInt I32 2)].
Definition scenario4_script : script :=
  Script [] [(0, errmap scenario4_misses)].

(** The same request as the caller writes it, and the engine of the
    scenario: every snapshot exists, and [tag1] is the only hold. *)
Definition scenario4_holds : list (string * list string) :=
  [("p@s1", ["tag1"; "missing-tag"])].
Definition all_exist (snap : string) : bool := true.
Definition tag1_held (snap tag : string) : bool := String.eqb tag "tag1".

(** A snapshot that does not exist: the engine ignores it. *)
Definition absent : list string := ["p@s1"].
Definition quiet_script : script := Script [] [].

(** An engine that answers a hold with an error map in which a name
    occurs twice. *)
Definition doubled_misses : nvlist :=
  [("p@a", VInt I32 2); ("p@b", VInt I32 2); ("p@a", VInt I32 2)].
Definition doubled_script : script := Script [] [(0, errmap doubled_misses)].

(** An engine that reports success and leaves a buffer that is cut
    short. *)
Definition garbled_script : script := Script [] [(0, [x05])].

(** [holds] with a bare tag where a list of tags is expected. *)
Definition bare_tag : list (string * hold_tags) :=
  [("p@s1", Tags ["tag1"]); ("p@s2", TagBytes "tag2")].

(** An engine whose initialization fails with 5 once, then succeeds. *)
Definition flaky_script : script := Script [5] [].

(** The same as an oracle, and two threads that meet at the first use:
    thread 0 takes the lock first, thread 1 waits for it. *)
Definition fail_once (i : nat) : Z := if Nat.eqb i 0 then 5 else 0.
Definition interleaving : list nat :=
  [0; 1; 0; 1; 0; 0; 1; 0; 1; 1; 1; 1; 1]%nat.

End Examples.

(** ** What the wrappers call

    The flag bits of [lzc_send], and the ways a wrapper can go as seen in
    the log of calls. *)

Module Send.
Import Codec Py.

(** The value of [c_flags] after the loop of [lzc_send] over known flags:
    the bit of each flag that occurs in the list. *)
Definition flags_value {σ} (lib : Lib σ) (flags : list string) : Z :=
  Z.lor
    (if existsb (String.eqb "embedded_data") flags
     then LZC_SEND_FLAG_EMBED_DATA lib else 0)
    (if existsb (String.eqb "large_blocks") flags
     then LZC_SEND_FLAG_LARGE_BLOCK lib else 0).

(** [lzc_send] after its loop: one access to [_lib], the boundary call with
    the given [c_flags], the translation of its status. *)
Definition send_with {σ} (lib : Lib σ) (tables : kind_tables)
    (snapname : string) (fromsnap : option string) (fd c_flags : Z)
  : M pyret :=
  bind (getattr lib) (λ _,
  bind (call "lzc_send" (c_lzc_send lib snapname fromsnap fd c_flags)) (λ r,
  bind (xlate_errors (send_kinds tables) r []) (λ _, ret RNone))).
End Send.

Module Trace.
Import Codec Py.

Section Defs.
Context {σ : Type} (lib : Lib σ).

(** An exception of the argument handling, raised before [_lib] is
    touched. *)
Definition early (e : exn) : Prop :=
  match e with
  | TypeError _ | CodecFault EncodingError => True
  | _ => False
  end.

(** The three ways a wrapper with one boundary call can go.  It fails on
    its arguments and calls nothing: *)
Definition untouched {A} (w : world σ) (o : outcome A) (w' : world σ)
  : Prop :=
  calls w' = calls w ∧ engine w' = engine w ∧ inited w' = inited w
  ∧ ∃ e, o = Raise e ∧ early e.

(** the first use of [_lib] fails to initialize, and only
    [libzfs_core_init] is called: *)
Definition init_failed {A} (w : world σ) (o : outcome A) (w' : world σ)
  : Prop :=
  ∃ r e1, init_result lib w = (r, e1) ∧ r ≠ 0
    ∧ o = Raise (ZFSInitializationFailed r)
    ∧ calls w' = calls w ++ ["libzfs_core_init"%string]
    ∧ engine w' = e1 ∧ inited w' = false.

(** or the entry point [name] is called exactly once, after
    [libzfs_core_init] if [_inited] was unset. *)
Definition called (name : string) (w w' : world σ) : Prop :=
  ∃ e1, init_result lib w = (0, e1)
    ∧ calls w' = calls w
                 ++ (if inited w then [] else ["libzfs_core_init"%string])
                 ++ [name]
    ∧ inited w' = true.

Definition one_call {A} (name : string) (m : M A) : Prop :=
  ∀ w : world σ,
    untouched w (m w).1 (m w).2 ∨ init_failed w (m w).1 (m w).2
    ∨ called name w (m w).2.

(** The scope around the boundary call: the last two ways only. *)
Definition at_boundary {A} (name : string) (m : M A) : Prop :=
  ∀ w : world σ, init_failed w (m w).1 (m w).2 ∨ called name w (m w).2.

(** A step that calls nothing. *)
Definition call_free {A} (m : M A) : Prop :=
  ∀ w : world σ,
    calls (m w).2 = calls w ∧ engine (m w).2 = engine w
    ∧ inited (m w).2 = inited w.

(** A step of the argument handling: it calls nothing, and raises only
    [early] exceptions. *)
Definition prelude {A} (m : M A) : Prop :=
  call_free m ∧ ∀ (w : world σ) e, (m w).1 = Raise e → early e.

(** A computation that, once [_inited] is set, keeps it set and does not
    call [libzfs_core_init]. *)
Definition init_free {A} (m : M A) : Prop :=
  ∀ w : world σ, inited w = true →
    inited (m w).2 = true
    ∧ ∃ l, calls (m w).2 = calls w ++ l ∧ "libzfs_core_init"%string ∉ l.
End Defs.
End Trace.

(** ** The scope of the output handle in a wrapper *)

Module Scope.
Import Codec Py.

(** What the statements after the with block make of a translator's
    finding: [lzc_snapshot], [lzc_destroy_snaps] and [lzc_bookmark] return
    [None] unless a fault is raised; [lzc_hold] and [lzc_release] check the
    error map, while [__debug__] is set, and return its keys. *)
Definition plain_verdict (fault : option compound_fault) : outcome pyret :=
  match fault with
  | Some f => Raise (ZFSFault f)
  | None => Return RNone
  end.

Definition keys_verdict (py : interp) (fault : option compound_fault)
    (E : nvlist) : outcome pyret :=
  match fault with
  | Some f => Raise (ZFSFault f)
  | None =>
      if debug py && negb (forallb is_enoent (dict_values py E))
      then Raise AssertionError
      else Return (RList (dict_keys py E))
  end.

(** The soft misses of §4.3, for an engine in which [exists_] tells the
    snapshots that exist and [held] the holds that are there.  For a hold
    request they are the snapshots of the request that do not exist; for a
    release request, the snapshots that do not exist and, on those that
    exist, the tags of the request that are not held, named
    [snapshot#tag]. *)
Definition hold_miss (exists_ : string → bool) (req : nvlist)
    (name : string) : Prop :=
  (∃ v, (name, v) ∈ req) ∧ exists_ name = false.

Definition release_miss (exists_ : string → bool)
    (held : string → string → bool) (req : nvlist) (name : string) : Prop :=
  ∃ snap tags, (snap, VList tags) ∈ req
    ∧ ((exists_ snap = false ∧ name = snap)
       ∨ (exists_ snap = true
          ∧ ∃ tag, tag ∈ map fst tags ∧ held snap tag = false
                   ∧ name = (snap ++ "#" ++ tag)%string)).

Section Defs.
Context {σ : Type} (lib : Lib σ).

(** Handles are handed out upwards: none at or above [next_handle] is
    alive. *)
Definition fresh (w : world σ) : Prop :=
  ∀ h, (next_handle w ≤ h)%nat → native w !! h = None.

(** What is left of a batch wrapper once its arguments are encoded: the
    new dict, the scope around the access to [_lib] and the call of the
    entry point, and the statements after the scope. *)
Definition batch (name : string) (f : σ → Z * buffer * σ)
    (verdict : Z → nvlist → outcome pyret) : M pyret :=
  bind new_dict (fun errlist =>
    bind (nvlist_out errlist (fun errlist_nvlist =>
            bind (getattr lib) (fun _ => call_out name errlist_nvlist f)))
      (fun r => bind (read_dict errlist) (fun E => lift (verdict r E)))).

(** A call [m] that runs the entry point [name], as [f], in one scope
    whose sink is the dict [errlist] it has just made, and settles its
    outcome by [verdict] on the status and on that dict.  One handle is
    allocated and it is released however the scope is left: when the access
    to [_lib] raises, when the entry point has returned, and when what it
    left does not decode. *)
Definition scoped (m : M pyret) (name : string) (f : σ → Z * buffer * σ)
    (verdict : Z → nvlist → outcome pyret) : Prop :=
  ∀ w : world σ,
    let errlist := next_dict w in
    let h := next_handle w in
    next_handle (m w).2 = S h
    ∧ native (m w).2 = delete h (native w)
    ∧ (fresh w → native (m w).2 = native w ∧ fresh (m w).2)
    ∧ (∀ r e1, init_result lib w = (r, e1) → r ≠ 0 →
         (m w).1 = Raise (ZFSInitializationFailed r)
         ∧ dicts (m w).2 !! errlist = Some []
         ∧ calls (m w).2 = calls w ++ ["libzfs_core_init"%string])
    ∧ (∀ e1 r out e2, init_result lib w = (0, e1) → f e1 = (r, out, e2) →
         engine (m w).2 = e2
         ∧ calls (m w).2
           = calls w
             ++ (if inited w then [] else ["libzfs_core_init"%string])
             ++ [name]
         ∧ match Decode out with
           | Ok es =>
               dicts (m w).2 !! errlist = Some (dict_of_entries es)
               ∧ (m w).1 = verdict r (dict_of_entries es)
           | Err e => (m w).1 = Raise (CodecFault e)
           end).

End Defs.
End Scope.

(** ** More of what every interleaving keeps true *)

Module LazyInitMore.
Import LazyInit.

(** A thread that has the library or is about to leave the with block
    normally. *)
Definition past_init (p : pc) : bool :=
  match p with ReleaseOk | Done => true | _ => false end.

(** Every thread has ended, by returning or by raising. *)
Definition all_ended (s : state) : Prop :=
  ∀ t p, threads s !! t = Some p → p = Done ∨ ∃ r, p = Raised r.

(** What every interleaving keeps true besides [inv]: the lock is held
    only by a thread inside the with block, a thread gets the library only
    when [_inited] is set, and [_inited] is set only after a run of
    [libzfs_core_init] has returned 0. *)
Definition inv_lock (s : state) : Prop :=
  (∀ t, lock s = Some t →
        ∃ p, threads s !! t = Some p ∧ holds_lock p = true)
  ∧ (∀ t p, threads s !! t = Some p → past_init p = true → inited s = true)
  ∧ (inited s = true → (1 ≤ successes s)%nat)
  ∧ (∀ t, threads s !! t = Some SetFlag → (1 ≤ successes s)%nat).
End LazyInitMore.

(** ** The rest of [_libzfs_core.py]

    [lzc_create], the check of uncommitted functions ([is_supported],
    [_uncommitted]) with [lzc_promote] and [lzc_list], and the end of
    [lzc_get_props]. *)

Module Rest.
Import Codec Py.

(** The exceptions of this part of the module, besides those of the batch
    wrappers. *)
Inductive pyexn :=
| Lzc (e : exn)
| DatasetTypeInvalid (ds_type : string)
| ValueError (msg : string)
| NotImplementedError (name : string)
| OSError
| PyTypeError.

Inductive res (A : Type) :=
| Returns (a : A)
| Raises (e : pyexn).
Arguments Returns {A} a.
Arguments Raises {A} e.

(** The further entry points and constants of [bindings.libzfs_core.lib],
    and the tables of their [xlate] functions; [lib_has name] tells whether
    the library has an attribute [name]. *)
Record LibRest (σ : Type) := {
  c_lzc_create : string → Z → buffer → σ → Z * σ;
  c_lzc_promote : string → σ → Z * σ;
  c_lzc_list : string → buffer → σ → Z * σ;
  DMU_OST_ZFS : Z;
  DMU_OST_ZVOL : Z;
  lib_has : string → bool;
  create_kinds : Z → option fault_kind;
  promote_kinds : Z → option fault_kind;
  list_kinds : Z → option fault_kind
}.
Arguments c_lzc_create {σ} _ _ _ _ _.
Arguments c_lzc_promote {σ} _ _ _.
Arguments c_lzc_list {σ} _ _ _ _.
Arguments DMU_OST_ZFS {σ} _.
Arguments DMU_OST_ZVOL {σ} _.
Arguments lib_has {σ} _ _.
Arguments create_kinds {σ} _ _.
Arguments promote_kinds {σ} _ _.
Arguments list_kinds {σ} _ _.

(** What the module asks of the operating system. *)
Inductive os_event :=
| Pipe (rfd wfd : Z)      (* os.pipe() returned (rfd, wfd) *)
| SetCloexec (fd : Z)     (* fcntl.fcntl(fd, F_SETFD, FD_CLOEXEC) *)
| Close (fd : Z).         (* os.close(fd) *)

(** The descriptors [os.pipe()] returns after the given events, if it
    does not fail. *)
Definition os_model : Type := list os_event → option (Z * Z).

(** The world of the batch wrappers, and the requests made to the
    operating system so far. *)
Record rworld (σ : Type) := RWorld {
  base : world σ;
  os_log : list os_event
}.
Arguments RWorld {σ} _ _.
Arguments base {σ} _.
Arguments os_log {σ} _.

(** A Python function object, as far as [is_supported] looks at it: its
    [__name__] if it has one, whether it is callable, and its
    [_check_func] if it has one. *)
Inductive pyfunc :=
| Func (name : option string) (is_callable : bool)
       (check_func : option pyfunc).

Definition func_name (f : pyfunc) : string :=
  match f with Func name _ _ => default EmptyString name end.

(** The names bound at the top level of the module when it is loaded:
    those every module has, its imports, its definitions and its
    aliases. *)
Definition module_globals : list string :=
  ["__builtins__"; "__doc__"; "__file__"; "__name__"; "__package__";
   "errno"; "functools"; "fcntl"; "os"; "struct"; "threading"; "exceptions";
   "xlate"; "libzfs_core"; "MAXNAMELEN"; "int32_t"; "nvlist_in"; "nvlist_out";
   "lzc_create"; "lzc_clone"; "lzc_rollback"; "lzc_snapshot"; "lzc_snap";
   "lzc_destroy_snaps"; "lzc_bookmark"; "lzc_get_bookmarks";
   "lzc_destroy_bookmarks"; "lzc_snaprange_space"; "lzc_hold"; "lzc_release";
   "lzc_get_holds"; "lzc_send"; "lzc_send_space"; "lzc_receive"; "lzc_recv";
   "lzc_exists"; "is_supported"; "_uncommitted"; "lzc_promote"; "lzc_rename";
   "lzc_destroy_one"; "lzc_destroy"; "lzc_inherit"; "lzc_inherit_prop";
   "lzc_set_props"; "lzc_set_prop"; "lzc_list"; "_PIPE_RECORD_FORMAT";
   "_PIPE_RECORD_SIZE"; "lzc_get_props"; "lzc_list_children";
   "lzc_list_snaps"; "_initialize"; "_ffi"; "_lib"]%string.

Definition in_globals (fname : string) : bool :=
  existsb (String.eqb fname) module_globals.

(** A name [is_supported] takes for an API function of the module. *)
Definition api_name (fname : string) : bool :=
  in_globals fname && String.prefix "lzc_" fname.

(** [d.get(k)]: the value of the first entry with the key. *)
Fixpoint dict_get {V : Type} (d : list (string * V)) (k : string)
  : option V :=
  match d with
  | [] => None
  | (k', v) :: d' => if String.eqb k' k then Some v else dict_get d' k
  end.

Section Rest.
Context {σ : Type} (lib : Lib σ) (more : LibRest σ) (os : os_model)
  (py : interp).

Definition N (A : Type) : Type := rworld σ → res A * rworld σ.

Definition unit_ {A} (a : A) : N A := fun w => (Returns a, w).
Definition throw {A} (e : pyexn) : N A := fun w => (Raises e, w).
Definition andthen {A B} (m : N A) (k : A → N B) : N B :=
  fun w =>
    match m w with
    | (Returns a, w') => k a w'
    | (Raises e, w') => (Raises e, w')
    end.

(** A statement of the batch wrappers' kind, run here. *)
Definition of_M {A} (m : M A) : N A :=
  fun w =>
    match m (base w) with
    | (Return a, b) => (Returns a, RWorld b (os_log w))
    | (Raise e, b) => (Raises (Lzc e), RWorld b (os_log w))
    end.

Notation "'let*' x ':=' m 'in' k" := (andthen m (fun x => k))
  (at level 10, x name, m at level 100, k at level 200, only parsing).

(** [os.pipe()] *)
Definition os_pipe : N (Z * Z) :=
  fun w =>
    match os (os_log w) with
    | Some (rfd, wfd) =>
        (Returns (rfd, wfd),
         RWorld (base w) (os_log w ++ [Pipe rfd wfd]))
    | None => (Raises OSError, w)
    end.

(** [fcntl.fcntl(fd, fcntl.F_SETFD, fcntl.FD_CLOEXEC)], on a descriptor
    that is open. *)
Definition fcntl_cloexec (fd : Z) : N unit :=
  fun w => (Returns tt, RWorld (base w) (os_log w ++ [SetCloexec fd])).

(** [lzc_create], lines 30-58. *)
Definition lzc_create (name : string) (ds_type : string)
    (props : option nvlist) : N unit :=
  let props := default [] props in
  let* ds_type :=
    if String.eqb ds_type "zfs" then
      let* _ := of_M (getattr lib) in unit_ (DMU_OST_ZFS more)
    else if String.eqb ds_type "zvol" then
      let* _ := of_M (getattr lib) in unit_ (DMU_OST_ZVOL more)
    else throw (DatasetTypeInvalid ds_type) in
  let* nvlist := of_M (nvlist_in py props) in
  let* _ := of_M (getattr lib) in
  let* r := of_M (call "lzc_create" (c_lzc_create more name ds_type nvlist)) in
  of_M (xlate_errors (create_kinds more) r []).

(** [getattr(_lib, fname, None) is not None]: the access goes through
    [LazyInit.__getattr__]; an attribute the library does not have gives
    the default. *)
Definition lib_getattr_is_not_none (fname : string) : N bool :=
  let* _ := of_M (getattr lib) in
  unit_ (lib_has more fname).

(** [is_supported], lines 671-694. *)
Fixpoint is_supported (func : pyfunc) : N bool :=
  match func with
  | Func None _ _ => throw (ValueError "argument does not have __name__")
  | Func (Some fname) is_callable check_func =>
      if negb (in_globals fname) then
        throw (ValueError (fname ++ " is not from libzfs_core"))
      else if negb is_callable then
        throw (ValueError (fname ++ " is not a function"))
      else if negb (String.prefix "lzc_" fname) then
        throw (ValueError (fname ++ " is not a libzfs_core API function"))
      else
        match check_func with
        | Some check => is_supported check
        | None => lib_getattr_is_not_none fname
        end
  end.

(** The function [is_supported] ends at: the last of the chain of
    [_check_func] attributes. *)
Fixpoint last_check (func : pyfunc) : pyfunc :=
  match func with
  | Func _ _ (Some check) => last_check check
  | Func _ _ None => func
  end.

(** Every function of the chain has a name of the module that starts
    with [lzc_], and is callable. *)
Fixpoint api_function (func : pyfunc) : bool :=
  match func with
  | Func (Some fname) is_callable check_func =>
      api_name fname && is_callable
      && match check_func with
         | Some check => api_function check
         | None => true
         end
  | Func None _ _ => false
  end.

(** [_uncommitted(check_func)(func)], lines 697-725: the function object
    [_f] that the decorator returns.  [functools.wraps] gives it the name
    and the attributes of [func]; [_check_func] is set when [check_func]
    is given. *)
Definition uncommitted (check_func : option pyfunc) (func : pyfunc)
  : pyfunc :=
  match func with
  | Func name _ check =>
      Func name true
           (match check_func with Some c => Some c | None => check end)
  end.

(** A call of [_f]: the check is made on [func], the function that was
    decorated, before its body runs. *)
Definition uncommitted_call {A} (func : pyfunc) (body : N A) : N A :=
  let* ok := is_supported func in
  if ok then body else throw (NotImplementedError (func_name func)).

(** A function as [def] makes it, and the objects the module binds to the
    names of the uncommitted functions. *)
Definition def (fname : string) : pyfunc := Func (Some fname) true None.

Definition lzc_list_obj : pyfunc := uncommitted None (def "lzc_list").
Definition lzc_get_props_obj : pyfunc :=
  uncommitted (Some lzc_list_obj) (def "lzc_get_props").
Definition lzc_list_children_obj : pyfunc :=
  uncommitted (Some lzc_list_obj) (def "lzc_list_children").
Definition lzc_list_snaps_obj : pyfunc :=
  uncommitted (Some lzc_list_obj) (def "lzc_list_snaps").

(** [lzc_promote], lines 728-736. *)
Definition lzc_promote (name : string) : N unit :=
  uncommitted_call (def "lzc_promote")
    (let* _ := of_M (getattr lib) in
     let* r := of_M (call "lzc_promote" (c_lzc_promote more name)) in
     of_M (xlate_errors (promote_kinds more) r [])).

(** [d[k] = v] on the dict object [d]: the dict is changed in place, for
    everyone who holds it. *)
Definition dict_store (d : nat) (k : string) (v : value) : N unit :=
  fun w =>
    let b := base w in
    (Returns tt,
     RWorld (World (engine b) (inited b) (native b) (next_handle b)
                   (<[d := dict_set (default [] (dicts b !! d)) k v]>
                      (dicts b))
                   (next_dict b) (calls b))
            (os_log w)).

(** [lzc_list], lines 798-807.  [options] is the dict object of the
    caller; [int32_t(wfd)] is an integer of kind [I32]. *)
Definition lzc_list (name : string) (options : nat) : N (Z * Z) :=
  uncommitted_call (def "lzc_list")
    (let* fds := os_pipe in
     let rfd := fds.1 in
     let wfd := fds.2 in
     let* _ := fcntl_cloexec rfd in
     let* _ := fcntl_cloexec wfd in
     let* _ := dict_store options "fd" (VInt I32 wfd) in
     let* opts := of_M (read_dict options) in
     let* opts_nv := of_M (nvlist_in py opts) in
     let* _ := of_M (getattr lib) in
     let* r := of_M (call "lzc_list" (c_lzc_list more name opts_nv)) in
     let* _ := of_M (xlate_errors (list_kinds more) r []) in
     unit_ (rfd, wfd)).

End Rest.

(** *** The end of [lzc_get_props], lines 860-883 *)

(** [s[n:]] *)
Fixpoint string_from (n : nat) (s : string) : string :=
  match n, s with
  | O, _ => s
  | S n', String _ s' => string_from n' s'
  | S _, EmptyString => EmptyString
  end.

(** One entry of the [properties] List of a dataset: the value, and the
    name of the dataset the value comes from. *)
Record prop := Prop_ { value_of : value; source_of : string }.

(** [mountpoint_val], lines 865-878; adding a string to a value that is
    not a byte string raises [TypeError]. *)
Definition mountpoint_of (name : string) (mountpoint : option prop)
  : res value :=
  match mountpoint with
  | Some p =>
      let mountpoint_src := source_of p in
      let mountpoint_val := value_of p in
      if negb (String.prefix "$" mountpoint_src) then
        match mountpoint_val with
        | VBytes s =>
            Returns (VBytes (s ++ string_from (String.length mountpoint_src)
                                              name))
        | _ => Raises PyTypeError
        end
      else Returns mountpoint_val
  | None => Returns (VBytes ("/" ++ name))
  end.

(** [[ x for x in v ]]: the elements of a sequence, the keys of a dict,
    the characters of a byte string; another value is not iterable. *)
Definition list_of (v : value) : res value :=
  match v with
  | VSeq t vs => Returns (VSeq t vs)
  | VList es => Returns (VSeq TBytes (map (fun e => VBytes e.1) es))
  | VBytes s =>
      Returns (VSeq TBytes
                 (map (fun c => VBytes (String c EmptyString))
                      (list_ascii_of_string s)))
  | _ => Raises PyTypeError
  end.

(** The dict [lzc_get_props] returns for the dataset [name] with the
    given [properties]. *)
Definition get_props_result (name : string)
    (properties : list (string * prop)) : res nvlist :=
  match mountpoint_of name (dict_get properties "mountpoint") with
  | Raises e => Raises e
  | Returns mountpoint_val =>
      let result := map (fun kv => (kv.1, value_of kv.2)) properties in
      match dict_get result "clones" with
      | Some clones =>
          match list_of clones with
          | Raises e => Raises e
          | Returns l =>
              Returns (dict_set (dict_set result "clones" l)
                                "mountpoint" mountpoint_val)
          end
      | None => Returns (dict_set result "mountpoint" mountpoint_val)
      end
  end.

End Rest.

(** ** Concrete inputs for the rest of the module *)

Module RestExamples.
Import Codec Py Script Rest.
Local Open Scope string_scope.

(** The further entry points, answered from the script; the constants as
    the headers of ZFS have them. *)
Definition scripted_rest (has : string → bool) : LibRest script := {|
  c_lzc_create := fun _ _ _ s => let '(r, _, s') := next_reply s in (r, s');
  c_lzc_promote := fun _ s => let '(r, _, s') := next_reply s in (r, s');
  c_lzc_list := fun _ _ s => let '(r, _, s') := next_reply s in (r, s');
  DMU_OST_ZFS := 2;
  DMU_OST_ZVOL := 3;
  lib_has := has;
  create_kinds := errno_kinds;
  promote_kinds := errno_kinds;
  list_kinds := errno_kinds
|}.

(** A library with [lzc_list] and nothing else that is uncommitted. *)
Definition only_lzc_list (fname : string) : bool :=
  String.eqb fname "lzc_list".

(** A process with the descriptors 0, 1 and 2 open. *)
Definition next_pipe : os_model := fun _ => Some (3, 4).

Definition rboot (s : script) : rworld script := RWorld (boot s) [].

(** An engine that is initialized on demand and refuses the next call
    with ENOENT. *)
Definition refusing_script : script := Script [] [(2, [])].

(** A process whose caller holds the options dict [{'recurse': 1}] as
    object 0, before the library is initialized. *)
Definition listing_options : nvlist := [("recurse", VInt I64 1)].
Definition listing_world : rworld script :=
  RWorld (World refusing_script false ∅ 0%nat {[0%nat := listing_options]}
                1%nat []) [].

(** A dataset that inherits its mountpoint from its parent. *)
Definition inherited : list (string * prop) :=
  [("mountpoint", Prop_ (VBytes "/mnt/pool") "pool");
   ("clones", Prop_ (VList [("pool/c1", VFlag); ("pool/c2", VFlag)]) "pool/fs");
   ("atime", Prop_ (VInt U64 0) "pool")].

End RestExamples.

(** * Properties *)

(** ** The codec *)

Section CodecFacts.
Import Codec.

Lemma Z_of_byte_of_Z z : Z_of_byte (byte_of_Z z) = z mod 256.
Proof.
  unfold Z_of_byte, byte_of_Z.
  pose proof (Z.mod_pos_bound z 256 ltac:(lia)) as Hb.
  destruct (Byte.of_N (Z.to_N (z mod 256))) as [b|] eqn:E; simpl.
  - apply Byte.to_of_N in E. rewrite E. lia.
  - apply Byte.of_N_None_iff in E. lia.
Qed.

Lemma Z_of_byte_bounded b : 0 ≤ Z_of_byte b < 256.
Proof.
  unfold Z_of_byte. pose proof (Byte.to_N_bounded b). lia.
Qed.

Lemma modulus_S w : modulus (S w) = 256 * modulus w.
Proof. unfold modulus. rewrite Nat2Z.inj_succ, Z.pow_succ_r; lia. Qed.

Lemma modulus_pos w : 0 < modulus w.
Proof. unfold modulus. apply Z.pow_pos_nonneg; lia. Qed.

Lemma length_le_bytes w n : length (le_bytes w n) = w.
Proof. revert n. induction w as [|w IH]; intros n; simpl; [done|]. by rewrite IH. Qed.

Lemma le_value_le_bytes w n : le_value (le_bytes w n) = n mod modulus w.
Proof.
  revert n. induction w as [|w IH]; intros n; simpl.
  - unfold modulus. simpl. by rewrite Z.mod_1_r.
  - rewrite Z_of_byte_of_Z, IH, modulus_S.
    pose proof (modulus_pos w).
    rewrite Z.rem_mul_r by lia. done.
Qed.

Lemma int_of_le_bytes k n :
  in_range k n = true → int_of_le k (le_bytes (width k) n) = n.
Proof.
  unfold in_range, int_of_le. rewrite le_value_le_bytes.
  set (M := modulus (width k)).
  assert (HM : 0 < M ∧ M mod 2 = 0).
  { subst M. destruct k; vm_compute; done. }
  destruct HM as [HM Heven].
  assert (Hhalf : 2 * (M / 2) = M).
  { pose proof (Z.div_mod M 2 ltac:(lia)). lia. }
  destruct (signed k); simpl; intros Hr.
  - apply andb_true_iff in Hr as [Hlo Hhi].
    apply Z.leb_le in Hlo. apply Z.ltb_lt in Hhi.
    destruct (Z_lt_le_dec n 0) as [Hneg|Hpos].
    + assert (n mod M = n + M) as ->.
      { symmetry. apply Z.mod_unique with (-1); lia. }
      destruct (Z.leb_spec (M / 2) (n + M)); lia.
    + rewrite Z.mod_small by lia.
      destruct (Z.leb_spec (M / 2) n); lia.
  - apply andb_true_iff in Hr as [Hlo Hhi].
    apply Z.leb_le in Hlo. apply Z.ltb_lt in Hhi.
    by rewrite Z.mod_small by lia.
Qed.

Lemma take_bytes_app (a rest : buffer) :
  take_bytes (length a) (a ++ rest) = Some (a, rest).
Proof.
  unfold take_bytes. rewrite length_app.
  destruct (Nat.leb_spec (length a) (length a + length rest)); [|lia].
  by rewrite take_app_length, drop_app_length.
Qed.

Lemma decode_len_bytes n rest :
  len_ok n = true → decode_len (len_bytes n ++ rest) = Some (n, rest).
Proof.
  unfold len_ok, len_bytes, decode_len. intros Hn. apply Z.ltb_lt in Hn.
  pose proof (take_bytes_app (le_bytes 4 (Z.of_nat n)) rest) as Ht.
  rewrite length_le_bytes in Ht. rewrite Ht. cbn [mbind option_bind].
  rewrite le_value_le_bytes, Z.mod_small by lia.
  by rewrite Nat2Z.id.
Qed.

Lemma length_list_byte_of_string s :
  length (list_byte_of_string s) = String.length s.
Proof.
  unfold list_byte_of_string. rewrite length_map.
  induction s as [|a s IH]; simpl; [done|]. by rewrite IH.
Qed.

Lemma decode_key_bytes k rest :
  len_ok (String.length k) = true →
  decode_key (key_bytes k ++ rest) = Some (k, rest).
Proof.
  intros Hk. unfold decode_key, key_bytes.
  rewrite <- app_assoc, decode_len_bytes by done. cbn [mbind option_bind].
  rewrite <- length_list_byte_of_string, take_bytes_app. cbn [mbind option_bind].
  by rewrite string_of_list_byte_of_string.
Qed.

Lemma tag_of_byte_tag_byte t : tag_of_byte (tag_byte t) = Some t.
Proof. destruct t as [| |[]| | |]; reflexivity. Qed.

Lemma tag_eqb_eq a b : tag_eqb a b = true → a = b.
Proof. destruct a as [| |[]| | |], b as [| |[]| | |]; simpl; congruence. Qed.


Lemma decode_entries_payload fuel es :
  Forall (λ e, encodable e.2 = true →
               ∀ fuel rest, (depth e.2 ≤ fuel)%nat →
                 decode_payload fuel (tag_of e.2) (payload e.2 ++ rest)
                 = Some (e.2, rest)) es →
  Forall (λ e, len_ok (String.length e.1) = true ∧ encodable e.2 = true
               ∧ (depth e.2 ≤ fuel)%nat) es →
  ∀ rest,
    decode_entries (decode_payload fuel) (length es)
      (flat_map (λ e, match e with
                      | (k, v) => key_bytes k ++ tag_byte (tag_of v) :: payload v
                      end) es ++ rest)
    = Some (es, rest).
Proof.
  induction 1 as [|[k v] es IHv _ IH]; intros Hes rest; [done|].
  apply Forall_cons in Hes as [(Hk & Hv & Hd) Hes].
  cbn [length flat_map decode_entries fst snd] in *.
  rewrite <- !app_assoc, decode_key_bytes by done.
  cbn [mbind option_bind app]. rewrite tag_of_byte_tag_byte.
  cbn [mbind option_bind]. rewrite IHv by done.
  cbn [mbind option_bind]. by rewrite IH.
Qed.

Lemma decode_elems_payload fuel t vs :
  Forall (λ v, encodable v = true →
               ∀ fuel rest, (depth v ≤ fuel)%nat →
                 decode_payload fuel (tag_of v) (payload v ++ rest)
                 = Some (v, rest)) vs →
  Forall (λ v, tag_of v = t ∧ encodable v = true ∧ (depth v ≤ fuel)%nat) vs →
  ∀ rest,
    decode_elems (decode_payload fuel t) (length vs)
      (flat_map payload vs ++ rest)
    = Some (vs, rest).
Proof.
  induction 1 as [|v vs IHv _ IH]; intros Hvs rest; [done|].
  apply Forall_cons in Hvs as [(Ht & Hv & Hd) Hvs].
  cbn [length flat_map decode_elems].
  rewrite <- app_assoc, <- Ht, IHv by done.
  cbn [mbind option_bind]. rewrite Ht, IH by done. done.
Qed.

Lemma depth_pos v : (1 ≤ depth v)%nat.
Proof. destruct v; simpl; lia. Qed.

Lemma decode_payload_payload v :
  encodable v = true →
  ∀ fuel rest, (depth v ≤ fuel)%nat →
    decode_payload fuel (tag_of v) (payload v ++ rest) = Some (v, rest).
Proof.
  induction v as [|b|k n|s|es IH|t vs IH] using value_nested_ind;
    intros Henc [|fuel] rest Hfuel; simpl in Hfuel; try lia.
  - done.
  - by destruct b.
  - cbn [tag_of payload decode_payload encodable] in *.
    pose proof (take_bytes_app (le_bytes (width k) n) rest) as Ht.
    rewrite length_le_bytes in Ht. rewrite Ht. cbn [mbind option_bind].
    by rewrite int_of_le_bytes.
  - cbn [tag_of payload decode_payload encodable] in *.
    by rewrite decode_key_bytes.
  - cbn [tag_of payload decode_payload encodable] in *.
    apply andb_true_iff in Henc as [Hlen Hall].
    rewrite <- app_assoc, decode_len_bytes by done. cbn [mbind option_bind].
    rewrite decode_entries_payload; [done|done|].
    rewrite forallb_forall in Hall. apply Forall_forall. intros [k v] Hin.
    specialize (Hall (k, v) (proj1 (list_elem_of_In _ _) Hin)).
    apply andb_true_iff in Hall as [Hk Hv]. simpl. split_and!; [done..|].
    clear -Hin Hfuel. apply le_S_n in Hfuel.
    induction es as [|[k' v'] es IHes]; [by apply elem_of_nil in Hin|].
    simpl in Hfuel. apply elem_of_cons in Hin as [[= -> ->]|Hin]; [lia|].
    apply IHes; [lia|done].
  - cbn [tag_of payload decode_payload encodable] in *.
    apply andb_true_iff in Henc as [Henc Hall].
    apply andb_true_iff in Henc as [Htag Hlen].
    cbn [app]. rewrite tag_of_byte_tag_byte. cbn [mbind option_bind].
    rewrite Htag, <- app_assoc, decode_len_bytes by done.
    cbn [mbind option_bind].
    rewrite decode_elems_payload; [done|done|].
    rewrite forallb_forall in Hall. apply Forall_forall. intros v Hin.
    specialize (Hall v (proj1 (list_elem_of_In _ _) Hin)).
    apply andb_true_iff in Hall as [Ht Hv]. apply tag_eqb_eq in Ht.
    split_and!; [done..|].
    clear -Hin Hfuel. apply le_S_n in Hfuel.
    induction vs as [|v' vs IHvs]; [by apply elem_of_nil in Hin|].
    simpl in Hfuel. apply elem_of_cons in Hin as [->|Hin]; [lia|].
    apply IHvs; [lia|done].
Qed.

Lemma depth_le_payload v : (depth v ≤ S (length (payload v)))%nat.
Proof.
  induction v as [|b|k n|s|es IH|t vs IH] using value_nested_ind;
    cbn [depth payload]; try lia.
  - apply le_n_S. unfold len_bytes. rewrite length_app, length_le_bytes.
    induction IH as [|[k v] es Hv _ IHes]; cbn [fold_right flat_map snd] in *; [lia|].
    rewrite !length_app. cbn [length]. lia.
  - apply le_n_S. unfold len_bytes. cbn [length].
    rewrite length_app, length_le_bytes.
    induction IH as [|v vs Hv _ IHvs]; cbn [fold_right flat_map] in *; [lia|].
    rewrite !length_app. lia.
Qed.

Lemma Decode_Encode l buf : Encode l = Ok buf → Decode buf = Ok l.
Proof.
  unfold Encode, Decode. destruct (encodable (VList l)) eqn:Henc; [|done].
  pose proof (decode_payload_payload (VList l) Henc
                (S (length (payload (VList l)))) [] (depth_le_payload _)) as H.
  rewrite app_nil_r in H. cbn [tag_of] in H.
  intros Hbuf. assert (buf = payload (VList l)) as -> by congruence.
  by rewrite H.
Qed.

End CodecFacts.

(** ** Threads at the first use of [_lib] *)

Section LazyInitFacts.
Import LazyInit.
Variable oracle : nat → Z.

Lemma successes_snoc ts i l log r :
  successes (State ts i l (log ++ [r]))
  = (successes (State ts i l log) + if (r =? 0)%Z then 1 else 0)%nat.
Proof.
  unfold successes. cbn [init_log]. rewrite filter_app, length_app.
  f_equal. destruct (Z.eqb_spec r 0) as [->|Hr].
  - by rewrite filter_cons_True.
  - by rewrite filter_cons_False.
Qed.

Lemma filter_zero_all (log : list Z) :
  (∀ x, x ∈ log → x = 0) → filter (λ r, r = 0) log = log.
Proof.
  induction log as [|x log IH]; intros H; [done|].
  rewrite filter_cons_True by (apply H; left). f_equal.
  apply IH. intros y Hy. apply H. by right.
Qed.

Lemma lookup_moved (ts : list pc) t p t' q :
  <[t := p]> ts !! t' = Some q →
  (t' = t ∧ q = p) ∨ (t' ≠ t ∧ ts !! t' = Some q).
Proof.
  destruct (decide (t' = t)) as [->|Hne].
  - intros H. left. split; [done|].
    destruct (decide (t < length ts)%nat).
    + rewrite list_lookup_insert_eq in H by done. congruence.
    + rewrite list_insert_ge in H by lia.
      apply lookup_lt_Some in H. lia.
  - rewrite list_lookup_insert_ne by done. by right.
Qed.

Lemma first_use_inv n : inv oracle (first_use n).
Proof.
  unfold inv, first_use, successes. cbn. split_and!.
  - intros t p Hp Hl. apply lookup_replicate in Hp as [-> _]. done.
  - intros t Hp. done.
  - lia.
  - done.
  - intros t r [Hp|Hp]; apply lookup_replicate in Hp as [? _]; done.
  - intros r Hr. by apply elem_of_nil in Hr.
Qed.


Lemma lookup_kept (ts : list pc) t p t' q :
  t' ≠ t → ts !! t' = Some q → <[t := p]> ts !! t' = Some q.
Proof. intros. by rewrite list_lookup_insert_ne. Qed.

Lemma lookup_set (ts : list pc) t p q :
  ts !! t = Some q → <[t := p]> ts !! t = Some p.
Proof. intros H. apply list_lookup_insert_eq. by eapply lookup_lt_Some. Qed.

Ltac moved :=
  repeat match goal with
  | H : <[_ := _]> _ !! _ = Some _ |- _ =>
      apply lookup_moved in H as [[-> ?]|[? H]]
  | H : _ ∨ _ |- _ => destruct H
  end; simplify_eq.

Lemma step_inv t s : inv oracle s → inv oracle (step oracle t s).
Proof.
  intros Hinv. unfold step.
  destruct (threads s !! t) as [p|] eqn:Hp; [|done].
  destruct s as [ts i l log]. cbn [threads inited lock init_log] in *.
  pose proof Hinv as (H1 & H2 & H3 & H4 & H5 & H6).
  cbn [threads inited lock init_log] in *.
  assert (Hsucc : ∀ ts' i' l',
            successes (State ts' i' l' log) = successes (State ts i l log))
    by done.
  assert (Hflag : ∀ p', p ≠ SetFlag →
            successes (State ts i l log) = 1%nat →
            i = true ∨ ∃ t', <[t:=p']> ts !! t' = Some SetFlag).
  { intros p' Hne Hs.
    destruct (H4 Hs) as [?|[t' Ht']]; [by left|right].
    exists t'. apply lookup_kept; [congruence|done]. }
  assert (Hexcl : ∀ t' q, holds_lock p = true → t' ≠ t →
            ts !! t' = Some q → holds_lock q = true → False).
  { intros t' q Hl Hne Hq Hlq.
    pose proof (H1 _ _ Hq Hlq). pose proof (H1 _ _ Hp Hl). congruence. }
  destruct p.
  - (* Check1 *)
    unfold at_pc; cbn [threads inited lock init_log].
    split_and!; cbn [threads inited lock init_log]; rewrite ?Hsucc; try done.
    + intros t' q Hq Hl. moved; [by destruct i|by eapply H1].
    + intros t' Hq. moved; [by destruct i|by eapply H2].
    + intros Hs. edestruct Hflag as [?|?]; [|exact Hs|by left|by right]; done.
    + intros t' r Hq. moved; try (by destruct i); eapply H5; eauto.
  - (* Acquire *)
    destruct l as [holder|]; [done|].
    split_and!; cbn [threads inited lock init_log]; rewrite ?Hsucc; try done.
    + intros t' q Hq Hl. moved; [done|]. by specialize (H1 _ _ Hq Hl).
    + intros t' Hq. moved. by eapply H2.
    + intros Hs. edestruct Hflag as [?|?]; [|exact Hs|by left|by right]; done.
    + intros t' r Hq. moved; eapply H5; eauto.
  - (* Check2 *)
    unfold at_pc; cbn [threads inited lock init_log].
    split_and!; cbn [threads inited lock init_log]; rewrite ?Hsucc; try done.
    + intros t' q Hq Hl. moved; by eapply H1.
    + intros t' Hq. moved; [by destruct i|by eapply H2].
    + intros Hs. edestruct Hflag as [?|?]; [|exact Hs|by left|by right]; done.
    + intros t' r Hq. moved; try (by destruct i); eapply H5; eauto.
  - (* Init *)
    pose proof (H1 _ _ Hp eq_refl) as Hlock.
    pose proof (H2 _ Hp) as Hi. subst i l.
    assert (successes (State ts false (Some t) log) = 0%nat) as H0.
    { destruct (decide (successes (State ts false (Some t) log) = 0%nat))
        as [|Hne]; [done|].
      assert (successes (State ts false (Some t) log) = 1%nat) as Hs by lia.
      destruct (H4 Hs) as [?|[t' Ht']]; [done|].
      pose proof (H1 _ _ Ht' eq_refl) as Hl'. congruence. }
    split_and!; cbn [threads inited lock init_log];
      rewrite ?successes_snoc, ?Hsucc, ?H0.
    + intros t' q Hq Hl. moved; [done|by eapply H1].
    + intros t' Hq. moved; [by destruct (_ =? _)|done].
    + destruct (_ =? _); simpl; lia.
    + intros Hs. right. exists t.
      destruct (Z.eqb_spec (oracle (length log)) 0);
        [by eapply lookup_set|simpl in Hs; lia].
    + intros t' r Hq.
      assert (∀ r', r' ≠ 0 ∧ r' ∈ log → r' ≠ 0 ∧ r' ∈ log ++ [oracle (length log)])
        as Hmono.
      { intros r' [? ?]. split; [done|]. apply elem_of_app. by left. }
      destruct Hq as [Hq|Hq]; apply lookup_moved in Hq as [[-> Hq]|[? Hq]].
      * by destruct (_ =? _).
      * apply Hmono. eapply H5; eauto.
      * destruct (Z.eqb_spec (oracle (length log)) 0); [done|].
        injection Hq as ->. split; [done|]. apply elem_of_app. right. by left.
      * apply Hmono. eapply H5; eauto.
    + intros r Hr. apply elem_of_app in Hr as [Hr|Hr]; [by apply H6|].
      apply list_elem_of_singleton in Hr as ->. by eexists.
  - (* SetFlag *)
    split_and!; cbn [threads inited lock init_log]; rewrite ?Hsucc; try done.
    + intros t' q Hq Hl. moved; by eapply H1.
    + intros t' Hq. moved. exfalso. by eapply (Hexcl t' Init).
    + by left.
    + intros t' r Hq. moved; eapply H5; eauto.
  - (* ReleaseOk *)
    split_and!; cbn [threads inited lock init_log]; rewrite ?Hsucc; try done.
    + intros t' q Hq Hl. moved. exfalso. by eapply (Hexcl t' q).
    + intros t' Hq. moved. by eapply H2.
    + intros Hs. edestruct Hflag as [?|?]; [|exact Hs|by left|by right]; done.
    + intros t' r Hq. moved; eapply H5; eauto.
  - (* ReleaseErr *)
    split_and!; cbn [threads inited lock init_log]; rewrite ?Hsucc; try done.
    + intros t' q Hq Hl. moved. exfalso. by eapply (Hexcl t' q).
    + intros t' Hq. moved. by eapply H2.
    + intros Hs. edestruct Hflag as [?|?]; [|exact Hs|by left|by right]; done.
    + intros t' r Hq. moved; eapply H5; eauto.
  - (* Done *) done.
  - (* Raised *) done.
Qed.

Lemma run_inv schedule : ∀ s, inv oracle s → inv oracle (run oracle schedule s).
Proof.
  induction schedule as [|t schedule IH]; intros s Hs; [done|].
  cbn [run fold_left]. apply IH. by apply step_inv.
Qed.

(** One thread alone does what the sequential [getattr] does: it runs the
    initialization unless [_inited] is set, and raises when the run
    fails. *)
Lemma single_thread_run i log :
  run oracle [0; 0; 0; 0; 0; 0]%nat (State [Check1] i None log)
  = if i then State [Done] true None log
    else if oracle (length log) =? 0
         then State [Done] true None (log ++ [oracle (length log)])
         else State [Raised (oracle (length log))] false None
                    (log ++ [oracle (length log)]).
Proof.
  destruct i; [reflexivity|].
  unfold run. cbn.
  destruct (oracle (length log) =? 0); reflexivity.
Qed.

End LazyInitFacts.

Import Codec Py Script Examples.
Local Open Scope string_scope.

(** ** Python dicts and duplicate names *)

Section DictFacts.

Lemma existsb_eqb_elem_of x (l : list string) :
  existsb (String.eqb x) l = true ↔ x ∈ l.
Proof.
  rewrite existsb_exists. split.
  - intros (y & Hin & Heq). apply String.eqb_eq in Heq as ->.
    by apply list_elem_of_In.
  - intros Hin. exists x. split; [by apply list_elem_of_In|].
    apply String.eqb_refl.
Qed.

Lemma dict_set_flagged_present x acc :
  x ∈ acc → dict_set (flagged acc) x VFlag = flagged acc.
Proof.
  induction acc as [|y acc IH]; intros Hin; [by apply elem_of_nil in Hin|].
  cbn [flagged map dict_set]. destruct (String.eqb_spec y x) as [->|Hne].
  - done.
  - apply elem_of_cons in Hin as [->|Hin]; [done|].
    fold (flagged acc). by rewrite IH.
Qed.

Lemma dict_set_flagged_absent x acc :
  x ∉ acc → dict_set (flagged acc) x VFlag = flagged (acc ++ [x]).
Proof.
  induction acc as [|y acc IH]; intros Hin; [done|].
  cbn [flagged map dict_set app]. apply not_elem_of_cons in Hin as [Hne Hin].
  destruct (String.eqb_spec y x) as [->|_]; [done|].
  fold (flagged acc). fold (flagged (acc ++ [x])). by rewrite IH.
Qed.

Lemma dict_fromkeys_from names : ∀ acc seen,
  (∀ x, x ∈ seen ↔ x ∈ acc) →
  fold_left (λ d name, dict_set d name VFlag) names (flagged acc)
  = flagged (acc ++ dedup_from seen names).
Proof.
  induction names as [|x names IH]; intros acc seen Hseen.
  - cbn [fold_left dedup_from]. by rewrite app_nil_r.
  - cbn [fold_left dedup_from].
    destruct (existsb (String.eqb x) seen) eqn:Hx.
    + apply existsb_eqb_elem_of, Hseen in Hx.
      rewrite dict_set_flagged_present by done. by apply IH.
    + assert (x ∉ acc) as Hnot.
      { intros Hin. apply Hseen, existsb_eqb_elem_of in Hin. congruence. }
      rewrite dict_set_flagged_absent by done.
      rewrite (IH (acc ++ [x])%list (x :: seen)).
      * by rewrite <- app_assoc.
      * intros y. rewrite elem_of_cons, elem_of_app, list_elem_of_singleton.
        rewrite Hseen. tauto.
Qed.

(** The dict of a list of names has one flag per distinct name, in the
    order of first occurrence. *)
Lemma dict_fromkeys_dedup names : dict_fromkeys names = flagged (dedup names).
Proof.
  unfold dict_fromkeys, dedup.
  by rewrite <- (app_nil_l (dedup_from [] names)),
               <- (dict_fromkeys_from names [] []).
Qed.

Lemma dedup_from_spec names : ∀ seen,
  NoDup (dedup_from seen names) ∧
  ∀ x, x ∈ dedup_from seen names ↔ x ∈ names ∧ x ∉ seen.
Proof.
  induction names as [|y names IH]; intros seen; cbn [dedup_from].
  - split; [constructor|]. intros x. rewrite elem_of_nil. tauto.
  - destruct (existsb (String.eqb y) seen) eqn:Hy.
    + destruct (IH seen) as [Hnd Hel]. split; [done|].
      intros x. rewrite Hel, elem_of_cons.
      apply existsb_eqb_elem_of in Hy. split; [tauto|].
      intros [[->|Hin] Hnot]; tauto.
    + destruct (IH (y :: seen)) as [Hnd Hel]. split.
      * constructor; [|done]. rewrite Hel, elem_of_cons. tauto.
      * intros x. rewrite !elem_of_cons, Hel, elem_of_cons.
        assert (y ∉ seen) as Hnot.
        { intros Hin. apply existsb_eqb_elem_of in Hin. congruence. }
        destruct (decide (x = y)) as [->|Hne]; tauto.
Qed.

Lemma dedup_NoDup names : NoDup (dedup names).
Proof. apply dedup_from_spec. Qed.

Lemma elem_of_dedup names x : x ∈ dedup names ↔ x ∈ names.
Proof.
  unfold dedup. rewrite (proj2 (dedup_from_spec names [])), elem_of_nil. tauto.
Qed.

Lemma dedup_from_NoDup names : ∀ seen,
  NoDup names → (∀ x, x ∈ names → x ∉ seen) → dedup_from seen names = names.
Proof.
  induction names as [|y names IH]; intros seen Hnd Hdisj; [done|].
  apply NoDup_cons in Hnd as [Hy Hnd]. cbn [dedup_from].
  destruct (existsb (String.eqb y) seen) eqn:Hex.
  - apply existsb_eqb_elem_of in Hex. destruct (Hdisj y); [left|done].
  - f_equal. apply IH; [done|]. intros x Hx. rewrite elem_of_cons.
    intros [->|Hin]; [done|]. apply (Hdisj x); [by right|done].
Qed.

Lemma dedup_idemp names : dedup (dedup names) = dedup names.
Proof.
  apply dedup_from_NoDup; [apply dedup_NoDup|]. intros x _. apply not_elem_of_nil.
Qed.

End DictFacts.


(** ** The wrappers *)

Import Scope.

(** An interpreter that iterates a dict in the order of insertion meets
    the entries as the dict keeps them, at every depth. *)
Lemma layout_in_order (v : value) : layout in_order v = v.
Proof.
  induction v as [| | | |es IH|t vs IH] using value_nested_ind; try done.
  - cbn. f_equal. induction IH as [|[k x] es' Hx _ IH']; [done|].
    cbn in *. by rewrite Hx, IH'.
  - cbn. f_equal. induction IH as [|x vs' Hx _ IH']; [done|].
    cbn. by rewrite Hx, IH'.
Qed.

Lemma iterated_in_order (d : nvlist) : iterated in_order d = d.
Proof.
  unfold iterated. cbn. induction d as [|[k x] d IH]; [done|].
  cbn. by rewrite layout_in_order, IH.
Qed.

Section WrapperFacts.
Context {σ : Type} (lib : Lib σ) (tables : kind_tables)
  (xlate : translator) (py : interp).

Lemma bind_return {A B} (m : M (σ:=σ) A) (k : A → M B) w a w' :
  m w = (Return a, w') → bind m k w = k a w'.
Proof. unfold bind. by intros ->. Qed.

Lemma bind_raise {A B} (m : M (σ:=σ) A) (k : A → M B) w e w' :
  m w = (Raise e, w') → bind m k w = (Raise e, w').
Proof. unfold bind. by intros ->. Qed.

Lemma bind_returns {A B} (m : M (σ:=σ) A) (k : A → M B) w b w' :
  bind m k w = (Return b, w') →
  ∃ a w1, m w = (Return a, w1) ∧ k a w1 = (Return b, w').
Proof.
  unfold bind. destruct (m w) as [[a|e] w1]; [|done]. intros H.
  by exists a, w1.
Qed.

Lemma read_dict_found d E (w : world σ) :
  dicts w !! d = Some E → read_dict d w = (Return E, w).
Proof. unfold read_dict. by intros ->. Qed.

Lemma xlate_errors_success table E (w : world σ) :
  xlate_errors table 0 E w = (Return tt, w).
Proof. reflexivity. Qed.

(** *** Iteration of a dict *)

Lemma elem_of_items {V} (d : list (string * V)) x : x ∈ items py d ↔ x ∈ d.
Proof. by rewrite (items_perm py d). Qed.

Lemma dict_keys_perm (E : nvlist) : dict_keys py E ≡ₚ map fst E.
Proof. unfold dict_keys. by rewrite (items_perm py E). Qed.

Lemma dict_values_perm (E : nvlist) : dict_values py E ≡ₚ map snd E.
Proof. unfold dict_values. by rewrite (items_perm py E). Qed.

Lemma forallb_is_enoent (E : nvlist) :
  forallb is_enoent (dict_values py E) = true ↔
  ∀ k v, (k, v) ∈ E → ∃ kd, v = VInt kd ENOENT.
Proof.
  rewrite forallb_forall. split.
  - intros H k v Hin.
    assert (is_enoent v = true) as Hv.
    { apply H, list_elem_of_In. rewrite dict_values_perm.
      apply list_elem_of_fmap. by exists (k, v). }
    destruct v as [| |kd n| | |]; try discriminate Hv.
    apply Z.eqb_eq in Hv as ->. by exists kd.
  - intros H v Hin. apply list_elem_of_In in Hin.
    rewrite dict_values_perm in Hin.
    apply list_elem_of_fmap in Hin as [[k v'] [-> Hin]].
    by destruct (H k v' Hin) as [kd ->].
Qed.

Lemma elem_of_iterated (d : nvlist) k v :
  (k, v) ∈ iterated py d ↔ ∃ x, (k, x) ∈ d ∧ v = layout py x.
Proof.
  unfold iterated. rewrite elem_of_items, list_elem_of_fmap. split.
  - intros [[k' x] [[= -> ->] Hin]]. by exists x.
  - intros [x [Hin ->]]. by exists (k, x).
Qed.

Lemma keys_iterated (d : nvlist) : map fst (iterated py d) ≡ₚ map fst d.
Proof.
  unfold iterated. rewrite (items_perm py _), map_map.
  erewrite map_ext; [done|]. by intros [k x].
Qed.

(** *** The scope around the boundary call *)

(** The scope releases the handle it allocated, whether the call was made
    or the access to [_lib] raised. *)
Lemma scope_native sink name (f : σ → Z * buffer * σ) (w : world σ) :
  native (nvlist_out sink
            (λ h, bind (getattr lib) (λ _, call_out name h f)) w).2
  = delete (next_handle w) (native w).
Proof.
  unfold nvlist_out, bind, getattr, call_out.
  destruct w as [e i nat nh ds nd cs];
    cbn [inited engine native next_handle dicts next_dict calls].
  destruct i; cbn [inited engine native next_handle dicts next_dict calls].
  - destruct (f e) as [[r out] e2]. cbn [native].
    destruct (Decode _); cbn [snd native];
      by rewrite !delete_insert_eq.
  - destruct (libzfs_core_init lib e) as [r0 e1].
    destruct (r0 =? 0)%Z; cbn [inited engine native next_handle dicts next_dict calls].
    + destruct (f e1) as [[r out] e2]. cbn [native].
      destruct (Decode _); cbn [snd native];
        by rewrite !delete_insert_eq.
    + destruct (Decode _); cbn [snd native];
        by rewrite !delete_insert_eq.
Qed.

(** The access to [_lib] fails inside the scope. *)
Lemma scope_failed sink name (f : σ → Z * buffer * σ) (w : world σ) r e1 :
  init_result lib w = (r, e1) → r ≠ 0 →
  ∃ w', nvlist_out sink
          (λ h, bind (getattr lib) (λ _, call_out name h f)) w
        = (Raise (ZFSInitializationFailed r), w')
        ∧ dicts w' = <[sink := []]> (dicts w)
        ∧ engine w' = e1 ∧ inited w' = false
        ∧ calls w' = (calls w ++ ["libzfs_core_init"])%list
        ∧ next_handle w' = S (next_handle w)
        ∧ next_dict w' = next_dict w.
Proof.
  intros Hinit Hr.
  unfold nvlist_out, bind, getattr, call_out, init_result in *.
  destruct w as [e i nat nh ds nd cs]; cbn [inited engine native next_handle
    dicts next_dict calls] in *.
  destruct i; [by injection Hinit as <- _|].
  rewrite Hinit. apply Z.eqb_neq in Hr. rewrite Hr.
  cbn [native]. rewrite lookup_insert_eq. cbn [from_option id].
  assert (Decode (payload (VList [])) = Ok []) as -> by reflexivity.
  eexists. split; [reflexivity|]. done.
Qed.

(** The entry point is called, and what it left is decoded. *)
Lemma scope_called sink name (f : σ → Z * buffer * σ) (w : world σ)
    e1 r out e2 :
  init_result lib w = (0, e1) →
  f e1 = (r, out, e2) →
  ∃ w', nvlist_out sink
          (λ h, bind (getattr lib) (λ _, call_out name h f)) w
        = (match Decode out with
           | Ok _ => Return r
           | Err e => Raise (CodecFault e)
           end, w')
        ∧ dicts w' = match Decode out with
                     | Ok es => <[sink := dict_of_entries es]> (dicts w)
                     | Err _ => dicts w
                     end
        ∧ engine w' = e2 ∧ inited w' = true
        ∧ calls w' = (calls w
                      ++ (if inited w then [] else ["libzfs_core_init"])
                      ++ [name])%list
        ∧ next_handle w' = S (next_handle w)
        ∧ next_dict w' = next_dict w.
Proof.
  intros Hinit Hf.
  unfold nvlist_out, bind, getattr, call_out, init_result in *.
  destruct w as [e i nat nh ds nd cs]; cbn [inited engine native next_handle
    dicts next_dict calls] in *.
  destruct i; cbn [inited engine native next_handle dicts next_dict calls].
  - injection Hinit as <-. rewrite Hf. cbn [native].
    rewrite lookup_insert_eq. cbn [from_option id].
    destruct (Decode out); (eexists; split; [reflexivity|]; done).
  - rewrite Hinit. cbn [Z.eqb engine native]. rewrite Hf. cbn [native].
    rewrite lookup_insert_eq. cbn [from_option id].
    destruct (Decode out); (eexists; split; [reflexivity|]);
      cbn [dicts engine inited calls next_handle next_dict];
      by rewrite <- ?app_assoc.
Qed.

Lemma fresh_delete (w w' : world σ) :
  fresh w → next_handle w' = S (next_handle w) →
  native w' = delete (next_handle w) (native w) →
  native w' = native w ∧ fresh w'.
Proof.
  intros Hw Hn Hd.
  assert (native w' = native w) as Heq.
  { rewrite Hd. apply delete_id. by apply Hw. }
  split; [done|]. intros h Hh. rewrite Heq. apply Hw. lia.
Qed.

(** The world in which the scope of a batch wrapper is entered: the dict
    [errlist] has been made. *)
Lemma batch_unfold name (f : σ → Z * buffer * σ) verdict (w : world σ) :
  batch lib name f verdict w
  = bind (nvlist_out (next_dict w)
            (λ h, bind (getattr lib) (λ _, call_out name h f)))
         (λ r, bind (read_dict (next_dict w)) (λ E, lift (verdict r E)))
         (new_dict w).2.
Proof. reflexivity. Qed.

Lemma batch_failed name (f : σ → Z * buffer * σ) verdict (w : world σ) r e1 :
  init_result lib w = (r, e1) → r ≠ 0 →
  ∃ w', batch lib name f verdict w = (Raise (ZFSInitializationFailed r), w')
        ∧ dicts w' !! next_dict w = Some []
        ∧ engine w' = e1 ∧ inited w' = false
        ∧ calls w' = (calls w ++ ["libzfs_core_init"])%list
        ∧ next_handle w' = S (next_handle w).
Proof.
  intros Hinit Hr. rewrite batch_unfold.
  destruct (scope_failed (next_dict w) name f (new_dict w).2 r e1 Hinit Hr)
    as (w1 & Hrun & Hd & He & Hi & Hc & Hnh & _).
  exists w1. erewrite bind_raise by exact Hrun. split_and!; try done.
  rewrite Hd. apply lookup_insert_eq.
Qed.

Lemma batch_called name (f : σ → Z * buffer * σ) verdict (w : world σ)
    e1 r out e2 :
  init_result lib w = (0, e1) →
  f e1 = (r, out, e2) →
  ∃ w', batch lib name f verdict w
        = (match Decode out with
           | Ok es => verdict r (dict_of_entries es)
           | Err e => Raise (CodecFault e)
           end, w')
        ∧ match Decode out with
          | Ok es => dicts w' !! next_dict w = Some (dict_of_entries es)
          | Err _ => True
          end
        ∧ engine w' = e2 ∧ inited w' = true
        ∧ calls w' = (calls w
                      ++ (if inited w then [] else ["libzfs_core_init"])
                      ++ [name])%list
        ∧ next_handle w' = S (next_handle w).
Proof.
  intros Hinit Hf. rewrite batch_unfold.
  destruct (scope_called (next_dict w) name f (new_dict w).2 e1 r out e2
              Hinit Hf) as (w1 & Hrun & Hd & He & Hi & Hc & Hnh & _).
  exists w1. destruct (Decode out) as [es|e].
  - assert (dicts w1 !! next_dict w = Some (dict_of_entries es)) as Hsink.
    { rewrite Hd. apply lookup_insert_eq. }
    erewrite bind_return by exact Hrun.
    erewrite bind_return by (apply read_dict_found, Hsink).
    done.
  - by erewrite bind_raise by exact Hrun.
Qed.

Lemma batch_native name (f : σ → Z * buffer * σ) verdict (w : world σ) :
  native (batch lib name f verdict w).2 = delete (next_handle w) (native w).
Proof.
  rewrite batch_unfold. unfold bind.
  pose proof (scope_native (next_dict w) name f (new_dict w).2) as Hn.
  destruct (nvlist_out _ _ _) as [[r|e] w1]; [|done].
  unfold read_dict, lift. done.
Qed.

(** What a batch wrapper does once its arguments are encoded. *)
Lemma batch_scoped name (f : σ → Z * buffer * σ) verdict :
  scoped lib (batch lib name f verdict) name f verdict.
Proof.
  intros w errlist h.
  assert (next_handle (batch lib name f verdict w).2 = S h) as Hnext.
  { destruct (init_result lib w) as [r0 e1] eqn:Hinit.
    destruct (decide (r0 = 0)) as [->|Hr].
    - destruct (f e1) as [[r out] e2] eqn:Hf.
      destruct (batch_called name f verdict w e1 r out e2 Hinit Hf)
        as (w1 & -> & _ & _ & _ & _ & Hnh). done.
    - destruct (batch_failed name f verdict w r0 e1 Hinit Hr)
        as (w1 & -> & _ & _ & _ & _ & Hnh). done. }
  split_and!.
  - done.
  - apply batch_native.
  - intros Hw. apply (fresh_delete w); [done|done|apply batch_native].
  - intros r e1 Hinit Hr.
    destruct (batch_failed name f verdict w r e1 Hinit Hr)
      as (w1 & -> & Hd & _ & _ & Hc & _). done.
  - intros e1 r out e2 Hinit Hf.
    destruct (batch_called name f verdict w e1 r out e2 Hinit Hf)
      as (w1 & -> & Hd & He & _ & Hc & _).
    cbn [fst snd]. split_and!; [done|done|]. by destruct (Decode out).
Qed.

End WrapperFacts.

(** *** The wrappers as scopes *)

Section WrapperForms.
Context {σ : Type} (lib : Lib σ) (xlate : translator) (py : interp).

Lemma scoped_ext (m m' : M (σ:=σ) pyret) name f verdict :
  (∀ w, m w = m' w) → scoped lib m' name f verdict →
  scoped lib m name f verdict.
Proof. intros Heq H w. rewrite Heq. apply H. Qed.

Lemma nvlist_in_encoded d buf (w : world σ) :
  Encode (iterated py d) = Ok buf → nvlist_in py d w = (Return buf, w).
Proof. unfold nvlist_in. by intros ->. Qed.

Lemma nvlist_in_failed d e (w : world σ) :
  Encode (iterated py d) = Err e → nvlist_in py d w = (Raise (CodecFault e), w).
Proof. unfold nvlist_in. by intros ->. Qed.

Lemma translate_plain fault (w : world σ) :
  bind (translate fault) (λ _, ret RNone) w = (plain_verdict fault, w).
Proof. by destruct fault. Qed.

Lemma translate_keys fault E (w : world σ) :
  bind (translate fault)
    (λ _, bind (assert_all_enoent py E)
            (λ _, ret (RList (dict_keys py E)))) w
  = (keys_verdict py fault E, w).
Proof.
  destruct fault; [done|]. unfold keys_verdict, assert_all_enoent, bind.
  cbn. destruct (debug py); [|done]. by destruct (forallb _ _).
Qed.

Lemma bind_ext {A B} (m : M (σ:=σ) A) (k k' : A → M B) w :
  (∀ a w', k a w' = k' a w') → bind m k w = bind m k' w.
Proof. intros H. unfold bind. destruct (m w) as [[a|e] w']; [apply H|done]. Qed.

Ltac batch_form :=
  rewrite batch_unfold; apply bind_ext; intros ? ?; apply bind_ext;
  intros ? ?; first [apply translate_plain | apply translate_keys].

Lemma lzc_snapshot_batch snaps props sbuf pbuf (w : world σ) :
  Encode (iterated py (dict_fromkeys snaps)) = Ok sbuf →
  Encode (iterated py (default [] props)) = Ok pbuf →
  lzc_snapshot lib xlate py snaps props w
  = batch lib "lzc_snapshot" (c_lzc_snapshot lib sbuf pbuf)
      (λ r E, plain_verdict (snapshot_xlate xlate r E snaps (default [] props)))
      w.
Proof.
  intros Hs Hp. unfold lzc_snapshot.
  unfold bind at 1. cbn [new_dict].
  erewrite bind_return by by apply nvlist_in_encoded.
  erewrite bind_return by by apply nvlist_in_encoded.
  batch_form.
Qed.

Lemma lzc_destroy_snaps_batch snaps defer sbuf (w : world σ) :
  Encode (iterated py (dict_fromkeys snaps)) = Ok sbuf →
  lzc_destroy_snaps lib xlate py snaps defer w
  = batch lib "lzc_destroy_snaps" (c_lzc_destroy_snaps lib sbuf defer)
      (λ r E, plain_verdict (destroy_snaps_xlate xlate r E snaps defer)) w.
Proof.
  intros Hs. unfold lzc_destroy_snaps.
  unfold bind at 1. cbn [new_dict].
  erewrite bind_return by by apply nvlist_in_encoded.
  batch_form.
Qed.

Lemma lzc_bookmark_batch bookmarks buf (w : world σ) :
  Encode (iterated py bookmarks) = Ok buf →
  lzc_bookmark lib xlate py bookmarks w
  = batch lib "lzc_bookmark" (c_lzc_bookmark lib buf)
      (λ r E, plain_verdict (bookmark_xlate xlate r E bookmarks)) w.
Proof.
  intros Hs. unfold lzc_bookmark.
  unfold bind at 1. cbn [new_dict].
  erewrite bind_return by by apply nvlist_in_encoded.
  batch_form.
Qed.

Lemma lzc_hold_batch holds fd buf (w : world σ) :
  Encode (iterated py holds) = Ok buf →
  lzc_hold lib xlate py holds fd w
  = batch lib "lzc_hold" (c_lzc_hold lib buf (default (-1) fd))
      (λ r E, keys_verdict py
                (hold_xlate xlate r E holds (default (-1) fd)) E) w.
Proof.
  intros Hs. unfold lzc_hold.
  unfold bind at 1. cbn [new_dict].
  erewrite bind_return by by apply nvlist_in_encoded.
  batch_form.
Qed.

Lemma lzc_release_batch holds holds_dict buf (w : world σ) :
  release_holds_dict (items py holds) [] = Return holds_dict →
  Encode (iterated py holds_dict) = Ok buf →
  lzc_release lib xlate py holds w
  = batch lib "lzc_release" (c_lzc_release lib buf)
      (λ r E, keys_verdict py (release_xlate xlate r E holds) E) w.
Proof.
  intros Hloop Hs. unfold lzc_release.
  unfold bind at 1. cbn [new_dict].
  erewrite bind_return by (unfold lift; rewrite Hloop; reflexivity).
  erewrite bind_return by by apply nvlist_in_encoded.
  batch_form.
Qed.

End WrapperForms.

Section WrapperMore.
Context {σ : Type} (lib : Lib σ) (tables : kind_tables)
  (xlate : translator) (py : interp).

(** *** Native handles *)

Lemma no_leak_bind {A B} (m : M (σ:=σ) A) (k : A → M B) :
  no_leak m → (∀ a, no_leak (k a)) → no_leak (bind m k).
Proof.
  intros Hm Hk w. unfold bind. specialize (Hm w).
  destruct (m w) as [[a|e] w']; cbn [snd] in *; [|done].
  by etrans; [apply Hk|].
Qed.

Lemma no_leak_pure {A} (m : M (σ:=σ) A) :
  (∀ w, native (m w).2 = native w) → no_leak m.
Proof. intros H w. by rewrite H. Qed.

Lemma no_leak_nvlist_in d : no_leak (σ:=σ) (nvlist_in py d).
Proof.
  apply no_leak_pure. intros w. unfold nvlist_in. by destruct (Encode _).
Qed.

Lemma no_leak_xlate_errors table S E :
  no_leak (σ:=σ) (xlate_errors table S E).
Proof.
  apply no_leak_pure. intros w. unfold xlate_errors.
  by destruct (classify table S E).
Qed.

Lemma no_leak_scope sink name (f : σ → Z * buffer * σ) :
  no_leak (nvlist_out sink (λ h, bind (getattr lib) (λ _, call_out name h f))).
Proof. intros w. rewrite scope_native. apply delete_subseteq. Qed.

Lemma no_leak_assert_all_enoent E :
  no_leak (σ:=σ) (assert_all_enoent py E).
Proof.
  apply no_leak_pure. intros w. unfold assert_all_enoent.
  destruct (debug py); [|done]. by destruct (forallb _ _).
Qed.

Lemma no_leak_translate fault : no_leak (σ:=σ) (translate fault).
Proof. apply no_leak_pure. intros w. by destruct fault. Qed.

Ltac no_leak_steps :=
  repeat (apply no_leak_bind; [|intros ?]);
  first [apply no_leak_scope | apply no_leak_nvlist_in
        | apply no_leak_xlate_errors | apply no_leak_translate
        | apply no_leak_assert_all_enoent
        | by apply no_leak_pure].

Lemma no_leak_lzc_snapshot snaps props :
  no_leak (lzc_snapshot lib xlate py snaps props).
Proof. unfold lzc_snapshot. no_leak_steps. Qed.

Lemma no_leak_lzc_destroy_snaps snaps defer :
  no_leak (lzc_destroy_snaps lib xlate py snaps defer).
Proof. unfold lzc_destroy_snaps. no_leak_steps. Qed.

Lemma no_leak_lzc_bookmark bookmarks :
  no_leak (lzc_bookmark lib xlate py bookmarks).
Proof. unfold lzc_bookmark. no_leak_steps. Qed.

Lemma no_leak_lzc_hold holds fd : no_leak (lzc_hold lib xlate py holds fd).
Proof. unfold lzc_hold. no_leak_steps. Qed.

Lemma no_leak_lzc_release holds : no_leak (lzc_release lib xlate py holds).
Proof. unfold lzc_release. no_leak_steps. Qed.

(** *** The loop of [lzc_release] *)

Lemma release_holds_dict_not_list holds :
  (∃ snap v, (snap, v) ∈ holds ∧ isinstance_list v = false) →
  ∀ acc, release_holds_dict holds acc
         = Raise (TypeError "holds must be in a list").
Proof.
  intros (snap & v & Hin & Hv).
  induction holds as [|[s h] holds IH]; intros acc;
    [by apply elem_of_nil in Hin|].
  cbn [release_holds_dict]. destruct h as [tags| | |]; try done.
  apply elem_of_cons in Hin as [[= -> ->]|Hin]; [done|]. by apply IH.
Qed.

(** *** [__getattr__] *)

Lemma getattr_ready (w : world σ) e1 :
  init_result lib w = (0, e1) →
  ∃ w', getattr lib w = (Return tt, w')
        ∧ inited w' = true ∧ engine w' = e1
        ∧ calls w' = (calls w ++
                      if inited w then [] else ["libzfs_core_init"])%list.
Proof.
  unfold init_result, getattr. destruct (inited w) eqn:Hi.
  - intros [= <-]. exists w. by rewrite app_nil_r.
  - intros ->. cbn [Z.eqb]. eexists. split; [reflexivity|]. done.
Qed.

Lemma getattr_failed (w : world σ) r e1 :
  init_result lib w = (r, e1) → r ≠ 0 →
  ∃ w', getattr lib w = (Raise (ZFSInitializationFailed r), w')
        ∧ inited w' = false ∧ engine w' = e1
        ∧ calls w' = (calls w ++ ["libzfs_core_init"])%list.
Proof.
  unfold init_result, getattr. destruct (inited w) eqn:Hi.
  - intros [= <- <-]. done.
  - intros -> Hr. apply Z.eqb_neq in Hr. rewrite Hr.
    eexists. split; [reflexivity|]. done.
Qed.

Lemma getattr_inited (w : world σ) :
  inited w = true → getattr lib w = (Return tt, w).
Proof. unfold getattr. by intros ->. Qed.

(** *** The flags of [lzc_send] *)

Lemma send_flag_inited flag (w : world σ) :
  inited w = true →
  send_flag lib flag w =
    (Return (if String.eqb flag "embedded_data"
             then Some (LZC_SEND_FLAG_EMBED_DATA lib)
             else if String.eqb flag "large_blocks"
                  then Some (LZC_SEND_FLAG_LARGE_BLOCK lib)
                  else None), w).
Proof.
  intros Hi. unfold send_flag.
  erewrite bind_return by by apply getattr_inited.
  by erewrite bind_return by by apply getattr_inited.
Qed.

Lemma send_flags_unknown_inited flags f (w : world σ) :
  inited w = true →
  first_unknown flags = Some f →
  ∀ c_flags, send_flags lib flags c_flags w = (Raise (UnknownStreamFeature f), w).
Proof.
  intros Hi. induction flags as [|flag flags IH]; [done|].
  intros Hf c_flags. cbn [send_flags].
  erewrite bind_return by by apply send_flag_inited.
  unfold first_unknown in *. cbn [find] in Hf. unfold known_flag in Hf.
  destruct (String.eqb flag "embedded_data"); cbn [orb negb] in Hf.
  { by apply IH. }
  destruct (String.eqb flag "large_blocks"); cbn [orb negb] in Hf.
  { by apply IH. }
  by injection Hf as ->.
Qed.

Lemma first_unknown_exists flags :
  (∃ bad, bad ∈ flags ∧ bad ≠ "embedded_data" ∧ bad ≠ "large_blocks") →
  ∃ f, first_unknown flags = Some f ∧ f ∈ flags ∧ known_flag f = false.
Proof.
  intros (bad & Hin & He & Hl). unfold first_unknown.
  destruct (find _ flags) as [f|] eqn:Hfind.
  - apply find_some in Hfind as [Hf Hk]. exists f.
    split_and!; [done|by apply list_elem_of_In|by apply negb_true_iff].
  - apply list_elem_of_In in Hin.
    pose proof (find_none _ _ Hfind bad Hin) as Hk. cbn beta in Hk.
    apply negb_false_iff in Hk. unfold known_flag in Hk.
    apply orb_true_iff in Hk as [Hk|Hk]; apply String.eqb_eq in Hk; done.
Qed.

Lemma send_flags_unknown flags f (w : world σ) e1 :
  init_result lib w = (0, e1) →
  first_unknown flags = Some f →
  ∀ c_flags, ∃ w',
    send_flags lib flags c_flags w = (Raise (UnknownStreamFeature f), w')
    ∧ engine w' = e1
    ∧ calls w' = (calls w ++
                  if inited w then [] else ["libzfs_core_init"])%list.
Proof.
  intros Hinit Hf c_flags. destruct flags as [|flag flags]; [done|].
  destruct (getattr_ready w e1 Hinit) as (w1 & Hget & Hi1 & He1 & Hc1).
  exists w1. split; [|done]. cbn [send_flags].
  assert (send_flag lib flag w =
            (Return (if String.eqb flag "embedded_data"
                     then Some (LZC_SEND_FLAG_EMBED_DATA lib)
                     else if String.eqb flag "large_blocks"
                          then Some (LZC_SEND_FLAG_LARGE_BLOCK lib)
                          else None), w1)) as Hflag.
  { unfold send_flag. erewrite bind_return by exact Hget.
    by erewrite bind_return by by apply getattr_inited. }
  erewrite bind_return by exact Hflag.
  unfold first_unknown in Hf. cbn [find] in Hf. unfold known_flag in Hf.
  destruct (String.eqb flag "embedded_data"); cbn [orb negb] in Hf.
  { by apply send_flags_unknown_inited. }
  destruct (String.eqb flag "large_blocks"); cbn [orb negb] in Hf.
  { by apply send_flags_unknown_inited. }
  by injection Hf as ->.
Qed.

Lemma send_flags_init_failed flags (w : world σ) r e1 :
  init_result lib w = (r, e1) → r ≠ 0 → flags ≠ [] →
  ∀ c_flags, ∃ w',
    send_flags lib flags c_flags w = (Raise (ZFSInitializationFailed r), w')
    ∧ engine w' = e1
    ∧ calls w' = (calls w ++ ["libzfs_core_init"])%list.
Proof.
  intros Hinit Hr Hne c_flags. destruct flags as [|flag flags]; [done|].
  destruct (getattr_failed w r e1 Hinit Hr) as (w1 & Hget & _ & He1 & Hc1).
  exists w1. split; [|done]. cbn [send_flags]. unfold send_flag.
  erewrite bind_raise; [done|]. by erewrite bind_raise by exact Hget.
Qed.

End WrapperMore.

(** *** The keys of a dict *)

Section DictMore.

Lemma dict_set_keys (d : nvlist) k v :
  map fst (dict_set d k v)
  = if existsb (String.eqb k) (map fst d) then map fst d
    else (map fst d ++ [k])%list.
Proof.
  induction d as [|[k' v'] d IH]; [done|]. cbn [dict_set map fst existsb].
  rewrite (String.eqb_sym k k').
  destruct (String.eqb k' k); cbn [orb map fst]; [done|].
  rewrite IH. by destruct (existsb _ _).
Qed.

Lemma dict_set_NoDup (d : nvlist) k v :
  NoDup (map fst d) → NoDup (map fst (dict_set d k v)).
Proof.
  intros Hd. rewrite dict_set_keys.
  destruct (existsb _ _) eqn:Hex; [done|].
  apply NoDup_app. split_and!; [done| |apply NoDup_singleton].
  intros x Hx ->%list_elem_of_singleton.
  apply existsb_eqb_elem_of in Hx. congruence.
Qed.

Lemma elem_of_dict_set_keys (d : nvlist) k v x :
  x ∈ map fst (dict_set d k v) ↔ x = k ∨ x ∈ map fst d.
Proof.
  rewrite dict_set_keys. destruct (existsb _ _) eqn:Hex.
  - apply existsb_eqb_elem_of in Hex. split; [tauto|]. by intros [->|?].
  - rewrite elem_of_app, list_elem_of_singleton. tauto.
Qed.

Lemma dict_of_entries_from (es : nvlist) : ∀ d : nvlist,
  NoDup (map fst d) →
  let d' := fold_left (λ d e, dict_set d e.1 e.2) es d in
  NoDup (map fst d')
  ∧ ∀ x, x ∈ map fst d' ↔ x ∈ map fst d ∨ x ∈ map fst es.
Proof.
  induction es as [|[k v] es IH]; intros d Hd; cbn [fold_left map fst snd].
  - split; [done|]. intros x. rewrite elem_of_nil. tauto.
  - destruct (IH (dict_set d k v) (dict_set_NoDup d k v Hd)) as [Hnd Hel].
    split; [done|]. intros x.
    rewrite Hel, elem_of_dict_set_keys, elem_of_cons. tauto.
Qed.

(** A dict filled with entries has each key once. *)
Lemma dict_of_entries_keys (es : nvlist) :
  NoDup (map fst (dict_of_entries es))
  ∧ ∀ x, x ∈ map fst (dict_of_entries es) ↔ x ∈ map fst es.
Proof.
  destruct (dict_of_entries_from es [] (NoDup_nil_2)) as [Hnd Hel].
  split; [done|]. intros x. unfold dict_of_entries. rewrite Hel.
  cbn [map]. rewrite elem_of_nil. tauto.
Qed.

Lemma dict_set_absent (d : nvlist) k v :
  k ∉ map fst d → dict_set d k v = (d ++ [(k, v)])%list.
Proof.
  induction d as [|[k' v'] d IH]; intros Hk; [done|].
  cbn [map fst] in Hk. apply not_elem_of_cons in Hk as [Hne Hk].
  cbn [dict_set app]. destruct (String.eqb_spec k' k) as [->|_]; [done|].
  by rewrite IH.
Qed.

Lemma release_holds_dict_from (holds : list (string * list string)) :
  ∀ acc : nvlist,
    NoDup (map fst holds) →
    (∀ x, x ∈ map fst holds → x ∉ map fst acc) →
    release_holds_dict (map (λ e, (e.1, Tags e.2)) holds) acc
    = Return (acc ++ map (λ e, (e.1, VList (flagged (dedup e.2)))) holds)%list.
Proof.
  induction holds as [|[snap tags] holds IH]; intros acc Hnd Hdisj.
  - cbn [map release_holds_dict]. by rewrite app_nil_r.
  - cbn [map fst snd release_holds_dict] in *.
    apply NoDup_cons in Hnd as [Hsnap Hnd].
    rewrite dict_set_absent by (apply Hdisj; left).
    rewrite IH; [|done|].
    + by rewrite <- app_assoc, dict_fromkeys_dedup.
    + intros x Hx. rewrite map_app, elem_of_app. cbn [map fst].
      rewrite list_elem_of_singleton. intros [Hin| ->]; [|done].
      apply (Hdisj x); [by right|done].
Qed.

End DictMore.


(** * The claims *)


(** C1 (round trip).  For every List that is constructible under the
    grammar of §3 (fixed-width integers in range, sequences of uniformly
    typed elements, unique keys, lengths that fit their prefix), Encode
    succeeds and decoding its buffer gives back the same tree: the same
    keys in the same order, the same kinds and the same scalar values. *)
Theorem roundtrip_decode_encode (l : nvlist) :
  constructible (VList l) = true →
  ∃ buf, Encode l = Ok buf ∧ Decode buf = Ok l.
Proof.
  unfold constructible. intros H. apply andb_true_iff in H as [Henc _].
  exists (payload (VList l)).
  assert (Encode l = Ok (payload (VList l))) as HE.
  { unfold Encode. by rewrite Henc. }
  split; [done|]. by apply Decode_Encode.
Qed.

Lemma roundtrip_decode_encode_witness :
  constructible (VList scenario1) = true ∧
  ∃ buf, Encode scenario1 = Ok buf ∧ Decode buf = Ok scenario1.
Proof.
  split; [reflexivity|].
  apply (roundtrip_decode_encode scenario1). reflexivity.
Defined.

Section DuplicateFacts.
Context {σ : Type} (lib : Lib σ) (xlate : translator) (py : interp).

Lemma bind_world_ext {A B} (m : M (σ:=σ) A) (k k' : A → M B) w :
  (∀ a w', (k a w').2 = (k' a w').2) → (bind m k w).2 = (bind m k' w).2.
Proof.
  intros H. unfold bind. destruct (m w) as [[a|e] w']; [apply H|done].
Qed.

Lemma translate_world fault (k : unit → M (σ:=σ) pyret) w :
  (∀ w', (k tt w').2 = w') → (bind (translate fault) k w).2 = w.
Proof. intros H. destruct fault; [done|]. apply H. Qed.

Lemma dict_fromkeys_same snaps :
  dict_fromkeys snaps = dict_fromkeys (dedup snaps).
Proof.
  by rewrite (dict_fromkeys_dedup (dedup snaps)), dedup_idemp,
             <- dict_fromkeys_dedup.
Qed.

Lemma keys_dict_fromkeys snaps : map fst (dict_fromkeys snaps) = dedup snaps.
Proof.
  rewrite dict_fromkeys_dedup. unfold flagged. rewrite map_map.
  apply map_id.
Qed.

(** What the engine is given for a list of names: a List with one flag
    per distinct name. *)
Lemma request_sent snaps sbuf :
  Encode (iterated py (dict_fromkeys snaps)) = Ok sbuf →
  ∃ sent, Decode sbuf = Ok sent
          ∧ map fst sent ≡ₚ dedup snaps
          ∧ ∀ k v, (k, v) ∈ sent → v = VFlag.
Proof.
  intros Henc. exists (iterated py (dict_fromkeys snaps)). split_and!.
  - by apply Decode_Encode.
  - by rewrite keys_iterated, keys_dict_fromkeys.
  - intros k v [x [Hin ->]]%elem_of_iterated.
    rewrite dict_fromkeys_dedup in Hin. unfold flagged in Hin.
    apply list_elem_of_fmap in Hin as [name [[= _ ->] _]]. done.
Qed.

Lemma lzc_snapshot_world snaps snaps' props (w : world σ) :
  dict_fromkeys snaps = dict_fromkeys snaps' →
  (lzc_snapshot lib xlate py snaps props w).2
  = (lzc_snapshot lib xlate py snaps' props w).2.
Proof.
  intros Hsame. unfold lzc_snapshot. rewrite Hsame.
  repeat (apply bind_world_ext; intros ? ?).
  by rewrite !translate_world.
Qed.

Lemma lzc_destroy_snaps_world snaps snaps' defer (w : world σ) :
  dict_fromkeys snaps = dict_fromkeys snaps' →
  (lzc_destroy_snaps lib xlate py snaps defer w).2
  = (lzc_destroy_snaps lib xlate py snaps' defer w).2.
Proof.
  intros Hsame. unfold lzc_destroy_snaps. rewrite Hsame.
  repeat (apply bind_world_ext; intros ? ?).
  by rewrite !translate_world.
Qed.

Lemma lzc_snapshot_same snaps snaps' props (w : world σ) :
  dict_fromkeys snaps = dict_fromkeys snaps' →
  (∀ r E, snapshot_xlate xlate r E snaps (default [] props)
          = snapshot_xlate xlate r E snaps' (default [] props)) →
  lzc_snapshot lib xlate py snaps props w
  = lzc_snapshot lib xlate py snaps' props w.
Proof.
  intros Hsame Hx. unfold lzc_snapshot. rewrite Hsame.
  repeat (apply bind_ext; intros ? ?). by rewrite Hx.
Qed.

Lemma lzc_destroy_snaps_same snaps snaps' defer (w : world σ) :
  dict_fromkeys snaps = dict_fromkeys snaps' →
  (∀ r E, destroy_snaps_xlate xlate r E snaps defer
          = destroy_snaps_xlate xlate r E snaps' defer) →
  lzc_destroy_snaps lib xlate py snaps defer w
  = lzc_destroy_snaps lib xlate py snaps' defer w.
Proof.
  intros Hsame Hx. unfold lzc_destroy_snaps. rewrite Hsame.
  repeat (apply bind_ext; intros ? ?). by rewrite Hx.
Qed.

(** The boundary call of [lzc_snapshot] and of [lzc_destroy_snaps]. *)
Lemma lzc_snapshot_called snaps props sbuf pbuf (w : world σ) e1 r out e2 :
  Encode (iterated py (dict_fromkeys snaps)) = Ok sbuf →
  Encode (iterated py (default [] props)) = Ok pbuf →
  init_result lib w = (0, e1) →
  c_lzc_snapshot lib sbuf pbuf e1 = (r, out, e2) →
  let run := lzc_snapshot lib xlate py snaps props w in
  engine run.2 = e2
  ∧ calls run.2
    = (calls w ++ (if inited w then [] else ["libzfs_core_init"])
       ++ ["lzc_snapshot"])%list
  ∧ run.1 = match Decode out with
            | Ok es =>
                plain_verdict
                  (snapshot_xlate xlate r (dict_of_entries es) snaps
                     (default [] props))
            | Err e => Raise (CodecFault e)
            end.
Proof.
  intros Hs Hp Hinit Hcall run. subst run.
  rewrite (lzc_snapshot_batch lib xlate py snaps props sbuf pbuf w Hs Hp).
  destruct (batch_called lib "lzc_snapshot" _
              (λ r E, plain_verdict
                        (snapshot_xlate xlate r E snaps (default [] props)))
              w e1 r out e2 Hinit Hcall)
    as (w' & -> & _ & He & _ & Hc & _).
  done.
Qed.

Lemma lzc_destroy_snaps_called snaps defer sbuf (w : world σ) e1 r out e2 :
  Encode (iterated py (dict_fromkeys snaps)) = Ok sbuf →
  init_result lib w = (0, e1) →
  c_lzc_destroy_snaps lib sbuf defer e1 = (r, out, e2) →
  let run := lzc_destroy_snaps lib xlate py snaps defer w in
  engine run.2 = e2
  ∧ calls run.2
    = (calls w ++ (if inited w then [] else ["libzfs_core_init"])
       ++ ["lzc_destroy_snaps"])%list
  ∧ run.1 = match Decode out with
            | Ok es =>
                plain_verdict
                  (destroy_snaps_xlate xlate r (dict_of_entries es) snaps
                     defer)
            | Err e => Raise (CodecFault e)
            end.
Proof.
  intros Hs Hinit Hcall run. subst run.
  rewrite (lzc_destroy_snaps_batch lib xlate py snaps defer sbuf w Hs).
  destruct (batch_called lib "lzc_destroy_snaps" _
              (λ r E, plain_verdict
                        (destroy_snaps_xlate xlate r E snaps defer))
              w e1 r out e2 Hinit Hcall)
    as (w' & -> & _ & He & _ & Hc & _).
  done.
Qed.

End DuplicateFacts.


Section OutcomeFacts.
Context {σ : Type} (lib : Lib σ) (xlate : translator) (py : interp).

Lemma lzc_hold_called holds fd buf (w : world σ) e1 r out e2 :
  Encode (iterated py holds) = Ok buf →
  init_result lib w = (0, e1) →
  c_lzc_hold lib buf (default (-1) fd) e1 = (r, out, e2) →
  let run := lzc_hold lib xlate py holds fd w in
  engine run.2 = e2
  ∧ calls run.2
    = (calls w ++ (if inited w then [] else ["libzfs_core_init"])
       ++ ["lzc_hold"])%list
  ∧ run.1 = match Decode out with
            | Ok es =>
                keys_verdict py
                  (hold_xlate xlate r (dict_of_entries es) holds
                     (default (-1) fd))
                  (dict_of_entries es)
            | Err e => Raise (CodecFault e)
            end.
Proof.
  intros Hs Hinit Hcall run. subst run.
  rewrite (lzc_hold_batch lib xlate py holds fd buf w Hs).
  destruct (batch_called lib "lzc_hold" _
              (λ r E, keys_verdict py
                        (hold_xlate xlate r E holds (default (-1) fd)) E)
              w e1 r out e2 Hinit Hcall)
    as (w' & -> & _ & He & _ & Hc & _).
  done.
Qed.

Lemma lzc_release_called holds holds_dict buf (w : world σ) e1 r out e2 :
  release_holds_dict (items py holds) [] = Return holds_dict →
  Encode (iterated py holds_dict) = Ok buf →
  init_result lib w = (0, e1) →
  c_lzc_release lib buf e1 = (r, out, e2) →
  let run := lzc_release lib xlate py holds w in
  engine run.2 = e2
  ∧ calls run.2
    = (calls w ++ (if inited w then [] else ["libzfs_core_init"])
       ++ ["lzc_release"])%list
  ∧ run.1 = match Decode out with
            | Ok es =>
                keys_verdict py
                  (release_xlate xlate r (dict_of_entries es) holds)
                  (dict_of_entries es)
            | Err e => Raise (CodecFault e)
            end.
Proof.
  intros Hloop Hs Hinit Hcall run. subst run.
  rewrite (lzc_release_batch lib xlate py holds holds_dict buf w Hloop Hs).
  destruct (batch_called lib "lzc_release" _
              (λ r E, keys_verdict py (release_xlate xlate r E holds) E)
              w e1 r out e2 Hinit Hcall)
    as (w' & -> & _ & He & _ & Hc & _).
  done.
Qed.

(** The statements after the with block of [lzc_hold] and [lzc_release],
    when the translator has raised nothing. *)
Lemma keys_verdict_checked (E : nvlist) :
  debug py = true →
  let o := keys_verdict py None E in
  (∀ ret, o = Return ret → ∀ k v, (k, v) ∈ E → ∃ kd, v = VInt kd ENOENT)
  ∧ ((∃ k v, (k, v) ∈ E ∧ is_enoent v = false) → o = Raise AssertionError).
Proof.
  intros Hd o. subst o. unfold keys_verdict. rewrite Hd. cbn [andb].
  destruct (forallb is_enoent (dict_values py E)) eqn:Hall; cbn [negb].
  - split; [intros _ _; by apply (forallb_is_enoent py)|].
    intros (k & v & Hin & Hv).
    destruct (proj1 (forallb_is_enoent py E) Hall k v Hin) as [kd ->].
    discriminate Hv.
  - split; [discriminate|done].
Qed.

Lemma keys_verdict_unchecked (E : nvlist) :
  debug py = false → keys_verdict py None E = Return (RList (dict_keys py E)).
Proof. intros Hd. unfold keys_verdict. by rewrite Hd. Qed.

Lemma keys_verdict_enoent (E : nvlist) :
  (∀ k v, (k, v) ∈ E → ∃ kd, v = VInt kd ENOENT) →
  keys_verdict py None E = Return (RList (dict_keys py E)).
Proof.
  intros Hall. apply (forallb_is_enoent py) in Hall. unfold keys_verdict.
  rewrite Hall. by rewrite andb_false_r.
Qed.

End OutcomeFacts.

(** C2, as stated, fails where the interpreter runs with [-O]: the check
    of the error map is an [assert] statement, which is then not there.  The
    engine answers a hold with success and an entry that carries EBUSY;
    [lzc_hold] returns the name of the entry as if the snapshot were
    missing, and raises nothing. *)
Lemma error_map_unchecked_under_O :
  let run :=
    lzc_hold scripted errno_xlate in_order_O [("p@s1", VBytes "tag")] None
      (boot busy_script) in
  calls run.2 = ["libzfs_core_init"; "lzc_hold"]
  ∧ dicts run.2 !! 0%nat = Some busy_entry
  ∧ forallb is_enoent (map snd busy_entry) = false
  ∧ run.1 = Return (RList ["p@s1"]).
Proof. vm_compute. done. Qed.

(** C2, amended.  In a call of [lzc_hold] or [lzc_release] whose
    arguments encode, whose library is ready, whose boundary call has left
    an output that decodes and whose translator has raised nothing: while
    assert statements are in force ([__debug__] set),
    the call returns only if every entry of the error map carries ENOENT,
    and raises [AssertionError] if some entry carries anything else; under
    [-O] nothing is checked, and the call returns the names of all entries
    of the error map, whatever they carry. *)
Theorem error_map_invariant {σ} (lib : Lib σ) (xlate : translator)
    (py : interp) (w : world σ) (e1 e2 : σ) (r : Z) (out : buffer)
    (es : nvlist) :
  init_result lib w = (0, e1) →
  Decode out = Ok es →
  let E := dict_of_entries es in
  (∀ holds fd buf,
     Encode (iterated py holds) = Ok buf →
     c_lzc_hold lib buf (default (-1) fd) e1 = (r, out, e2) →
     hold_xlate xlate r E holds (default (-1) fd) = None →
     let o := (lzc_hold lib xlate py holds fd w).1 in
     (debug py = true →
      (∀ ret, o = Return ret → ∀ k v, (k, v) ∈ E → ∃ kd, v = VInt kd ENOENT)
      ∧ ((∃ k v, (k, v) ∈ E ∧ is_enoent v = false)
         → o = Raise AssertionError))
     ∧ (debug py = false → o = Return (RList (dict_keys py E))))
  ∧ (∀ holds holds_dict buf,
     release_holds_dict (items py holds) [] = Return holds_dict →
     Encode (iterated py holds_dict) = Ok buf →
     c_lzc_release lib buf e1 = (r, out, e2) →
     release_xlate xlate r E holds = None →
     let o := (lzc_release lib xlate py holds w).1 in
     (debug py = true →
      (∀ ret, o = Return ret → ∀ k v, (k, v) ∈ E → ∃ kd, v = VInt kd ENOENT)
      ∧ ((∃ k v, (k, v) ∈ E ∧ is_enoent v = false)
         → o = Raise AssertionError))
     ∧ (debug py = false → o = Return (RList (dict_keys py E)))).
Proof.
  intros Hinit Hdec E. split.
  - intros holds fd buf Henc Hcall Hquiet o.
    destruct (lzc_hold_called lib xlate py holds fd buf w e1 r out e2
                Henc Hinit Hcall) as (_ & _ & Ho).
    subst o. rewrite Ho, Hdec. fold E. rewrite Hquiet. split.
    + apply keys_verdict_checked.
    + apply keys_verdict_unchecked.
  - intros holds holds_dict buf Hloop Henc Hcall Hquiet o.
    destruct (lzc_release_called lib xlate py holds holds_dict buf w
                e1 r out e2 Hloop Henc Hinit Hcall) as (_ & _ & Ho).
    subst o. rewrite Ho, Hdec. fold E. rewrite Hquiet. split.
    + apply keys_verdict_checked.
    + apply keys_verdict_unchecked.
Qed.

Lemma error_map_invariant_witness :
  init_result scripted (boot busy_script) = (0, busy_script)
  ∧ Decode (errmap busy_entry) = Ok busy_entry
  ∧ (lzc_hold scripted errno_xlate in_order [("p@s1", VBytes "tag")] None
       (boot busy_script)).1 = Raise AssertionError
  ∧ (lzc_hold scripted errno_xlate in_order_O [("p@s1", VBytes "tag")] None
       (boot busy_script)).1 = Return (RList ["p@s1"]).
Proof.
  split; [reflexivity|]. split; [reflexivity|].
  split.
  - destruct (error_map_invariant scripted errno_xlate in_order
                (boot busy_script) busy_script quiet_script 0
                (errmap busy_entry) busy_entry eq_refl eq_refl)
      as [Hhold _].
    destruct (Hhold [("p@s1", VBytes "tag")] None
                (payload (VList [("p@s1", VBytes "tag")]))
                eq_refl eq_refl eq_refl) as [Hchecked _].
    apply (Hchecked eq_refl).
    exists "p@s1", (VInt I32 16). split; [left|reflexivity].
  - destruct (error_map_invariant scripted errno_xlate in_order_O
                (boot busy_script) busy_script quiet_script 0
                (errmap busy_entry) busy_entry eq_refl eq_refl)
      as [Hhold _].
    destruct (Hhold [("p@s1", VBytes "tag")] None
                (payload (VList [("p@s1", VBytes "tag")]))
                eq_refl eq_refl eq_refl) as [_ Hunchecked].
    exact (Hunchecked eq_refl).
Defined.

Section RequestFacts.
Context {σ : Type} (lib : Lib σ) (xlate : translator) (py : interp).

Lemma elem_of_dict_set (d : nvlist) k v k' v' :
  (k', v') ∈ dict_set d k v → (k', v') = (k, v) ∨ (k', v') ∈ d.
Proof.
  induction d as [|[k0 v0] d IH]; cbn [dict_set].
  - intros ->%list_elem_of_singleton. by left.
  - destruct (String.eqb_spec k0 k) as [->|_].
    + intros [->|Hin]%elem_of_cons; [by left|]. right. by right.
    + intros [->|Hin]%elem_of_cons; [right; left|].
      destruct (IH Hin) as [?|?]; [by left|]. right. by right.
Qed.

(** A dict filled from decoded entries holds entries of the List only. *)
Lemma elem_of_dict_of_entries (es : nvlist) k v :
  (k, v) ∈ dict_of_entries es → (k, v) ∈ es.
Proof.
  unfold dict_of_entries.
  assert (∀ d : nvlist,
            (k, v) ∈ fold_left (λ d e, dict_set d e.1 e.2) es d →
            (k, v) ∈ d ∨ (k, v) ∈ es) as H.
  { induction es as [|[k0 v0] es IH]; intros d; cbn [fold_left fst snd].
    - by left.
    - intros Hin. destruct (IH _ Hin) as [Hd|?]; [|right; by right].
      apply elem_of_dict_set in Hd as [->|?]; [right; left|by left]. }
  intros Hin. destruct (H [] Hin) as [Hnil|?]; [|done].
  by apply elem_of_nil in Hnil.
Qed.

(** The names [lzc_hold] and [lzc_release] return. *)
Lemma elem_of_returned_keys (es : nvlist) n :
  n ∈ dict_keys py (dict_of_entries es) ↔ n ∈ map fst es.
Proof. rewrite dict_keys_perm. apply dict_of_entries_keys. Qed.

Lemma NoDup_returned_keys (es : nvlist) :
  NoDup (dict_keys py (dict_of_entries es)).
Proof. rewrite dict_keys_perm. apply dict_of_entries_keys. Qed.

(** Iterating well-typed [holds] yields well-typed entries. *)
Lemma items_typed (hs : list (string * list string)) :
  ∃ hs', items py (map (λ e, (e.1, Tags e.2)) hs)
         = map (λ e, (e.1, Tags e.2)) hs'
         ∧ hs' ≡ₚ hs.
Proof.
  destruct (@Permutation_map_inv _ _
              (λ e : string * list string, (e.1, Tags e.2))
              (items py (map (λ e, (e.1, Tags e.2)) hs)) hs
              (items_perm py _)) as (hs' & Heq & Hperm).
  exists hs'. split; [done|]. by symmetry.
Qed.

(** The dict the loop of [lzc_release] builds, as a set of entries. *)
Lemma release_request (hs : list (string * list string)) holds_dict :
  NoDup (map fst hs) →
  release_holds_dict (items py (map (λ e, (e.1, Tags e.2)) hs)) []
  = Return holds_dict →
  ∀ snap x, (snap, x) ∈ holds_dict
            ↔ ∃ tags, (snap, tags) ∈ hs
                      ∧ x = VList (flagged (dedup tags)).
Proof.
  intros Hnd Hloop snap x.
  destruct (items_typed hs) as (hs' & Heq & Hperm).
  rewrite Heq in Hloop.
  rewrite (release_holds_dict_from hs' []) in Hloop.
  - injection Hloop as <-. cbn [app]. rewrite list_elem_of_fmap. split.
    + intros [[s tags] [[= -> ->] Hin]]. exists tags.
      by rewrite <- Hperm.
    + intros [tags [Hin ->]]. exists (snap, tags). by rewrite Hperm.
  - by rewrite Hperm.
  - intros y _. apply not_elem_of_nil.
Qed.

(** The loop of [lzc_release] on well-typed [holds] returns, with one
    entry per snapshot. *)
Lemma release_loop (hs : list (string * list string)) :
  NoDup (map fst hs) →
  ∃ hs', hs' ≡ₚ hs
         ∧ release_holds_dict (items py (map (λ e, (e.1, Tags e.2)) hs)) []
           = Return (map (λ e, (e.1, VList (flagged (dedup e.2)))) hs').
Proof.
  intros Hnd. destruct (items_typed hs) as (hs' & Heq & Hperm).
  exists hs'. split; [done|]. rewrite Heq.
  rewrite (release_holds_dict_from hs' []); [done| |].
  - by rewrite Hperm.
  - intros y _. apply not_elem_of_nil.
Qed.

(** The nested List of a snapshot as the engine decodes it: its keys are
    the tags of the snapshot. *)
Lemma layout_tags tags :
  ∃ d, layout py (VList (flagged (dedup tags))) = VList d
       ∧ ∀ t, t ∈ map fst d ↔ t ∈ tags.
Proof.
  eexists. split; [reflexivity|]. intros t.
  rewrite (items_perm py _), map_map. unfold flagged. rewrite map_map.
  cbn [fst]. rewrite map_id. apply elem_of_dedup.
Qed.

Lemma release_miss_request exists_ held
    (hs : list (string * list string)) holds_dict n :
  (∀ snap x, (snap, x) ∈ holds_dict
             ↔ ∃ tags, (snap, tags) ∈ hs
                       ∧ x = VList (flagged (dedup tags))) →
  release_miss exists_ held (iterated py holds_dict) n
  ↔ ∃ snap tags, (snap, tags) ∈ hs
      ∧ ((exists_ snap = false ∧ n = snap)
         ∨ (exists_ snap = true
            ∧ ∃ tag, tag ∈ tags ∧ held snap tag = false
                     ∧ n = snap ++ "#" ++ tag)).
Proof.
  intros HD. unfold release_miss. split.
  - intros (snap & d & Hin & Hcase).
    apply elem_of_iterated in Hin as (x & Hin & Hx).
    apply HD in Hin as (tags & Hin & ->).
    destruct (layout_tags tags) as (d' & Hd' & Hkeys).
    rewrite Hd' in Hx. injection Hx as ->.
    exists snap, tags. split; [done|].
    destruct Hcase as [?|[? (tag & Ht & ? & ?)]]; [by left|right].
    split; [done|]. exists tag. by rewrite <- Hkeys.
  - intros (snap & tags & Hin & Hcase).
    destruct (layout_tags tags) as (d' & Hd' & Hkeys).
    exists snap, d'. split.
    + apply elem_of_iterated. exists (VList (flagged (dedup tags))).
      split; [|done]. apply HD. by exists tags.
    + destruct Hcase as [?|[? (tag & Ht & ? & ?)]]; [by left|right].
      split; [done|]. exists tag. by rewrite Hkeys.
Qed.

Lemma hold_miss_request exists_ (holds : nvlist) n :
  hold_miss exists_ (iterated py holds) n
  ↔ (∃ v, (n, v) ∈ holds) ∧ exists_ n = false.
Proof.
  unfold hold_miss. split; intros [[v Hin] Hn]; (split; [|done]).
  - apply elem_of_iterated in Hin as (x & Hin & _). by exists x.
  - exists (layout py v). apply elem_of_iterated. by exists v.
Qed.

End RequestFacts.

(** C5 (soft misses are data).  Take an engine in which [exists_] tells
    the snapshots that exist and [held] the holds that are there, and a
    boundary call that reports success and answers the request it is given
    with exactly its soft misses, each under ENOENT.  Then [lzc_hold]
    raises nothing and returns, each once, the snapshots of [holds] that do
    not exist; and [lzc_release], for [holds] that maps distinct snapshots
    to lists of tags, raises nothing and returns, each once, the snapshots
    of [holds] that do not exist and, for those that exist, the tags of
    [holds] that are not held, as [snapshot#tag].  The request reaches the
    engine as the caller made it, and the engine's answer reaches the
    caller as data. *)
Theorem soft_misses_returned {σ} (lib : Lib σ) (xlate : translator)
    (py : interp) (w : world σ) (e1 e2 : σ) (out : buffer) (es : nvlist)
    (exists_ : string → bool) (held : string → string → bool) :
  init_result lib w = (0, e1) →
  Decode out = Ok es →
  (∀ k v, (k, v) ∈ es → ∃ kd, v = VInt kd ENOENT) →
  (∀ holds fd buf,
     Encode (iterated py holds) = Ok buf →
     c_lzc_hold lib buf (default (-1) fd) e1 = (0, out, e2) →
     hold_xlate xlate 0 (dict_of_entries es) holds (default (-1) fd) = None →
     (∀ req, Decode buf = Ok req →
             ∀ n, n ∈ map fst es ↔ hold_miss exists_ req n) →
     ∃ names,
       (lzc_hold lib xlate py holds fd w).1 = Return (RList names)
       ∧ NoDup names
       ∧ ∀ n, n ∈ names ↔ (∃ v, (n, v) ∈ holds) ∧ exists_ n = false)
  ∧ (∀ (hs : list (string * list string)) holds_dict buf,
     NoDup (map fst hs) →
     let holds := map (λ e, (e.1, Tags e.2)) hs in
     release_holds_dict (items py holds) [] = Return holds_dict →
     Encode (iterated py holds_dict) = Ok buf →
     c_lzc_release lib buf e1 = (0, out, e2) →
     release_xlate xlate 0 (dict_of_entries es) holds = None →
     (∀ req, Decode buf = Ok req →
             ∀ n, n ∈ map fst es ↔ release_miss exists_ held req n) →
     ∃ names,
       (lzc_release lib xlate py holds w).1 = Return (RList names)
       ∧ NoDup names
       ∧ ∀ n, n ∈ names
              ↔ ∃ snap tags, (snap, tags) ∈ hs
                  ∧ ((exists_ snap = false ∧ n = snap)
                     ∨ (exists_ snap = true
                        ∧ ∃ tag, tag ∈ tags ∧ held snap tag = false
                                 ∧ n = snap ++ "#" ++ tag))).
Proof.
  intros Hinit Hdec Hall.
  assert (∀ k v, (k, v) ∈ dict_of_entries es → ∃ kd, v = VInt kd ENOENT)
    as HallE.
  { intros k v Hin. apply (elem_of_dict_of_entries es) in Hin. eauto. }
  split.
  - intros holds fd buf Henc Hcall Hquiet Hanswer.
    destruct (lzc_hold_called lib xlate py holds fd buf w e1 0 out e2
                Henc Hinit Hcall) as (_ & _ & Ho).
    rewrite Hdec, Hquiet, (keys_verdict_enoent py _ HallE) in Ho.
    eexists. split; [exact Ho|]. split; [apply NoDup_returned_keys|].
    intros n. rewrite elem_of_returned_keys.
    rewrite (Hanswer _ (Decode_Encode _ _ Henc)).
    apply hold_miss_request.
  - intros hs holds_dict buf Hnd holds Hloop Henc Hcall Hquiet Hanswer.
    destruct (lzc_release_called lib xlate py holds holds_dict buf w
                e1 0 out e2 Hloop Henc Hinit Hcall) as (_ & _ & Ho).
    rewrite Hdec, Hquiet, (keys_verdict_enoent py _ HallE) in Ho.
    eexists. split; [exact Ho|]. split; [apply NoDup_returned_keys|].
    intros n. rewrite elem_of_returned_keys.
    rewrite (Hanswer _ (Decode_Encode _ _ Henc)).
    apply release_miss_request. by apply (release_request py).
Qed.

Lemma soft_misses_returned_witness :
  init_result scripted (boot scenario4_script) = (0, scenario4_script)
  ∧ Decode (errmap scenario4_misses) = Ok scenario4_misses
  ∧ (lzc_release scripted errno_xlate in_order scenario4
       (boot scenario4_script)).1
    = Return (RList ["p@s1#missing-tag"])
  ∧ ∃ names,
      (lzc_release scripted errno_xlate in_order
         (map (λ e, (e.1, Tags e.2)) scenario4_holds)
         (boot scenario4_script)).1
      = Return (RList names)
      ∧ NoDup names
      ∧ ∀ n, n ∈ names
             ↔ ∃ snap tags, (snap, tags) ∈ scenario4_holds
                 ∧ ((all_exist snap = false ∧ n = snap)
                    ∨ (all_exist snap = true
                       ∧ ∃ tag, tag ∈ tags ∧ tag1_held snap tag = false
                                ∧ n = snap ++ "#" ++ tag)).
Proof.
  split; [reflexivity|]. split; [reflexivity|]. split; [reflexivity|].
  destruct (soft_misses_returned scripted errno_xlate in_order
              (boot scenario4_script) scenario4_script quiet_script
              (errmap scenario4_misses) scenario4_misses
              all_exist tag1_held eq_refl eq_refl) as [_ Hrelease].
  { intros k v Hin. apply list_elem_of_singleton in Hin as [= -> ->].
    by exists I32. }
  apply (Hrelease scenario4_holds
           [("p@s1", VList [("tag1", VFlag); ("missing-tag", VFlag)])]
           (payload (VList [("p@s1",
                             VList [("tag1", VFlag);
                                    ("missing-tag", VFlag)])]))).
  - apply (bool_decide_unpack _). reflexivity.
  - reflexivity.
  - reflexivity.
  - reflexivity.
  - reflexivity.
  - intros req Hreq n.
    assert (req = [("p@s1", VList [("tag1", VFlag); ("missing-tag", VFlag)])])
      as -> by (vm_compute in Hreq; congruence).
    cbn [map fst scenario4_misses]. split.
    + intros ->%list_elem_of_singleton.
      exists "p@s1", [("tag1", VFlag); ("missing-tag", VFlag)].
      split; [left|]. right. split; [done|]. exists "missing-tag".
      split; [right; left|done].
    + intros (snap & tags & Hin & Hcase).
      apply list_elem_of_singleton in Hin as [= -> ->].
      destruct Hcase as [[? _]|[_ (tag & Ht & Hheld & ->)]]; [done|].
      cbn [map fst] in Ht.
      apply elem_of_cons in Ht as [->|Ht]; [discriminate Hheld|].
      apply list_elem_of_singleton in Ht as ->. left.
Defined.

Section DestroyFacts.
Context {σ : Type} (lib : Lib σ) (xlate : translator) (py : interp).

(** [lzc_destroy_snaps] has no return statement. *)
Lemma lzc_destroy_snaps_returns snaps defer (w : world σ) r :
  (lzc_destroy_snaps lib xlate py snaps defer w).1 = Return r → r = RNone.
Proof.
  destruct (lzc_destroy_snaps lib xlate py snaps defer w) as [o w'] eqn:Hrun.
  cbn [fst]. intros ->. unfold lzc_destroy_snaps in Hrun.
  do 5 (apply bind_returns in Hrun as (? & ? & _ & Hrun)).
  by injection Hrun as <- _.
Qed.

End DestroyFacts.

(** C4, as stated, fails: the engine ignores a snapshot that does not
    exist and reports success; [lzc_destroy_snaps] then returns [None], and
    the absent target is not reported back. *)
Lemma destroy_absent_not_reported :
  ¬ reports_all
      (lzc_destroy_snaps scripted errno_xlate in_order absent false
         (boot quiet_script)).1
      absent.
Proof.
  intros (r & Hret & Hall).
  assert (r = RNone) as -> by (vm_compute in Hret; congruence).
  specialize (Hall "p@s1" ltac:(left)). by apply elem_of_nil in Hall.
Qed.

(** C4, amended.  [lzc_destroy_snaps] reports no name back: whenever it
    returns, it returns [None], whatever the error map holds.  Once the
    targets are encoded and the library is ready, the entry point is
    called, and the call raises the decoding fault when the output does
    not decode, and otherwise what the translator finds in the status and
    the error map.  So when the boundary call reports success with an
    output that decodes, and the translator raises nothing on success, the
    call raises no fault and returns [None]; whether a target set whose
    targets are all absent is answered with success is up to the engine. *)
Theorem destroy_success_returns_none {σ} (lib : Lib σ) (xlate : translator)
    (py : interp) (snaps : list string) (defer : bool) (w : world σ)
    (buf : buffer) (e1 e2 : σ) (status : Z) (out : buffer) :
  Encode (iterated py (dict_fromkeys snaps)) = Ok buf →
  init_result lib w = (0, e1) →
  c_lzc_destroy_snaps lib buf defer e1 = (status, out, e2) →
  let run := lzc_destroy_snaps lib xlate py snaps defer w in
  (∀ r, run.1 = Return r → r = RNone ∧ reported r = [])
  ∧ run.1 = match Decode out with
            | Ok es =>
                match destroy_snaps_xlate xlate status (dict_of_entries es)
                        snaps defer with
                | None => Return RNone
                | Some f => Raise (ZFSFault f)
                end
            | Err e => Raise (CodecFault e)
            end
  ∧ (status = 0 → (∃ es, Decode out = Ok es) →
     (∀ E T d, destroy_snaps_xlate xlate 0 E T d = None) →
     run.1 = Return RNone)
  ∧ engine run.2 = e2
  ∧ calls run.2
    = (calls w ++ (if inited w then [] else ["libzfs_core_init"])
       ++ ["lzc_destroy_snaps"])%list.
Proof.
  intros Henc Hinit Hcall run.
  destruct (lzc_destroy_snaps_called lib xlate py snaps defer buf w
              e1 status out e2 Henc Hinit Hcall) as (He & Hc & Ho).
  fold run in He, Hc, Ho. split_and!.
  - intros r Hr. apply lzc_destroy_snaps_returns in Hr as ->. done.
  - rewrite Ho. destruct (Decode out); [|done]. by destruct (destroy_snaps_xlate _ _ _ _ _).
  - intros -> [es Hdec] Hquiet. rewrite Ho, Hdec. by rewrite Hquiet.
  - done.
  - done.
Qed.

Lemma destroy_success_returns_none_witness :
  Encode (iterated in_order (dict_fromkeys absent))
  = Ok (payload (VList (dict_fromkeys absent)))
  ∧ init_result scripted (boot quiet_script) = (0, quiet_script)
  ∧ (lzc_destroy_snaps scripted errno_xlate in_order absent false
       (boot quiet_script)).1 = Return RNone
  ∧ calls (lzc_destroy_snaps scripted errno_xlate in_order absent false
             (boot quiet_script)).2
    = ["libzfs_core_init"; "lzc_destroy_snaps"].
Proof.
  split; [reflexivity|]. split; [reflexivity|].
  destruct (destroy_success_returns_none scripted errno_xlate in_order
              absent false (boot quiet_script) _ quiet_script quiet_script
              0 (payload (VList [])) eq_refl eq_refl eq_refl)
    as (_ & _ & Hok & _ & Hc).
  split; [|exact Hc].
  apply Hok; [done|by exists []|done].
Defined.

Section ScopedFacts.
Context {σ : Type} (lib : Lib σ) (xlate : translator) (py : interp).

Lemma scoped_lzc_snapshot snaps props sbuf pbuf :
  Encode (iterated py (dict_fromkeys snaps)) = Ok sbuf →
  Encode (iterated py (default [] props)) = Ok pbuf →
  scoped lib (lzc_snapshot lib xlate py snaps props) "lzc_snapshot"
    (c_lzc_snapshot lib sbuf pbuf)
    (λ r E, plain_verdict (snapshot_xlate xlate r E snaps (default [] props))).
Proof.
  intros Hs Hp. eapply scoped_ext; [|apply batch_scoped].
  intros w. by apply lzc_snapshot_batch.
Qed.

Lemma scoped_lzc_destroy_snaps snaps defer sbuf :
  Encode (iterated py (dict_fromkeys snaps)) = Ok sbuf →
  scoped lib (lzc_destroy_snaps lib xlate py snaps defer) "lzc_destroy_snaps"
    (c_lzc_destroy_snaps lib sbuf defer)
    (λ r E, plain_verdict (destroy_snaps_xlate xlate r E snaps defer)).
Proof.
  intros Hs. eapply scoped_ext; [|apply batch_scoped].
  intros w. by apply lzc_destroy_snaps_batch.
Qed.

Lemma scoped_lzc_bookmark bookmarks buf :
  Encode (iterated py bookmarks) = Ok buf →
  scoped lib (lzc_bookmark lib xlate py bookmarks) "lzc_bookmark"
    (c_lzc_bookmark lib buf)
    (λ r E, plain_verdict (bookmark_xlate xlate r E bookmarks)).
Proof.
  intros Hs. eapply scoped_ext; [|apply batch_scoped].
  intros w. by apply lzc_bookmark_batch.
Qed.

Lemma scoped_lzc_hold holds fd buf :
  Encode (iterated py holds) = Ok buf →
  scoped lib (lzc_hold lib xlate py holds fd) "lzc_hold"
    (c_lzc_hold lib buf (default (-1) fd))
    (λ r E, keys_verdict py
              (hold_xlate xlate r E holds (default (-1) fd)) E).
Proof.
  intros Hs. eapply scoped_ext; [|apply batch_scoped].
  intros w. by apply lzc_hold_batch.
Qed.

Lemma scoped_lzc_release holds holds_dict buf :
  release_holds_dict (items py holds) [] = Return holds_dict →
  Encode (iterated py holds_dict) = Ok buf →
  scoped lib (lzc_release lib xlate py holds) "lzc_release"
    (c_lzc_release lib buf)
    (λ r E, keys_verdict py (release_xlate xlate r E holds) E).
Proof.
  intros Hloop Hs. eapply scoped_ext; [|apply batch_scoped].
  intros w. by eapply lzc_release_batch.
Qed.

End ScopedFacts.

(** C7 (scoped output buffer).  [nvlist_out] allocates a handle and runs
    the body; when the body ends, by returning or by raising, the handle
    is released, and the contents it then has are decoded into the sink,
    the outcome of the body being passed on; if the contents do not decode,
    the handle is released all the same.  Each of [lzc_snapshot],
    [lzc_destroy_snaps], [lzc_bookmark], [lzc_hold] and [lzc_release],
    once its arguments are encoded, opens exactly one such scope around
    the access to [_lib] and the call of its entry point, with the dict
    [errlist] as sink: the one handle it allocates is released, and no
    other handle is touched, whether the access to [_lib] raises, the entry
    point returns, or what it left does not decode; what the entry point
    left is in [errlist] when the translator looks at it.  On no path,
    also when an argument does not encode, is a handle left alive that was
    not alive before. *)
Theorem scoped_output_buffer {σ A} (lib : Lib σ) (xlate : translator)
    (py : interp) (sink : nat) (body : nat → M A) (w : world σ)
    (snaps : list string) (props : option nvlist) (defer : bool)
    (bookmarks holds : nvlist) (fd : option Z)
    (tags : list (string * hold_tags)) :
  (let h := next_handle w in
   let entered :=
     World (engine w) (inited w) (<[h := payload (VList [])]> (native w))
           (S h) (dicts w) (next_dict w) (calls w) in
   let left := body h entered in
   let exit := nvlist_out sink body w in
   native exit.2 = delete h (native left.2)
   ∧ native exit.2 !! h = None
   ∧ match Decode (default [] (native left.2 !! h)) with
     | Ok es =>
         exit.1 = left.1 ∧ dicts exit.2 !! sink = Some (dict_of_entries es)
     | Err e => exit.1 = Raise (CodecFault e)
     end)
  ∧ (∀ sbuf pbuf,
       Encode (iterated py (dict_fromkeys snaps)) = Ok sbuf →
       Encode (iterated py (default [] props)) = Ok pbuf →
       scoped lib (lzc_snapshot lib xlate py snaps props) "lzc_snapshot"
         (c_lzc_snapshot lib sbuf pbuf)
         (λ r E, plain_verdict
                   (snapshot_xlate xlate r E snaps (default [] props))))
  ∧ (∀ sbuf,
       Encode (iterated py (dict_fromkeys snaps)) = Ok sbuf →
       scoped lib (lzc_destroy_snaps lib xlate py snaps defer)
         "lzc_destroy_snaps" (c_lzc_destroy_snaps lib sbuf defer)
         (λ r E, plain_verdict (destroy_snaps_xlate xlate r E snaps defer)))
  ∧ (∀ buf,
       Encode (iterated py bookmarks) = Ok buf →
       scoped lib (lzc_bookmark lib xlate py bookmarks) "lzc_bookmark"
         (c_lzc_bookmark lib buf)
         (λ r E, plain_verdict (bookmark_xlate xlate r E bookmarks)))
  ∧ (∀ buf,
       Encode (iterated py holds) = Ok buf →
       scoped lib (lzc_hold lib xlate py holds fd) "lzc_hold"
         (c_lzc_hold lib buf (default (-1) fd))
         (λ r E, keys_verdict py
                   (hold_xlate xlate r E holds (default (-1) fd)) E))
  ∧ (∀ holds_dict buf,
       release_holds_dict (items py tags) [] = Return holds_dict →
       Encode (iterated py holds_dict) = Ok buf →
       scoped lib (lzc_release lib xlate py tags) "lzc_release"
         (c_lzc_release lib buf)
         (λ r E, keys_verdict py (release_xlate xlate r E tags) E))
  ∧ native (lzc_snapshot lib xlate py snaps props w).2 ⊆ native w
  ∧ native (lzc_destroy_snaps lib xlate py snaps defer w).2 ⊆ native w
  ∧ native (lzc_bookmark lib xlate py bookmarks w).2 ⊆ native w
  ∧ native (lzc_hold lib xlate py holds fd w).2 ⊆ native w
  ∧ native (lzc_release lib xlate py tags w).2 ⊆ native w.
Proof.
  split_and!.
  - intros h entered left exit.
    assert (native exit.2 = delete h (native left.2)) as Hrel.
    { subst exit left entered h. unfold nvlist_out.
      destruct (body _ _) as [o w1]. by destruct (Decode _). }
    split_and!.
    + done.
    + rewrite Hrel. apply lookup_delete_eq.
    + subst exit left entered h. unfold nvlist_out.
      destruct (body _ _) as [o w1]. cbn [snd fst].
      destruct (Decode _); cbn [fst snd dicts]; [|done].
      split; [done|]. apply lookup_insert_eq.
  - intros sbuf pbuf. apply scoped_lzc_snapshot.
  - intros sbuf. apply scoped_lzc_destroy_snaps.
  - intros buf. apply scoped_lzc_bookmark.
  - intros buf. apply scoped_lzc_hold.
  - intros holds_dict buf. apply scoped_lzc_release.
  - apply no_leak_lzc_snapshot.
  - apply no_leak_lzc_destroy_snaps.
  - apply no_leak_lzc_bookmark.
  - apply no_leak_lzc_hold.
  - apply no_leak_lzc_release.
Qed.

(** The engine leaves a buffer that is cut short: [lzc_bookmark] raises the
    decoding fault, and the handle of the scope is released. *)
Lemma scoped_output_buffer_witness :
  let run :=
    lzc_bookmark scripted errno_xlate in_order [("p#b", VBytes "p@s")]
      (boot garbled_script) in
  fresh (boot garbled_script)
  ∧ Decode [x05] = Err DecodingError
  ∧ run.1 = Raise (CodecFault DecodingError)
  ∧ next_handle run.2 = 1%nat
  ∧ native run.2 = ∅
  ∧ fresh run.2
  ∧ calls run.2 = ["libzfs_core_init"; "lzc_bookmark"].
Proof.
  intros run.
  assert (fresh (boot garbled_script)) as Hfresh by (intros h _; reflexivity).
  split; [exact Hfresh|]. split; [reflexivity|].
  destruct (scoped_output_buffer (A:=unit) scripted errno_xlate in_order 0%nat
              (λ _, ret tt) (boot garbled_script) [] None false
              [("p#b", VBytes "p@s")] [] None [])
    as (_ & _ & _ & Hbookmark & _).
  destruct (Hbookmark _ eq_refl (boot garbled_script))
    as (Hnext & _ & Hhandles & _ & Hcalled).
  destruct (Hhandles Hfresh) as [Hnative Hkept].
  destruct (Hcalled garbled_script 0 [x05] quiet_script eq_refl eq_refl)
    as (_ & Hcalls & Hout).
  fold run in Hnext, Hnative, Hkept, Hcalls, Hout.
  split; [exact Hout|]. split; [exact Hnext|]. split; [exact Hnative|].
  split; [exact Hkept|exact Hcalls].
Defined.

(** C9.  If the value of some snapshot in [holds] is not a list,
    [lzc_release] raises [TypeError] and has made no boundary call: the
    engine is as it was, [_lib] has not been touched and no native handle
    was allocated. *)
Theorem release_rejects_non_list {σ} (lib : Lib σ) (xlate : translator)
    (py : interp) (holds : list (string * hold_tags)) (w : world σ) :
  (∃ snap v, (snap, v) ∈ holds ∧ isinstance_list v = false) →
  ∃ w', lzc_release lib xlate py holds w
        = (Raise (TypeError "holds must be in a list"), w')
        ∧ engine w' = engine w ∧ calls w' = calls w
        ∧ inited w' = inited w ∧ native w' = native w.
Proof.
  intros (snap & v & Hin & Hv). unfold lzc_release.
  erewrite bind_return by reflexivity.
  erewrite bind_raise.
  2:{ unfold lift. rewrite release_holds_dict_not_list; [reflexivity|].
      exists snap, v. by rewrite elem_of_items. }
  eexists. split; [reflexivity|]. done.
Qed.

Lemma release_rejects_non_list_witness :
  (∃ snap v, (snap, v) ∈ bare_tag ∧ isinstance_list v = false)
  ∧ ∃ w', lzc_release scripted errno_xlate backwards bare_tag
            (boot quiet_script)
          = (Raise (TypeError "holds must be in a list"), w')
          ∧ engine w' = quiet_script ∧ calls w' = []
          ∧ inited w' = false ∧ native w' = ∅.
Proof.
  assert (∃ snap v, (snap, v) ∈ bare_tag ∧ isinstance_list v = false) as Hbad.
  { exists "p@s2", (TagBytes "tag2"). split; [right; left|reflexivity]. }
  split; [exact Hbad|].
  exact (release_rejects_non_list scripted errno_xlate backwards bare_tag
           (boot quiet_script) Hbad).
Defined.

(** C10, as stated, fails: the loop over the flags reads the flag
    constants through [_lib], so the first use of [_lib] in a process whose
    initialization fails raises [ZFSInitializationFailed] before the
    unknown flag is looked at. *)
Lemma send_unknown_flag_init_failure :
  ¬ (lzc_send scripted errno_tables "p@s1" None 3 (Some ["bogus"])
       (boot flaky_script)).1
    = Raise (UnknownStreamFeature "bogus").
Proof. vm_compute. discriminate. Qed.

(** C10, amended.  If [flags] holds an element other than "embedded_data"
    and "large_blocks", [lzc_send] raises before its boundary call, so the
    entry point [lzc_send] is not called and nothing is written to the
    descriptor: where [_lib] is initialized, or its initialization
    succeeds, the exception is [UnknownStreamFeature] naming the first such
    flag; where the initialization fails with [r], it is
    [ZFSInitializationFailed r]. *)
Theorem send_rejects_unknown_flag {σ} (lib : Lib σ) (tables : kind_tables)
    (snapname : string) (fromsnap : option string) (fd : Z)
    (flags : list string) (w : world σ) (r : Z) (e1 : σ) :
  (∃ bad, bad ∈ flags ∧ bad ≠ "embedded_data" ∧ bad ≠ "large_blocks") →
  init_result lib w = (r, e1) →
  ∃ w' f,
    first_unknown flags = Some f ∧ f ∈ flags ∧ known_flag f = false
    ∧ lzc_send lib tables snapname fromsnap fd (Some flags) w
      = (Raise (if (r =? 0)%Z then UnknownStreamFeature f
                else ZFSInitializationFailed r), w')
    ∧ engine w' = e1
    ∧ calls w' = (calls w ++
                  if inited w then [] else ["libzfs_core_init"])%list.
Proof.
  intros Hbad Hinit.
  destruct (first_unknown_exists flags Hbad) as (f & Hf & Hin & Hk).
  destruct (Z.eqb_spec r 0) as [->|Hr].
  - destruct (send_flags_unknown lib flags f w e1 Hinit Hf 0)
      as (w' & Hrun & He & Hc).
    exists w', f. split_and!; try done.
    unfold lzc_send. cbn [from_option id]. by erewrite bind_raise by exact Hrun.
  - assert (flags ≠ []) as Hne by (intros ->; by apply elem_of_nil in Hin).
    destruct (send_flags_init_failed lib flags w r e1 Hinit Hr Hne 0)
      as (w' & Hrun & He & Hc).
    exists w', f. split_and!; try done.
    + unfold lzc_send. cbn [from_option id].
      by erewrite bind_raise by exact Hrun.
    + rewrite Hc. unfold init_result in Hinit.
      destruct (inited w); [|done]. by injection Hinit as <- _.
Qed.

Lemma send_rejects_unknown_flag_witness :
  (∃ bad, bad ∈ ["embedded_data"; "bogus"]
          ∧ bad ≠ "embedded_data" ∧ bad ≠ "large_blocks")
  ∧ init_result scripted (boot quiet_script) = (0, quiet_script)
  ∧ ∃ w' f,
      first_unknown ["embedded_data"; "bogus"] = Some f
      ∧ f ∈ ["embedded_data"; "bogus"] ∧ known_flag f = false
      ∧ lzc_send scripted errno_tables "p@s1" None 3
          (Some ["embedded_data"; "bogus"]) (boot quiet_script)
        = (Raise (UnknownStreamFeature f), w')
      ∧ engine w' = quiet_script
      ∧ calls w' = ["libzfs_core_init"].
Proof.
  assert (∃ bad, bad ∈ ["embedded_data"; "bogus"]
                 ∧ bad ≠ "embedded_data" ∧ bad ≠ "large_blocks") as Hbad.
  { exists "bogus". split; [right; left|]. split; discriminate. }
  split; [exact Hbad|]. split; [reflexivity|].
  exact (send_rejects_unknown_flag scripted errno_tables "p@s1" None 3
           ["embedded_data"; "bogus"] (boot quiet_script) 0 quiet_script
           Hbad eq_refl).
Defined.

(** C8, as stated, fails: a failed initialization is not remembered.  The
    first call in a process whose initialization fails once raises
    [ZFSInitializationFailed]; the next call runs [libzfs_core_init] again,
    which succeeds, and goes through to the engine. *)
Lemma init_failure_not_latched :
  let first :=
    lzc_destroy_snaps scripted errno_xlate in_order absent false
      (boot flaky_script) in
  let second :=
    lzc_destroy_snaps scripted errno_xlate in_order absent false first.2 in
  first.1 = Raise (ZFSInitializationFailed 5)
  ∧ second.1 = Return RNone
  ∧ calls second.2
    = ["libzfs_core_init"; "libzfs_core_init"; "lzc_destroy_snaps"].
Proof. vm_compute. done. Qed.

(** C8, amended.  An access to [_lib] runs [libzfs_core_init] only while
    [_inited] is unset.  A run that returns 0 sets [_inited], and no later
    access initializes again; a run that fails with [r] raises
    [ZFSInitializationFailed r] and leaves [_inited] unset, so that the
    next access runs the initialization again.  Under threads, in every
    interleaving from the first use, at most one run of [libzfs_core_init]
    returns 0; a thread raises only with the non-zero result of a run; and
    if the initialization cannot fail it is run at most once and no thread
    raises. *)
Theorem lazy_init_retries {σ} (lib : Lib σ) (w : world σ) (r : Z) (e' : σ)
    (oracle : nat → Z) (n : nat) (schedule : list nat) :
  libzfs_core_init lib (engine w) = (r, e') →
  (inited w = true → getattr lib w = (Return tt, w))
  ∧ (inited w = false → r = 0 →
     ∃ w', getattr lib w = (Return tt, w')
           ∧ inited w' = true ∧ engine w' = e')
  ∧ (inited w = false → r ≠ 0 →
     ∃ w', getattr lib w = (Raise (ZFSInitializationFailed r), w')
           ∧ inited w' = false ∧ engine w' = e')
  ∧ let s := LazyInit.run oracle schedule (LazyInit.first_use n) in
    (LazyInit.successes s ≤ 1)%nat
    ∧ (∀ t r', LazyInit.threads s !! t = Some (LazyInit.Raised r') →
               r' ≠ 0 ∧ r' ∈ LazyInit.init_log s)
    ∧ ((∀ i, oracle i = 0) →
       (length (LazyInit.init_log s) ≤ 1)%nat
       ∧ ∀ t r', LazyInit.threads s !! t ≠ Some (LazyInit.Raised r')).
Proof.
  intros Hinit. split_and!.
  - apply getattr_inited.
  - intros Hi ->.
    destruct (getattr_ready lib w e') as (w' & Hrun & ? & ? & _);
      [unfold init_result; by rewrite Hi|by exists w'].
  - intros Hi Hr.
    destruct (getattr_failed lib w r e') as (w' & Hrun & ? & ? & _);
      [unfold init_result; by rewrite Hi|done|by exists w'].
  - pose proof (run_inv oracle schedule _ (first_use_inv oracle n))
      as (_ & _ & Hone & _ & Hraised & Hlog).
    split_and!.
    + done.
    + intros t r' Ht. apply (Hraised t r'). by left.
    + intros Hok.
      assert (∀ t r', LazyInit.threads (LazyInit.run oracle schedule
                (LazyInit.first_use n)) !! t ≠ Some (LazyInit.Raised r'))
        as Hnone.
      { intros t r' Ht. destruct (Hraised t r' (or_introl Ht)) as [Hne Hin].
        destruct (Hlog r' Hin) as [i ->]. by rewrite Hok in Hne. }
      split; [|done].
      unfold LazyInit.successes in Hone.
      rewrite filter_zero_all in Hone; [done|].
      intros x Hx. destruct (Hlog x Hx) as [i ->]. apply Hok.
Qed.

Lemma lazy_init_retries_witness :
  libzfs_core_init scripted flaky_script = (5, quiet_script)
  ∧ (∃ w', getattr scripted (boot flaky_script)
           = (Raise (ZFSInitializationFailed 5), w')
           ∧ inited w' = false ∧ engine w' = quiet_script)
  ∧ (LazyInit.successes
       (LazyInit.run fail_once interleaving (LazyInit.first_use 2)) ≤ 1)%nat.
Proof.
  split; [reflexivity|].
  destruct (lazy_init_retries scripted (boot flaky_script) 5 quiet_script
              fail_once 2 interleaving eq_refl)
    as (_ & _ & Hfail & Hone & _).
  split; [apply Hfail; [reflexivity|discriminate]|exact Hone].
Defined.

(** Two threads at the first use, the first run failing: thread 0 raises,
    thread 1 initializes again and gets the library. *)
Example first_use_interleaving :
  LazyInit.run fail_once interleaving (LazyInit.first_use 2)
  = LazyInit.State [LazyInit.Raised 5; LazyInit.Done] true None [5; 0].
Proof. reflexivity. Qed.


(** * More of the code *)

Import Send Trace Rest RestExamples.

(** ** The flags of [lzc_send] as bits *)

Section SendFacts.
Context {σ : Type} (lib : Lib σ) (tables : kind_tables).

Ltac lor_solve :=
  apply Z.bits_inj'; intros ? _; rewrite ?Z.lor_spec, ?Z.bits_0;
  repeat match goal with
         | |- context [Z.testbit ?a ?n] => destruct (Z.testbit a n)
         end; reflexivity.

Lemma flags_value_cons flag flags c :
  known_flag flag = true →
  Z.lor (Z.lor c (if String.eqb flag "embedded_data"
                  then LZC_SEND_FLAG_EMBED_DATA lib
                  else LZC_SEND_FLAG_LARGE_BLOCK lib))
        (flags_value lib flags)
  = Z.lor c (flags_value lib (flag :: flags)).
Proof.
  unfold known_flag, flags_value. cbn [existsb].
  rewrite (String.eqb_sym "embedded_data" flag),
          (String.eqb_sym "large_blocks" flag).
  destruct (String.eqb_spec flag "embedded_data") as [->|He].
  - intros _. cbn [orb String.eqb Ascii.eqb Bool.eqb andb].
    destruct (existsb _ flags), (existsb _ flags); lor_solve.
  - destruct (String.eqb_spec flag "large_blocks") as [->|Hl]; [|done].
    intros _. cbn [orb].
    destruct (existsb _ flags), (existsb _ flags); lor_solve.
Qed.

Lemma getattr_returns (w w1 : world σ) :
  getattr lib w = (Return tt, w1) → inited w1 = true.
Proof.
  unfold getattr. destruct (inited w) eqn:Hw; [by intros [= <-]|].
  destruct (libzfs_core_init lib (engine w)) as [r e'].
  destruct (r =? 0)%Z; [|done]. by intros [= <-].
Qed.

Lemma send_flags_known_inited flags (w : world σ) :
  inited w = true →
  (∀ f, f ∈ flags → known_flag f = true) →
  ∀ c, send_flags lib flags c w
       = (Return (Z.lor c (flags_value lib flags)), w).
Proof.
  intros Hi. induction flags as [|flag flags IH]; intros Hk c.
  - cbn [send_flags]. unfold flags_value. cbn [existsb].
    by rewrite Z.lor_0_r.
  - assert (known_flag flag = true) as Hflag by (apply Hk; left).
    cbn [send_flags]. erewrite bind_return by by apply send_flag_inited.
    rewrite <- flags_value_cons by done.
    unfold known_flag in Hflag.
    destruct (String.eqb flag "embedded_data").
    + apply IH. intros f Hf. apply Hk. by right.
    + destruct (String.eqb flag "large_blocks"); [|done].
      apply IH. intros f Hf. apply Hk. by right.
Qed.

Lemma lzc_send_known snapname fromsnap fd flags (w : world σ) :
  (∀ f, f ∈ flags → known_flag f = true) →
  lzc_send lib tables snapname fromsnap fd (Some flags) w
  = send_with lib tables snapname fromsnap fd (flags_value lib flags) w.
Proof.
  intros Hk. unfold lzc_send, send_with. cbn [from_option id].
  destruct flags as [|flag flags]; [done|].
  assert (known_flag flag = true) as Hflag by (apply Hk; left).
  destruct (getattr lib w) as [[[]|e] w1] eqn:Hg.
  - pose proof (getattr_returns _ _ Hg) as Hi.
    assert (send_flags lib (flag :: flags) 0 w
            = (Return (flags_value lib (flag :: flags)), w1)) as Hrun.
    { cbn [send_flags].
      assert (send_flag lib flag w = send_flag lib flag w1) as Hsf.
      { unfold send_flag, bind. rewrite Hg.
        by rewrite !(getattr_inited lib w1 Hi). }
      rewrite (send_flag_inited lib flag w1 Hi) in Hsf.
      erewrite bind_return by exact Hsf.
      rewrite <- (Z.lor_0_l (flags_value lib (flag :: flags))).
      rewrite <- flags_value_cons by done.
      unfold known_flag in Hflag.
      destruct (String.eqb flag "embedded_data").
      + apply send_flags_known_inited; [done|].
        intros f Hf. apply Hk. by right.
      + destruct (String.eqb flag "large_blocks"); [|done].
        apply send_flags_known_inited; [done|].
        intros f Hf. apply Hk. by right. }
    erewrite bind_return by exact Hrun.
    erewrite (bind_return (getattr lib) _ w) by exact Hg.
    by erewrite bind_return by by apply getattr_inited.
  - erewrite (bind_raise (getattr lib) _ w) by exact Hg.
    erewrite bind_raise; [done|]. cbn [send_flags]. unfold send_flag.
    erewrite bind_raise; [done|]. by erewrite bind_raise by exact Hg.
Qed.

Lemma flags_value_same flags flags' :
  (∀ f, f ∈ flags ↔ f ∈ flags') →
  flags_value lib flags = flags_value lib flags'.
Proof.
  intros Hsame. unfold flags_value.
  assert (∀ x, existsb (String.eqb x) flags = existsb (String.eqb x) flags')
    as Hex.
  { intros x. apply eq_true_iff_eq.
    by rewrite !existsb_eqb_elem_of. }
  by rewrite !Hex.
Qed.

End SendFacts.

(** ** The log of calls *)

Section TraceFacts.
Context {σ : Type} (lib : Lib σ) (tables : kind_tables)
  (xlate : translator) (py : interp).

Lemma call_free_ret {A} (a : A) : call_free (σ:=σ) (ret a).
Proof. by intros w. Qed.

Lemma call_free_new_dict : call_free (σ:=σ) new_dict.
Proof. by intros w. Qed.

Lemma call_free_read_dict d : call_free (σ:=σ) (read_dict d).
Proof. by intros w. Qed.

Lemma call_free_lift {A} (o : outcome A) : call_free (σ:=σ) (lift o).
Proof. by intros w. Qed.

Lemma call_free_nvlist_in d : call_free (σ:=σ) (nvlist_in py d).
Proof. intros w. unfold nvlist_in. by destruct (Encode _). Qed.

Lemma call_free_xlate_errors table S E :
  call_free (σ:=σ) (xlate_errors table S E).
Proof. intros w. unfold xlate_errors. by destruct (classify _ _ _). Qed.

Lemma call_free_translate fault : call_free (σ:=σ) (translate fault).
Proof. intros w. by destruct fault. Qed.

Lemma call_free_assert_all_enoent E :
  call_free (σ:=σ) (assert_all_enoent py E).
Proof.
  intros w. unfold assert_all_enoent. destruct (debug py); [|done].
  by destruct (forallb _ _).
Qed.

Lemma call_free_bind {A B} (m : M (σ:=σ) A) (k : A → M B) :
  call_free m → (∀ a, call_free (k a)) → call_free (bind m k).
Proof.
  intros Hm Hk w. unfold bind. specialize (Hm w).
  destruct (m w) as [[a|e] w1]; cbn [snd] in *; [|done].
  destruct (Hk a w1) as (-> & -> & ->). done.
Qed.

Lemma prelude_new_dict : prelude (σ:=σ) new_dict.
Proof. split; [apply call_free_new_dict|]. intros w e. discriminate. Qed.

Lemma prelude_nvlist_in d : prelude (σ:=σ) (nvlist_in py d).
Proof.
  split; [apply call_free_nvlist_in|]. intros w e. unfold nvlist_in, Encode.
  destruct (encodable _); [discriminate|]. by intros [= <-].
Qed.

Lemma prelude_release_holds_dict holds acc :
  prelude (σ:=σ) (lift (release_holds_dict holds acc)).
Proof.
  split; [apply call_free_lift|]. intros w e. unfold lift. cbn [fst].
  revert acc. induction holds as [|[snap h] holds IH]; intros acc;
    cbn [release_holds_dict]; [discriminate|].
  destruct h; try (by intros [= <-]). apply IH.
Qed.

(** The argument handling goes first. *)
Lemma one_call_prelude {A B} name (m : M (σ:=σ) A) (k : A → M B) :
  prelude m → (∀ a, one_call lib name (k a)) → one_call lib name (bind m k).
Proof.
  intros [Hfree Hearly] Hk w. unfold bind.
  specialize (Hfree w). specialize (Hearly w).
  destruct (m w) as [[a|e] w1]; cbn [fst snd] in *.
  - destruct Hfree as (Hc & He & Hi).
    assert (init_result lib w1 = init_result lib w) as Hinit.
    { unfold init_result. by rewrite He, Hi. }
    specialize (Hk a w1).
    unfold untouched, init_failed, called in *.
    rewrite Hc, He, Hi, Hinit in Hk. exact Hk.
  - left. split_and!; try apply Hfree. exists e. split; [done|]. by apply Hearly.
Qed.

(** What follows the boundary call calls nothing. *)
Lemma one_call_then {A B} name (m : M (σ:=σ) A) (k : A → M B) :
  at_boundary lib name m → (∀ a, call_free (k a)) →
  one_call lib name (bind m k).
Proof.
  intros Hm Hk w. specialize (Hm w). unfold bind. right.
  destruct (m w) as [[a|e] w1]; cbn [fst snd] in *.
  - destruct (Hk a w1) as (Hc & He & Hi).
    destruct Hm as [(r & e1 & _ & _ & ? & _)|(e1 & ? & ? & ?)]; [done|].
    right. exists e1. by rewrite Hc, Hi.
  - destruct Hm as [(r & e1 & ? & ? & [= ->] & ?)|Hm]; [left|by right].
    by exists r, e1.
Qed.

(** The scope of a wrapper: [_lib] is touched, then the entry point is
    called. *)
Lemma at_boundary_scope sink name (f : σ → Z * buffer * σ) :
  at_boundary lib name
    (nvlist_out sink (λ h, bind (getattr lib) (λ _, call_out name h f))).
Proof.
  intros w. unfold nvlist_out, bind, getattr, call_out, init_failed, called,
    init_result.
  destruct w as [e i nat nh ds nd cs];
    cbn [inited engine native next_handle dicts next_dict calls].
  destruct i; cbn [inited engine native next_handle dicts next_dict calls].
  - right. destruct (f e) as [[r out] e2]. exists e.
    destruct (Decode _); cbn [fst snd calls inited]; by rewrite ?app_nil_l.
  - destruct (libzfs_core_init lib e) as [r0 e1].
    destruct (Z.eqb_spec r0 0) as [->|Hr];
      cbn [inited engine native next_handle dicts next_dict calls].
    + right. destruct (f e1) as [[r out] e2]. exists e1.
      destruct (Decode _); cbn [fst snd calls inited];
        by rewrite <- ?app_assoc.
    + left. exists r0, e1. rewrite lookup_insert_eq. cbn [from_option id].
      assert (Decode (payload (VList [])) = Ok []) as -> by reflexivity.
      done.
Qed.


Ltac call_free_steps :=
  repeat (apply call_free_bind; [|intros ?]);
  first [apply call_free_read_dict | apply call_free_xlate_errors
        | apply call_free_translate
        | apply call_free_assert_all_enoent | apply call_free_ret].

Ltac one_call_steps :=
  repeat (apply one_call_prelude;
          [first [apply prelude_new_dict | apply prelude_nvlist_in
                 | apply prelude_release_holds_dict]
          |intros ?]);
  apply one_call_then; [apply at_boundary_scope|intros ?; call_free_steps].

Lemma one_call_lzc_snapshot snaps props :
  one_call lib "lzc_snapshot" (lzc_snapshot lib xlate py snaps props).
Proof. unfold lzc_snapshot. one_call_steps. Qed.

Lemma one_call_lzc_destroy_snaps snaps defer :
  one_call lib "lzc_destroy_snaps" (lzc_destroy_snaps lib xlate py snaps defer).
Proof. unfold lzc_destroy_snaps. one_call_steps. Qed.

Lemma one_call_lzc_bookmark bookmarks :
  one_call lib "lzc_bookmark" (lzc_bookmark lib xlate py bookmarks).
Proof. unfold lzc_bookmark. one_call_steps. Qed.

Lemma one_call_lzc_hold holds fd :
  one_call lib "lzc_hold" (lzc_hold lib xlate py holds fd).
Proof. unfold lzc_hold. one_call_steps. Qed.

Lemma one_call_lzc_release holds :
  one_call lib "lzc_release" (lzc_release lib xlate py holds).
Proof. unfold lzc_release. one_call_steps. Qed.

(** *** Once initialized *)

Lemma init_free_bind {A B} (m : M (σ:=σ) A) (k : A → M B) :
  init_free m → (∀ a, init_free (k a)) → init_free (bind m k).
Proof.
  intros Hm Hk w Hi. unfold bind. destruct (Hm w Hi) as (Hi1 & l1 & Hc1 & Hn1).
  destruct (m w) as [[a|e] w1]; cbn [snd] in *; [|by eauto].
  destruct (Hk a w1 Hi1) as (Hi2 & l2 & Hc2 & Hn2). split; [done|].
  exists (l1 ++ l2)%list. rewrite Hc2, Hc1, app_assoc. split; [done|].
  rewrite elem_of_app. tauto.
Qed.

Lemma init_free_call_free {A} (m : M (σ:=σ) A) : call_free m → init_free m.
Proof.
  intros Hm w Hi. destruct (Hm w) as (Hc & _ & Hi'). split; [congruence|].
  exists []. rewrite app_nil_r. split; [done|]. apply not_elem_of_nil.
Qed.

Lemma call_free_raise {A} e : call_free (σ:=σ) (raise (A:=A) e).
Proof. by intros w. Qed.

Lemma init_free_getattr : init_free (getattr lib).
Proof.
  intros w Hi. rewrite getattr_inited by done. split; [done|].
  exists []. rewrite app_nil_r. split; [done|]. apply not_elem_of_nil.
Qed.

Lemma init_free_call_out name h (f : σ → Z * buffer * σ) :
  name ≠ "libzfs_core_init" → init_free (call_out name h f).
Proof.
  intros Hne w Hi. unfold call_out. destruct (f (engine w)) as [[r out] e'].
  split; [done|]. exists [name]. split; [done|].
  intros Hin%list_elem_of_singleton. congruence.
Qed.

Lemma init_free_call name (f : σ → Z * σ) :
  name ≠ "libzfs_core_init" → init_free (call name f).
Proof.
  intros Hne w Hi. unfold call. destruct (f (engine w)) as [r e'].
  split; [done|]. exists [name]. split; [done|].
  intros Hin%list_elem_of_singleton. congruence.
Qed.

Lemma init_free_nvlist_out {A} sink (body : nat → M (σ:=σ) A) :
  (∀ h, init_free (body h)) → init_free (nvlist_out sink body).
Proof.
  intros Hb w Hi. unfold nvlist_out.
  specialize (Hb (next_handle w)
                 (World (engine w) (inited w)
                        (<[next_handle w := payload (VList [])]> (native w))
                        (S (next_handle w)) (dicts w) (next_dict w) (calls w))
                 Hi).
  destruct (body _ _) as [o w1]. cbn [snd calls] in Hb.
  by destruct (Decode _).
Qed.

Lemma init_free_send_flags flags : ∀ c, init_free (send_flags lib flags c).
Proof.
  induction flags as [|flag flags IH]; intros c; cbn [send_flags].
  - by apply init_free_call_free, call_free_ret.
  - apply init_free_bind.
    + unfold send_flag.
      repeat (apply init_free_bind; [apply init_free_getattr|intros ?]).
      by apply init_free_call_free, call_free_ret.
    + intros [c'|]; [apply IH|]. by apply init_free_call_free, call_free_raise.
Qed.

Ltac init_free_steps :=
  repeat (apply init_free_bind; [|intros ?]);
  first [ apply init_free_getattr
        | apply init_free_send_flags
        | by apply init_free_call
        | apply init_free_nvlist_out; intros ?;
          apply init_free_bind; [apply init_free_getattr|intros ?];
          by apply init_free_call_out
        | apply init_free_call_free;
          first [apply call_free_new_dict | apply call_free_nvlist_in
                | apply call_free_read_dict | apply call_free_xlate_errors
                | apply call_free_translate
                | apply call_free_assert_all_enoent | apply call_free_ret
                | apply call_free_lift] ].

Lemma init_free_lzc_snapshot snaps props :
  init_free (lzc_snapshot lib xlate py snaps props).
Proof. unfold lzc_snapshot. init_free_steps. Qed.

Lemma init_free_lzc_destroy_snaps snaps defer :
  init_free (lzc_destroy_snaps lib xlate py snaps defer).
Proof. unfold lzc_destroy_snaps. init_free_steps. Qed.

Lemma init_free_lzc_bookmark bookmarks :
  init_free (lzc_bookmark lib xlate py bookmarks).
Proof. unfold lzc_bookmark. init_free_steps. Qed.

Lemma init_free_lzc_hold holds fd : init_free (lzc_hold lib xlate py holds fd).
Proof. unfold lzc_hold. init_free_steps. Qed.

Lemma init_free_lzc_release holds : init_free (lzc_release lib xlate py holds).
Proof. unfold lzc_release. init_free_steps. Qed.

Lemma init_free_lzc_send snapname fromsnap fd flags :
  init_free (lzc_send lib tables snapname fromsnap fd flags).
Proof. unfold lzc_send. init_free_steps. Qed.

End TraceFacts.

(** ** The names a wrapper returns *)

Section ScopeFacts.
Context {σ : Type} (lib : Lib σ) (xlate : translator) (py : interp).

Lemma nvlist_out_returns {A} sink (body : nat → M (σ:=σ) A) w r w' :
  nvlist_out sink body w = (Return r, w') →
  ∃ es, dicts w' !! sink = Some (dict_of_entries es).
Proof.
  unfold nvlist_out. destruct (body _ _) as [o w1].
  destruct (Decode _) as [es|e]; [|done].
  intros [= -> <-]. exists es. cbn [dicts]. apply lookup_insert_eq.
Qed.

Lemma returned_names_from_dict d (w : world σ)
    (fault : nvlist → option compound_fault) names w' :
  (∃ es, dicts w !! d = Some (dict_of_entries es)) →
  bind (read_dict d) (λ E,
    bind (translate (fault E)) (λ _,
      bind (assert_all_enoent py E) (λ _, ret (RList (dict_keys py E))))) w
  = (Return (RList names), w') →
  NoDup names.
Proof.
  intros [es Hd] Hrun.
  apply bind_returns in Hrun as (E & w1 & HE & Hrun).
  apply bind_returns in Hrun as (? & w2 & _ & Hrun).
  apply bind_returns in Hrun as (? & w3 & _ & Hrun).
  unfold read_dict in HE. rewrite Hd in HE. injection HE as <- <-.
  injection Hrun as <- _. apply NoDup_returned_keys.
Qed.

Lemma lzc_hold_names_distinct holds fd (w : world σ) names :
  (lzc_hold lib xlate py holds fd w).1 = Return (RList names) → NoDup names.
Proof.
  destruct (lzc_hold lib xlate py holds fd w) as [o w'] eqn:Hrun.
  cbn [fst]. intros ->. unfold lzc_hold in Hrun.
  apply bind_returns in Hrun as (d & w1 & Hd & Hrun).
  apply bind_returns in Hrun as (buf & w2 & _ & Hrun).
  apply bind_returns in Hrun as (r & w3 & Hscope & Hrun).
  apply nvlist_out_returns in Hscope.
  exact (returned_names_from_dict d w3
           (λ E, hold_xlate xlate r E holds (default (-1) fd))
           names w' Hscope Hrun).
Qed.

Lemma lzc_release_names_distinct holds (w : world σ) names :
  (lzc_release lib xlate py holds w).1 = Return (RList names) → NoDup names.
Proof.
  destruct (lzc_release lib xlate py holds w) as [o w'] eqn:Hrun.
  cbn [fst]. intros ->. unfold lzc_release in Hrun.
  apply bind_returns in Hrun as (d & w1 & Hd & Hrun).
  apply bind_returns in Hrun as (hd & w2 & _ & Hrun).
  apply bind_returns in Hrun as (buf & w3 & _ & Hrun).
  apply bind_returns in Hrun as (r & w4 & Hscope & Hrun).
  apply nvlist_out_returns in Hscope.
  exact (returned_names_from_dict d w4
           (λ E, release_xlate xlate r E holds) names w' Hscope Hrun).
Qed.

End ScopeFacts.

(** ** The lock of [LazyInit] *)

Section LazyInitMoreFacts.
Local Open Scope Z_scope.
Import LazyInit LazyInitMore.
Variable oracle : nat → Z.

Ltac relocate :=
  repeat match goal with
  | H : <[_ := _]> _ !! _ = Some _ |- _ =>
      apply lookup_moved in H as [[-> ?]|[? H]]
  end; simplify_eq.

Lemma first_use_inv_lock n : inv_lock (first_use n).
Proof.
  unfold inv_lock, first_use. cbn. split_and!; try done.
  - intros t p Hp. apply lookup_replicate in Hp as [-> _]. done.
  - intros t Hp. apply lookup_replicate in Hp as [? _]. done.
Qed.

Lemma step_inv_lock t s : inv_lock s → inv_lock (step oracle t s).
Proof.
  intros Hinv. unfold step.
  destruct (threads s !! t) as [p|] eqn:Hp; [|done].
  destruct s as [ts i l log]. cbn [threads inited lock init_log] in *.
  pose proof Hinv as (H1 & H2 & H3 & H4).
  cbn [threads inited lock init_log] in *.
  assert (Hsucc : ∀ ts' i' l',
            successes (State ts' i' l' log) = successes (State ts i l log))
    by done.
  assert (Hheld : ∀ p' t', holds_lock p' = holds_lock p → l = Some t' →
            ∃ q, <[t:=p']> ts !! t' = Some q ∧ holds_lock q = true).
  { intros p' t' Hsame Hl. destruct (H1 t' Hl) as (q & Hq & Hhl).
    destruct (decide (t' = t)) as [->|Hne].
    - exists p'. split; [by eapply lookup_set|]. congruence.
    - exists q. split; [by apply lookup_kept|done]. }
  destruct p.
  - (* Check1 *)
    unfold at_pc; cbn [threads inited lock init_log].
    split_and!; cbn [threads inited lock init_log]; rewrite ?Hsucc; try done.
    + intros t' Hl. apply Hheld; [by destruct i|done].
    + intros t' q Hq Hpast. relocate; [by destruct i|by eapply H2].
    + intros t' Hq. relocate; [by destruct i|by eapply H4].
  - (* Acquire *)
    destruct l as [holder|]; [done|].
    split_and!; cbn [threads inited lock init_log]; rewrite ?Hsucc; try done.
    + intros t' [= <-]. exists Check2. split; [by eapply lookup_set|done].
    + intros t' q Hq Hpast. relocate. by eapply H2.
    + intros t' Hq. relocate. by eapply H4.
  - (* Check2 *)
    unfold at_pc; cbn [threads inited lock init_log].
    split_and!; cbn [threads inited lock init_log]; rewrite ?Hsucc; try done.
    + intros t' Hl. apply Hheld; [by destruct i|done].
    + intros t' q Hq Hpast. relocate; [by destruct i|by eapply H2].
    + intros t' Hq. relocate; [by destruct i|by eapply H4].
  - (* Init *)
    split_and!; cbn [threads inited lock init_log];
      rewrite ?successes_snoc, ?Hsucc.
    + intros t' Hl. apply Hheld; [by destruct (_ =? _)|done].
    + intros t' q Hq Hpast. relocate; [by destruct (_ =? _)|by eapply H2].
    + intros Hi. specialize (H3 Hi). lia.
    + intros t' Hq. apply lookup_moved in Hq as [[-> Hq]|[? Hq]].
      * destruct (_ =? _); [simpl; lia|done].
      * specialize (H4 _ Hq). lia.
  - (* SetFlag *)
    split_and!; cbn [threads inited lock init_log]; rewrite ?Hsucc; try done.
    + intros t' Hl. by apply Hheld.
    + intros _. by eapply H4.
    + intros t' Hq. relocate. by eapply H4.
  - (* ReleaseOk *)
    split_and!; cbn [threads inited lock init_log]; rewrite ?Hsucc; try done.
    + intros t' q Hq Hpast. relocate; by eapply H2.
    + intros t' Hq. relocate. by eapply H4.
  - (* ReleaseErr *)
    split_and!; cbn [threads inited lock init_log]; rewrite ?Hsucc; try done.
    + intros t' q Hq Hpast. relocate. by eapply H2.
    + intros t' Hq. relocate. by eapply H4.
  - done.
  - done.
Qed.

Lemma run_inv_lock schedule : ∀ s, inv_lock s → inv_lock (run oracle schedule s).
Proof.
  induction schedule as [|t schedule IH]; intros s Hs; [done|].
  cbn [run fold_left]. apply IH. by apply step_inv_lock.
Qed.

End LazyInitMoreFacts.

(** ** [lzc_create] and the uncommitted functions *)

Section RestFacts.
Context {σ : Type} (lib : Lib σ) (more : LibRest σ) (os : os_model).

Lemma andthen_returns {A B} (m : N (σ:=σ) A) (k : A → N B) w a w' :
  m w = (Returns a, w') → andthen m k w = k a w'.
Proof. unfold andthen. by intros ->. Qed.

Lemma andthen_raises {A B} (m : N (σ:=σ) A) (k : A → N B) w e w' :
  m w = (Raises e, w') → andthen m k w = (Raises e, w').
Proof. unfold andthen. by intros ->. Qed.

Lemma of_M_getattr_inited (w : rworld σ) :
  inited (base w) = true → of_M (getattr lib) w = (Returns tt, w).
Proof.
  intros Hi. unfold of_M. rewrite getattr_inited by done. by destruct w.
Qed.

Lemma of_M_getattr_ready (w : rworld σ) e1 :
  init_result lib (base w) = (0, e1) →
  ∃ w', of_M (getattr lib) w = (Returns tt, w')
        ∧ inited (base w') = true ∧ engine (base w') = e1
        ∧ calls (base w')
          = (calls (base w)
             ++ if inited (base w) then [] else ["libzfs_core_init"])%list
        ∧ os_log w' = os_log w.
Proof.
  intros Hinit.
  destruct (getattr_ready lib (base w) e1 Hinit) as (b & Hg & ? & ? & ?).
  unfold of_M. rewrite Hg. eexists. split; [reflexivity|]. done.
Qed.

Lemma of_M_getattr_failed (w : rworld σ) r e1 :
  init_result lib (base w) = (r, e1) → r ≠ 0 →
  ∃ w', of_M (getattr lib) w
        = (Raises (Lzc (ZFSInitializationFailed r)), w')
        ∧ inited (base w') = false ∧ engine (base w') = e1
        ∧ calls (base w') = (calls (base w) ++ ["libzfs_core_init"])%list
        ∧ os_log w' = os_log w.
Proof.
  intros Hinit Hr.
  destruct (getattr_failed lib (base w) r e1 Hinit Hr) as (b & Hg & ? & ? & ?).
  unfold of_M. rewrite Hg. eexists. split; [reflexivity|]. done.
Qed.

(** The lookup of an attribute of the library, by the answer of the
    initialization. *)
Lemma lib_getattr_ready fname (w : rworld σ) e1 :
  init_result lib (base w) = (0, e1) →
  ∃ w', lib_getattr_is_not_none lib more fname w
        = (Returns (lib_has more fname), w')
        ∧ inited (base w') = true ∧ engine (base w') = e1
        ∧ calls (base w')
          = (calls (base w)
             ++ if inited (base w) then [] else ["libzfs_core_init"])%list
        ∧ os_log w' = os_log w.
Proof.
  intros Hinit.
  destruct (of_M_getattr_ready w e1 Hinit) as (w' & Hg & Hrest).
  exists w'. split; [|done]. unfold lib_getattr_is_not_none.
  by erewrite andthen_returns by exact Hg.
Qed.

(** The same where the library is ready, with the dicts of the process
    left as they are. *)
Lemma lib_getattr_ready_store fname (w : rworld σ) e1 :
  init_result lib (base w) = (0, e1) →
  ∃ w', lib_getattr_is_not_none lib more fname w
        = (Returns (lib_has more fname), w')
        ∧ inited (base w') = true ∧ engine (base w') = e1
        ∧ calls (base w')
          = (calls (base w)
             ++ if inited (base w) then [] else ["libzfs_core_init"])%list
        ∧ os_log w' = os_log w
        ∧ dicts (base w') = dicts (base w).
Proof.
  intros Hinit. unfold lib_getattr_is_not_none, andthen, of_M, getattr, unit_.
  unfold init_result in Hinit. destruct w as [b log]. cbn [base os_log] in *.
  destruct (inited b) eqn:Hi.
  - injection Hinit as <-. eexists. split; [reflexivity|].
    cbn [base os_log]. by rewrite Hi, app_nil_r.
  - rewrite Hinit. cbn [Z.eqb]. eexists. split; [reflexivity|]. done.
Qed.

Lemma is_supported_def fname (w : rworld σ) :
  api_name fname = true →
  is_supported lib more (def fname) w
  = lib_getattr_is_not_none lib more fname w.
Proof.
  unfold api_name. intros [Hg Hp]%andb_true_iff.
  cbn [def is_supported]. by rewrite Hg, Hp.
Qed.

End RestFacts.

Section CreateFacts.
Context {σ : Type} (lib : Lib σ) (more : LibRest σ) (py : interp).

Lemma lzc_create_known name ds_type props (w : rworld σ) :
  ds_type = "zfs" ∨ ds_type = "zvol" →
  lzc_create lib more py name ds_type props w
  = andthen (of_M (getattr lib)) (λ _,
      andthen (of_M (nvlist_in py (default [] props))) (λ nvlist,
        andthen (of_M (getattr lib)) (λ _,
          andthen (of_M (call "lzc_create"
                     (c_lzc_create more name
                        (if String.eqb ds_type "zfs" then DMU_OST_ZFS more
                         else DMU_OST_ZVOL more) nvlist)))
            (λ r, of_M (xlate_errors (create_kinds more) r []))))) w.
Proof.
  intros [-> | ->]; unfold lzc_create;
    cbn [String.eqb Ascii.eqb Bool.eqb andb];
    unfold andthen, unit_; by destruct (of_M (getattr lib) w) as [[[]|e] w1].
Qed.

Lemma of_M_nvlist_in d (w : rworld σ) :
  of_M (nvlist_in py d) w
  = (match Encode (iterated py d) with
     | Ok buf => Returns buf
     | Err e => Raises (Lzc (CodecFault e))
     end, w).
Proof. unfold of_M, nvlist_in. destruct w. by destruct (Encode _). Qed.

Lemma of_M_xlate_errors table r (w : rworld σ) :
  of_M (xlate_errors table r []) w
  = (match classify table r [] with
     | None => Returns tt
     | Some f => Raises (Lzc (ZFSFault f))
     end, w).
Proof. unfold of_M, xlate_errors. destruct w. by destruct (classify _ _ _). Qed.

Lemma of_M_call name (f : σ → Z * σ) (w : rworld σ) r e2 :
  f (engine (base w)) = (r, e2) →
  ∃ w', of_M (call name f) w = (Returns r, w')
        ∧ engine (base w') = e2 ∧ inited (base w') = inited (base w)
        ∧ calls (base w') = (calls (base w) ++ [name])%list
        ∧ os_log w' = os_log w.
Proof.
  intros Hf. unfold of_M, call. rewrite Hf. eexists. split; [reflexivity|].
  done.
Qed.

End CreateFacts.

Section SupportFacts.
Context {σ : Type} (lib : Lib σ) (more : LibRest σ).

Lemma pyfunc_chain_ind (P : pyfunc → Prop) :
  (∀ name c, P (Func name c None)) →
  (∀ name c check, P check → P (Func name c (Some check))) →
  ∀ f, P f.
Proof.
  intros Hnone Hsome. fix IH 1.
  intros [name c [check|]]; [apply Hsome, IH|apply Hnone].
Qed.

Lemma is_supported_api f (w : rworld σ) :
  api_function f = true →
  is_supported lib more f w
  = lib_getattr_is_not_none lib more (func_name (last_check f)) w.
Proof.
  induction f as [name c|name c check IH] using pyfunc_chain_ind;
    destruct name as [fname|]; cbn [api_function is_supported last_check];
    try discriminate; unfold api_name;
    intros Hok; repeat (apply andb_true_iff in Hok as [Hok ?]);
    subst; rewrite Hok; cbn [negb].
  - by match goal with H : String.prefix _ _ = true |- _ => rewrite H end.
  - match goal with H : String.prefix _ _ = true |- _ => rewrite H end.
    by apply IH.
Qed.

Lemma is_supported_not_api f (w : rworld σ) :
  api_function f = false →
  ∃ msg, is_supported lib more f w = (Raises (ValueError msg), w).
Proof.
  induction f as [name c|name c check IH] using pyfunc_chain_ind;
    destruct name as [fname|]; cbn [api_function is_supported];
    try (by eexists); unfold api_name.
  - destruct (in_globals fname); [|by eexists]. destruct c; [|by eexists].
    destruct (String.prefix "lzc_" fname); [done|by eexists].
  - destruct (in_globals fname); [|by eexists]. destruct c; [|by eexists].
    destruct (String.prefix "lzc_" fname); [|by eexists].
    cbn [andb negb]. apply IH.
Qed.

Lemma api_function_uncommitted check fname :
  api_name fname = true →
  api_function (uncommitted check (def fname))
  = match check with Some c => api_function c | None => true end.
Proof.
  intros Hn. unfold def, uncommitted. cbn [api_function]. rewrite Hn.
  by destruct check.
Qed.

Lemma uncommitted_call_unsupported {A} fname (body : N (σ:=σ) A)
    (w : rworld σ) e1 :
  api_name fname = true →
  init_result lib (base w) = (0, e1) →
  lib_has more fname = false →
  ∃ w', uncommitted_call lib more (def fname) body w
        = (Raises (NotImplementedError fname), w')
        ∧ inited (base w') = true ∧ engine (base w') = e1
        ∧ calls (base w')
          = (calls (base w)
             ++ if inited (base w) then [] else ["libzfs_core_init"])%list
        ∧ os_log w' = os_log w.
Proof.
  intros Hn Hinit Hhas.
  destruct (lib_getattr_ready lib more fname w e1 Hinit) as (w' & Hg & Hrest).
  exists w'. split; [|done]. unfold uncommitted_call.
  erewrite andthen_returns by (rewrite is_supported_def by done; exact Hg).
  by rewrite Hhas.
Qed.

Lemma uncommitted_call_supported {A} fname (body : N (σ:=σ) A)
    (w : rworld σ) e1 :
  api_name fname = true →
  init_result lib (base w) = (0, e1) →
  lib_has more fname = true →
  ∃ w', uncommitted_call lib more (def fname) body w = body w'
        ∧ inited (base w') = true ∧ engine (base w') = e1
        ∧ calls (base w')
          = (calls (base w)
             ++ if inited (base w) then [] else ["libzfs_core_init"])%list
        ∧ os_log w' = os_log w.
Proof.
  intros Hn Hinit Hhas.
  destruct (lib_getattr_ready lib more fname w e1 Hinit) as (w' & Hg & Hrest).
  exists w'. split; [|done]. unfold uncommitted_call.
  erewrite andthen_returns by (rewrite is_supported_def by done; exact Hg).
  by rewrite Hhas.
Qed.

Lemma uncommitted_call_supported_store {A} fname (body : N (σ:=σ) A)
    (w : rworld σ) e1 :
  api_name fname = true →
  init_result lib (base w) = (0, e1) →
  lib_has more fname = true →
  ∃ w', uncommitted_call lib more (def fname) body w = body w'
        ∧ inited (base w') = true ∧ engine (base w') = e1
        ∧ calls (base w')
          = (calls (base w)
             ++ if inited (base w) then [] else ["libzfs_core_init"])%list
        ∧ os_log w' = os_log w
        ∧ dicts (base w') = dicts (base w).
Proof.
  intros Hn Hinit Hhas.
  destruct (lib_getattr_ready_store lib more fname w e1 Hinit)
    as (w' & Hg & Hrest).
  exists w'. split; [|done]. unfold uncommitted_call.
  erewrite andthen_returns by (rewrite is_supported_def by done; exact Hg).
  by rewrite Hhas.
Qed.

Lemma uncommitted_call_init_failed {A} fname (body : N (σ:=σ) A)
    (w : rworld σ) r e1 :
  api_name fname = true →
  init_result lib (base w) = (r, e1) → r ≠ 0 →
  ∃ w', uncommitted_call lib more (def fname) body w
        = (Raises (Lzc (ZFSInitializationFailed r)), w')
        ∧ inited (base w') = false ∧ engine (base w') = e1
        ∧ calls (base w') = (calls (base w) ++ ["libzfs_core_init"])%list
        ∧ os_log w' = os_log w.
Proof.
  intros Hn Hinit Hr.
  destruct (of_M_getattr_failed lib w r e1 Hinit Hr) as (w' & Hg & Hrest).
  exists w'. split; [|done]. unfold uncommitted_call.
  erewrite andthen_raises; [done|]. rewrite is_supported_def by done.
  unfold lib_getattr_is_not_none. by erewrite andthen_raises by exact Hg.
Qed.

End SupportFacts.

Section ListFacts.
Context {σ : Type} (lib : Lib σ) (more : LibRest σ) (os : os_model)
  (py : interp).

(** The body of [lzc_list] where the library is ready: the pipe is made
    and marked, the write end is put into the dict of the caller, and
    nothing that follows touches the descriptors. *)
Lemma lzc_list_body (name : string) (options : nat) (opts : nvlist)
    (w : rworld σ) rfd wfd :
  inited (base w) = true →
  os (os_log w) = Some (rfd, wfd) →
  dicts (base w) !! options = Some opts →
  let opened := [Pipe rfd wfd; SetCloexec rfd; SetCloexec wfd] in
  let passed := dict_set opts "fd" (VInt I32 wfd) in
  let body :=
    andthen (os_pipe os) (λ fds,
      andthen (fcntl_cloexec fds.1) (λ _,
        andthen (fcntl_cloexec fds.2) (λ _,
          andthen (dict_store options "fd" (VInt I32 fds.2)) (λ _,
            andthen (of_M (read_dict options)) (λ opts,
              andthen (of_M (nvlist_in py opts)) (λ opts_nv,
                andthen (of_M (getattr lib)) (λ _,
                  andthen (of_M (call "lzc_list"
                             (c_lzc_list more name opts_nv))) (λ r,
                    andthen (of_M (xlate_errors (list_kinds more) r []))
                      (λ _, unit_ (fds.1, fds.2)))))))))) in
  os_log (body w).2 = (os_log w ++ opened)%list
  ∧ dicts (base (body w).2) = <[options := passed]> (dicts (base w))
  ∧ match Encode (iterated py passed) with
    | Err e =>
        (body w).1 = Raises (Lzc (CodecFault e))
        ∧ calls (base (body w).2) = calls (base w)
    | Ok buf =>
        let reply := c_lzc_list more name buf (engine (base w)) in
        (body w).1
        = match classify (list_kinds more) reply.1 [] with
          | None => Returns (rfd, wfd)
          | Some f => Raises (Lzc (ZFSFault f))
          end
        ∧ calls (base (body w).2) = (calls (base w) ++ ["lzc_list"])%list
        ∧ engine (base (body w).2) = reply.2
    end.
Proof.
  intros Hi Hos Hopts opened passed body.
  destruct (body w) as [o w'] eqn:Hrun. subst body opened passed.
  destruct w as [b log]. cbn [base os_log fst snd] in *.
  unfold andthen at 1 in Hrun. unfold os_pipe in Hrun.
  cbn [os_log base] in Hrun. rewrite Hos in Hrun. cbn [fst snd] in Hrun.
  unfold andthen at 1 in Hrun. unfold fcntl_cloexec at 1 in Hrun.
  cbn [os_log base] in Hrun.
  unfold andthen at 1 in Hrun. unfold fcntl_cloexec at 1 in Hrun.
  cbn [os_log base] in Hrun.
  unfold andthen at 1 in Hrun. unfold dict_store in Hrun.
  cbn [os_log base] in Hrun. rewrite Hopts in Hrun.
  cbn [from_option id] in Hrun.
  unfold andthen at 1 in Hrun. unfold of_M at 1 in Hrun.
  unfold read_dict in Hrun. cbn [base os_log dicts] in Hrun.
  rewrite lookup_insert_eq in Hrun. cbn [from_option id] in Hrun.
  unfold andthen at 1 in Hrun. rewrite of_M_nvlist_in in Hrun.
  rewrite <- !app_assoc in Hrun. cbn [app] in Hrun.
  destruct (Encode _) as [buf|e]; [|by injection Hrun as <- <-].
  erewrite andthen_returns in Hrun by by apply of_M_getattr_inited.
  unfold andthen at 1 in Hrun. unfold of_M at 1 in Hrun. unfold call in Hrun.
  cbn [base os_log engine] in Hrun.
  destruct (c_lzc_list more name buf (engine b)) as [r e2]. cbn [fst snd].
  unfold andthen in Hrun. rewrite of_M_xlate_errors in Hrun.
  destruct (classify _ _ _); by injection Hrun as <- <-.
Qed.

End ListFacts.

(** ** The properties of a dataset *)

Section PropsFacts.

Lemma string_from_app (a b : string) :
  string_from (String.length a) (a ++ b) = b.
Proof. induction a as [|c a IH]; [done|]. exact IH. Qed.

Lemma string_from_short (n : nat) (s : string) :
  (String.length s ≤ n)%nat → string_from n s = "".
Proof.
  revert n. induction s as [|c s IH]; intros [|n] Hn; cbn in *;
    try done; try lia. apply IH. lia.
Qed.

Lemma string_app_empty (s : string) : s ++ "" = s.
Proof.
  induction s as [|c s IH]; [done|].
  change (String c (s ++ "") = String c s). by rewrite IH.
Qed.

Lemma dict_get_set (d : nvlist) k v k' :
  dict_get (dict_set d k v) k'
  = if String.eqb k k' then Some v else dict_get d k'.
Proof.
  induction d as [|[k0 v0] d IH]; cbn [dict_set dict_get].
  - done.
  - destruct (String.eqb_spec k0 k) as [->|Hne]; cbn [dict_get].
    + by destruct (String.eqb k k').
    + rewrite IH. destruct (String.eqb_spec k0 k') as [->|_]; [|done].
      destruct (String.eqb_spec k k') as [->|_]; done.
Qed.

Lemma dict_get_values (properties : list (string * prop)) k :
  dict_get (map (λ kv, (kv.1, value_of kv.2)) properties) k
  = value_of <$> dict_get properties k.
Proof.
  induction properties as [|[k0 p] ps IH]; [done|]. cbn [map dict_get fst snd].
  by destruct (String.eqb k0 k).
Qed.

Lemma keys_values (properties : list (string * prop)) :
  map fst (map (λ kv, (kv.1, value_of kv.2)) properties)
  = map fst properties.
Proof. by rewrite map_map. Qed.

End PropsFacts.

(** * Further properties *)

(** X1 (the flag bits of [lzc_send]).  When every element of [flags] is
    "embedded_data" or "large_blocks", the loop of [lzc_send] raises
    nothing of its own and the whole call is: one access to [_lib], one
    call of the entry point [lzc_send] with [c_flags] the bitwise or of
    the constants of the flags that occur in the list, and the translation
    of the status.  The accesses to [_lib] inside the loop add nothing to
    the first one. *)
Theorem send_passes_flag_bits {σ} (lib : Lib σ) (tables : kind_tables)
    (snapname : string) (fromsnap : option string) (fd : Z)
    (flags : list string) (w : world σ) :
  (∀ f, f ∈ flags → known_flag f = true) →
  lzc_send lib tables snapname fromsnap fd (Some flags) w
  = send_with lib tables snapname fromsnap fd (flags_value lib flags) w.
Proof. apply lzc_send_known. Qed.

Lemma send_passes_flag_bits_witness :
  (∀ f, f ∈ ["large_blocks"; "embedded_data"; "large_blocks"] →
        known_flag f = true)
  ∧ flags_value scripted ["large_blocks"; "embedded_data"; "large_blocks"] = 3
  ∧ lzc_send scripted errno_tables "p@s1" None 3
      (Some ["large_blocks"; "embedded_data"; "large_blocks"])
      (boot quiet_script)
    = send_with scripted errno_tables "p@s1" None 3 3 (boot quiet_script).
Proof.
  assert (∀ f, f ∈ ["large_blocks"; "embedded_data"; "large_blocks"] →
               known_flag f = true) as Hk.
  { intros f Hf. repeat (apply elem_of_cons in Hf as [->|Hf]; [reflexivity|]).
    by apply elem_of_nil in Hf. }
  split; [exact Hk|]. split; [reflexivity|].
  exact (send_passes_flag_bits scripted errno_tables "p@s1" None 3
           ["large_blocks"; "embedded_data"; "large_blocks"]
           (boot quiet_script) Hk).
Defined.

(** X2 (order and repetition of flags).  Two lists of known flags with
    the same elements make [lzc_send] the same computation, with the same
    outcome and the same final world: the order of the flags and their
    repetition do not matter. *)
Theorem send_flags_as_a_set {σ} (lib : Lib σ) (tables : kind_tables)
    (snapname : string) (fromsnap : option string) (fd : Z)
    (flags flags' : list string) (w : world σ) :
  (∀ f, f ∈ flags → known_flag f = true) →
  (∀ f, f ∈ flags ↔ f ∈ flags') →
  lzc_send lib tables snapname fromsnap fd (Some flags) w
  = lzc_send lib tables snapname fromsnap fd (Some flags') w.
Proof.
  intros Hk Hsame. rewrite !lzc_send_known.
  - by rewrite (flags_value_same lib flags flags').
  - intros f Hf. apply Hk. by apply Hsame.
  - done.
Qed.

Lemma send_flags_as_a_set_witness :
  (∀ f, f ∈ ["large_blocks"; "embedded_data"; "large_blocks"] →
        known_flag f = true)
  ∧ (∀ f, f ∈ ["large_blocks"; "embedded_data"; "large_blocks"]
          ↔ f ∈ ["embedded_data"; "large_blocks"])
  ∧ lzc_send scripted errno_tables "p@s1" None 3
      (Some ["large_blocks"; "embedded_data"; "large_blocks"])
      (boot quiet_script)
    = lzc_send scripted errno_tables "p@s1" None 3
        (Some ["embedded_data"; "large_blocks"]) (boot quiet_script).
Proof.
  assert (∀ f, f ∈ ["large_blocks"; "embedded_data"; "large_blocks"] →
               known_flag f = true) as Hk.
  { intros f Hf. repeat (apply elem_of_cons in Hf as [->|Hf]; [reflexivity|]).
    by apply elem_of_nil in Hf. }
  assert (∀ f, f ∈ ["large_blocks"; "embedded_data"; "large_blocks"]
               ↔ f ∈ ["embedded_data"; "large_blocks"]) as Hsame.
  { intros f. rewrite !elem_of_cons, !elem_of_nil. tauto. }
  split; [exact Hk|]. split; [exact Hsame|].
  exact (send_flags_as_a_set scripted errno_tables "p@s1" None 3 _ _
           (boot quiet_script) Hk Hsame).
Defined.

(** X3 (one boundary call).  Each of [lzc_snapshot], [lzc_destroy_snaps],
    [lzc_bookmark], [lzc_hold] and [lzc_release], from every world and for
    every native library, goes one of three ways.  It fails on its
    arguments, with [TypeError] or an encoding fault, and then nothing has
    been called and the engine and [_inited] are as before.  Or the first
    use of [_lib] fails to initialize, the call raises
    [ZFSInitializationFailed] and only [libzfs_core_init] has been called.
    Or its own entry point is called exactly once, after
    [libzfs_core_init] if [_inited] was unset, and nothing else is
    called. *)
Theorem batch_wrappers_call_once {σ} (lib : Lib σ) (xlate : translator)
    (py : interp)
    (snaps : list string) (props : option nvlist) (defer : bool)
    (bookmarks holds : nvlist) (fd : option Z)
    (tags : list (string * hold_tags)) :
  one_call lib "lzc_snapshot" (lzc_snapshot lib xlate py snaps props)
  ∧ one_call lib "lzc_destroy_snaps"
      (lzc_destroy_snaps lib xlate py snaps defer)
  ∧ one_call lib "lzc_bookmark" (lzc_bookmark lib xlate py bookmarks)
  ∧ one_call lib "lzc_hold" (lzc_hold lib xlate py holds fd)
  ∧ one_call lib "lzc_release" (lzc_release lib xlate py tags).
Proof.
  split_and!.
  - apply one_call_lzc_snapshot.
  - apply one_call_lzc_destroy_snaps.
  - apply one_call_lzc_bookmark.
  - apply one_call_lzc_hold.
  - apply one_call_lzc_release.
Qed.

(** X4 (no second initialization).  Once [_inited] is set, a call of
    [lzc_snapshot], [lzc_destroy_snaps], [lzc_bookmark], [lzc_hold],
    [lzc_release] or [lzc_send] leaves it set and does not call
    [libzfs_core_init], whatever its arguments are and however it ends. *)
Theorem wrappers_keep_initialized {σ} (lib : Lib σ) (tables : kind_tables)
    (xlate : translator) (py : interp)
    (snaps : list string) (props : option nvlist) (defer : bool)
    (bookmarks holds : nvlist) (fd : option Z)
    (tags : list (string * hold_tags))
    (snapname : string) (fromsnap : option string) (out : Z)
    (flags : option (list string)) :
  init_free (lzc_snapshot lib xlate py snaps props)
  ∧ init_free (lzc_destroy_snaps lib xlate py snaps defer)
  ∧ init_free (lzc_bookmark lib xlate py bookmarks)
  ∧ init_free (lzc_hold lib xlate py holds fd)
  ∧ init_free (lzc_release lib xlate py tags)
  ∧ init_free (lzc_send lib tables snapname fromsnap out flags).
Proof.
  split_and!.
  - apply init_free_lzc_snapshot.
  - apply init_free_lzc_destroy_snaps.
  - apply init_free_lzc_bookmark.
  - apply init_free_lzc_hold.
  - apply init_free_lzc_release.
  - apply init_free_lzc_send.
Qed.

(** X5 (the List [lzc_release] sends).  For [holds] that maps distinct
    snapshots to lists of tags, the loop of [lzc_release] ends, in whatever
    order the interpreter iterates [holds], with a dict that has exactly
    one entry per snapshot of [holds]: no snapshot is dropped, merged or
    added.  The value of a snapshot is a nested List with exactly one flag
    per distinct tag of the snapshot: repeated tags collapse. *)
Theorem release_builds_nested_lists (py : interp)
    (holds : list (string * list string)) :
  NoDup (map fst holds) →
  ∃ holds_dict,
    release_holds_dict (items py (map (λ e, (e.1, Tags e.2)) holds)) []
    = Return holds_dict
    ∧ NoDup (map fst holds_dict)
    ∧ (∀ snap, snap ∈ map fst holds_dict ↔ snap ∈ map fst holds)
    ∧ (∀ snap tags, (snap, tags) ∈ holds →
         ∃ d, (snap, VList d) ∈ holds_dict
              ∧ NoDup (map fst d)
              ∧ (∀ tag, tag ∈ map fst d ↔ tag ∈ tags)
              ∧ ∀ tag v, (tag, v) ∈ d → v = VFlag)
    ∧ (∀ snap x, (snap, x) ∈ holds_dict →
         ∃ tags, (snap, tags) ∈ holds ∧ x = VList (dict_fromkeys tags)).
Proof.
  intros Hnd. destruct (release_loop py holds Hnd) as (hs' & Hperm & Hloop).
  eexists. split; [exact Hloop|].
  assert (∀ snap x,
            (snap, x) ∈ map (λ e, (e.1, VList (flagged (dedup e.2)))) hs'
            ↔ ∃ tags, (snap, tags) ∈ holds
                      ∧ x = VList (flagged (dedup tags))) as Hin.
  { by apply (release_request py). }
  assert (map fst (map (λ e : string * list string,
                          (e.1, VList (flagged (dedup e.2)))) hs')
          = map fst hs') as Hkeys.
  { rewrite map_map. by apply map_ext. }
  split_and!.
  - rewrite Hkeys. by rewrite Hperm.
  - intros snap. rewrite Hkeys. by rewrite Hperm.
  - intros snap tags Hst. exists (flagged (dedup tags)). split_and!.
    + apply Hin. by exists tags.
    + rewrite <- dict_fromkeys_dedup, keys_dict_fromkeys. apply dedup_NoDup.
    + intros tag. rewrite <- dict_fromkeys_dedup, keys_dict_fromkeys.
      apply elem_of_dedup.
    + intros tag v Htv. unfold flagged in Htv.
      apply list_elem_of_fmap in Htv as [t [[= _ ->] _]]. done.
  - intros snap x Hx. apply Hin in Hx as (tags & Hst & ->).
    exists tags. by rewrite dict_fromkeys_dedup.
Qed.

Lemma release_builds_nested_lists_witness :
  NoDup (map fst [("p@s1", ["a"; "b"; "a"]); ("p@s2", ["b"])])
  ∧ release_holds_dict
      (items backwards
         [("p@s1", Tags ["a"; "b"; "a"]); ("p@s2", Tags ["b"])]) []
    = Return [("p@s2", VList [("b", VFlag)]);
              ("p@s1", VList [("a", VFlag); ("b", VFlag)])]
  ∧ ∃ holds_dict,
      release_holds_dict
        (items backwards
           (map (λ e, (e.1, Tags e.2))
                [("p@s1", ["a"; "b"; "a"]); ("p@s2", ["b"])])) []
      = Return holds_dict
      ∧ NoDup (map fst holds_dict)
      ∧ (∀ snap, snap ∈ map fst holds_dict
                 ↔ snap ∈ map fst [("p@s1", ["a"; "b"; "a"]);
                                   ("p@s2", ["b"])]).
Proof.
  assert (NoDup (map fst [("p@s1", ["a"; "b"; "a"]); ("p@s2", ["b"])]))
    as Hnd by (apply (bool_decide_unpack _); reflexivity).
  split; [exact Hnd|]. split; [reflexivity|].
  destruct (release_builds_nested_lists backwards
              [("p@s1", ["a"; "b"; "a"]); ("p@s2", ["b"])] Hnd)
    as (holds_dict & Hloop & Hkeys & Hsame & _).
  by exists holds_dict.
Defined.

(** X6 (the returned names are distinct).  The list that [lzc_hold] or
    [lzc_release] returns is the list of the keys of the dict [errlist]:
    whatever the engine leaves in the output handle, no name occurs twice
    in it. *)
Theorem returned_names_distinct {σ} (lib : Lib σ) (xlate : translator)
    (py : interp)
    (holds : nvlist) (fd : option Z) (tags : list (string * hold_tags))
    (w : world σ) (names : list string) :
  (lzc_hold lib xlate py holds fd w).1 = Return (RList names)
  ∨ (lzc_release lib xlate py tags w).1 = Return (RList names) →
  NoDup names.
Proof.
  intros [H|H].
  - by eapply lzc_hold_names_distinct.
  - by eapply lzc_release_names_distinct.
Qed.

Lemma returned_names_distinct_witness :
  Decode (errmap doubled_misses) = Ok doubled_misses
  ∧ (lzc_hold scripted errno_xlate in_order
       [("p@a", VBytes "tag"); ("p@b", VBytes "tag")] None
       (boot doubled_script)).1
    = Return (RList ["p@a"; "p@b"])
  ∧ NoDup ["p@a"; "p@b"].
Proof.
  split; [reflexivity|]. split; [reflexivity|].
  apply (returned_names_distinct scripted errno_xlate in_order
           [("p@a", VBytes "tag"); ("p@b", VBytes "tag")] None []
           (boot doubled_script) ["p@a"; "p@b"]).
  left. reflexivity.
Defined.

Section ThreadExtras.
Local Open Scope Z_scope.
Import LazyInit LazyInitMore.

(** X7 (the lock excludes).  In every interleaving of [n] threads from the
    first use of [_lib], whatever [libzfs_core_init] answers: two threads
    that are inside the with block of [__getattr__] are the same thread;
    the lock is held only by a thread that is inside the block; and once
    every thread has returned or raised, the lock is free. *)
Theorem lock_excludes (oracle : nat → Z) (n : nat) (schedule : list nat) :
  let s := run oracle schedule (first_use n) in
  (∀ t1 t2 p1 p2,
     threads s !! t1 = Some p1 ∧ holds_lock p1 = true
     ∧ threads s !! t2 = Some p2 ∧ holds_lock p2 = true → t1 = t2)
  ∧ (∀ t, lock s = Some t →
          ∃ p, threads s !! t = Some p ∧ holds_lock p = true)
  ∧ (all_ended s → lock s = None).
Proof.
  intros s.
  pose proof (run_inv oracle schedule _ (first_use_inv oracle n))
    as (Hexcl & _).
  pose proof (run_inv_lock oracle schedule _ (first_use_inv_lock n))
    as (Hheld & _).
  fold s in Hexcl, Hheld. split_and!.
  - intros t1 t2 p1 p2 (H1 & Hl1 & H2 & Hl2).
    pose proof (Hexcl _ _ H1 Hl1) as E1. pose proof (Hexcl _ _ H2 Hl2) as E2.
    congruence.
  - exact Hheld.
  - intros Hend. destruct (lock s) as [t|] eqn:Hl; [|done].
    destruct (Hheld t eq_refl) as (p & Hp & Hhl).
    destruct (Hend t p Hp) as [->|[r ->]]; discriminate.
Qed.

(** X8 (a thread gets the library only after a successful run).  In every
    interleaving from the first use, a thread that has returned from
    [__getattr__] finds [_inited] set, and exactly one run of
    [libzfs_core_init] has returned 0 by then. *)
Theorem done_after_one_success (oracle : nat → Z) (n : nat)
    (schedule : list nat) (t : nat) :
  let s := run oracle schedule (first_use n) in
  threads s !! t = Some Done →
  inited s = true ∧ successes s = 1%nat ∧ 0 ∈ init_log s.
Proof.
  intros s Ht.
  pose proof (run_inv oracle schedule _ (first_use_inv oracle n))
    as (_ & _ & Hone & _).
  pose proof (run_inv_lock oracle schedule _ (first_use_inv_lock n))
    as (_ & Hpast & Hsucc & _).
  fold s in Hone, Hpast, Hsucc.
  assert (inited s = true) as Hi by (by eapply Hpast).
  specialize (Hsucc Hi). split_and!; [done|lia|].
  unfold successes in Hsucc.
  destruct (filter (λ r, r = 0) (init_log s)) as [|r l] eqn:Hf;
    [cbn in Hsucc; lia|].
  assert (r ∈ filter (λ r, r = 0) (init_log s)) as Hr by (rewrite Hf; left).
  apply list_elem_of_filter in Hr as [-> Hr]. done.
Qed.

Lemma done_after_one_success_witness :
  threads (run fail_once interleaving (first_use 2)) !! 1%nat = Some Done
  ∧ inited (run fail_once interleaving (first_use 2)) = true
  ∧ successes (run fail_once interleaving (first_use 2)) = 1%nat
  ∧ 0 ∈ init_log (run fail_once interleaving (first_use 2)).
Proof.
  split; [reflexivity|].
  apply (done_after_one_success fail_once 2 interleaving 1). reflexivity.
Defined.

End ThreadExtras.

Section SequentialExtras.
Local Open Scope Z_scope.
Context {σ : Type} (lib : Lib σ).

(** X9 (one thread is the sequential access).  A single thread that runs
    [__getattr__] to its end, with [libzfs_core_init] answering as the
    engine of the world does, ends as the sequential access does: it
    returns exactly when the access returns, it raises with [r] exactly
    when the access raises [ZFSInitializationFailed r], [_inited] ends with
    the same value, the lock is free, and [libzfs_core_init] has run once
    if [_inited] was unset and not at all otherwise. *)
Theorem one_thread_is_getattr (w : world σ) (oracle : nat → Z)
    (log : list Z) :
  oracle (length log) = (libzfs_core_init lib (engine w)).1 →
  let s := LazyInit.run oracle [0; 0; 0; 0; 0; 0]%nat
             (LazyInit.State [LazyInit.Check1] (inited w) None log) in
  let g := getattr lib w in
  LazyInit.threads s
  = [match g.1 with
     | Return _ => LazyInit.Done
     | Raise (ZFSInitializationFailed r) => LazyInit.Raised r
     | Raise _ => LazyInit.Check1
     end]
  ∧ LazyInit.inited s = inited g.2
  ∧ LazyInit.lock s = None
  ∧ LazyInit.init_log s
    = (log ++ if inited w then [] else [(libzfs_core_init lib (engine w)).1])%list
  ∧ calls g.2
    = (calls w ++ if inited w then [] else ["libzfs_core_init"%string])%list.
Proof.
  intros Ho s g. subst s g. rewrite single_thread_run. unfold getattr.
  destruct (inited w) eqn:Hi.
  - cbn. by rewrite !app_nil_r, Hi.
  - rewrite Ho. destruct (libzfs_core_init lib (engine w)) as [r e'].
    cbn [fst]. destruct (r =? 0); cbn; by rewrite ?Hi.
Qed.

End SequentialExtras.

Lemma one_thread_is_getattr_witness :
  fail_once 0 = (libzfs_core_init scripted (engine (boot flaky_script))).1
  ∧ LazyInit.threads
      (LazyInit.run fail_once [0; 0; 0; 0; 0; 0]%nat
         (LazyInit.State [LazyInit.Check1] false None []))
    = [LazyInit.Raised 5]
  ∧ (getattr scripted (boot flaky_script)).1
    = Raise (ZFSInitializationFailed 5).
Proof.
  split; [reflexivity|].
  destruct (one_thread_is_getattr scripted (boot flaky_script) fail_once [] eq_refl)
    as (Hthreads & _).
  split; [exact Hthreads|reflexivity].
Defined.

(** X10 ([lzc_create] rejects an unknown type first).  For a [ds_type]
    other than "zfs" and "zvol", [lzc_create] raises
    [DatasetTypeInvalid(ds_type)] and has done nothing else: [_lib] is not
    touched, so the library is not initialized, the properties are not
    encoded and no entry point is called. *)
Theorem lzc_create_rejects_unknown_type {σ} (lib : Lib σ) (more : LibRest σ)
    (py : interp)
    (name ds_type : string) (props : option nvlist) (w : rworld σ) :
  ds_type ≠ "zfs" → ds_type ≠ "zvol" →
  lzc_create lib more py name ds_type props w
  = (Raises (DatasetTypeInvalid ds_type), w).
Proof.
  intros Hzfs Hzvol. unfold lzc_create.
  destruct (String.eqb_spec ds_type "zfs") as [|_]; [done|].
  destruct (String.eqb_spec ds_type "zvol") as [|_]; [done|].
  reflexivity.
Qed.

Lemma lzc_create_rejects_unknown_type_witness :
  "volume" ≠ "zfs" ∧ "volume" ≠ "zvol"
  ∧ lzc_create scripted (scripted_rest only_lzc_list) in_order
      "pool/vol" "volume" None
      (rboot flaky_script)
    = (Raises (DatasetTypeInvalid "volume"), rboot flaky_script).
Proof.
  split; [discriminate|]. split; [discriminate|].
  apply (lzc_create_rejects_unknown_type scripted
           (scripted_rest only_lzc_list) in_order "pool/vol" "volume" None
           (rboot flaky_script)); discriminate.
Defined.

(** X11 ([lzc_create] touches [_lib] before it encodes).  For a known
    type, [lzc_create] reads the type constant from [_lib] before it
    encodes [props]: when the properties do not encode, the encoding fault
    is raised after the library has been initialized, and no entry point
    other than [libzfs_core_init] has been called; when the initialization
    fails, [ZFSInitializationFailed] is raised whatever the properties
    are. *)
Theorem lzc_create_initializes_first {σ} (lib : Lib σ) (more : LibRest σ)
    (py : interp)
    (name ds_type : string) (props : option nvlist) (w : rworld σ)
    (r : Z) (e1 : σ) :
  ds_type = "zfs" ∨ ds_type = "zvol" →
  init_result lib (base w) = (r, e1) →
  (r ≠ 0 →
   ∃ w', lzc_create lib more py name ds_type props w
         = (Raises (Lzc (ZFSInitializationFailed r)), w')
         ∧ calls (base w') = (calls (base w) ++ ["libzfs_core_init"])%list)
  ∧ (r = 0 → ∀ err, Encode (iterated py (default [] props)) = Err err →
     ∃ w', lzc_create lib more py name ds_type props w
           = (Raises (Lzc (CodecFault err)), w')
           ∧ inited (base w') = true ∧ engine (base w') = e1
           ∧ calls (base w')
             = (calls (base w)
                ++ if inited (base w) then [] else ["libzfs_core_init"])%list).
Proof.
  intros Hty Hinit. rewrite lzc_create_known by done. split.
  - intros Hr.
    destruct (of_M_getattr_failed lib w r e1 Hinit Hr) as (w' & Hg & _ & _ & Hc & _).
    exists w'. split; [|done]. by erewrite andthen_raises by exact Hg.
  - intros -> err Henc.
    destruct (of_M_getattr_ready lib w e1 Hinit) as (w' & Hg & Hi & He & Hc & _).
    exists w'. split; [|done].
    erewrite andthen_returns by exact Hg.
    erewrite andthen_raises; [done|]. by rewrite of_M_nvlist_in, Henc.
Qed.

Lemma lzc_create_initializes_first_witness :
  ("zfs" = "zfs" ∨ "zfs" = "zvol")
  ∧ init_result scripted (base (rboot quiet_script)) = (0, quiet_script)
  ∧ ∃ w', lzc_create scripted (scripted_rest only_lzc_list) in_order
      "pool/fs" "zfs"
            (Some [("atime", VInt U8 256)]) (rboot quiet_script)
          = (Raises (Lzc (CodecFault EncodingError)), w')
          ∧ inited (base w') = true ∧ engine (base w') = quiet_script
          ∧ calls (base w') = ["libzfs_core_init"].
Proof.
  split; [by left|]. split; [reflexivity|].
  destruct (lzc_create_initializes_first scripted
              (scripted_rest only_lzc_list) in_order "pool/fs" "zfs"
              (Some [("atime", VInt U8 256)]) (rboot quiet_script)
              0 quiet_script (or_introl eq_refl) eq_refl) as [_ Henc].
  exact (Henc eq_refl EncodingError eq_refl).
Defined.

(** X12 (the boundary call of [lzc_create]).  For a known type, ready
    library and properties that encode, [lzc_create] calls the entry point
    [lzc_create] exactly once, with the constant of the type
    ([DMU_OST_ZFS] for "zfs", [DMU_OST_ZVOL] for "zvol") and the encoded
    properties, [None] standing for the empty dict; it returns [None] when
    the status is 0 and raises the fault of the status otherwise. *)
Theorem lzc_create_one_call {σ} (lib : Lib σ) (more : LibRest σ)
    (py : interp)
    (name ds_type : string) (props : option nvlist) (w : rworld σ)
    (e1 e2 : σ) (buf : buffer) (r : Z) :
  ds_type = "zfs" ∨ ds_type = "zvol" →
  init_result lib (base w) = (0, e1) →
  Encode (iterated py (default [] props)) = Ok buf →
  c_lzc_create more name
    (if String.eqb ds_type "zfs" then DMU_OST_ZFS more else DMU_OST_ZVOL more)
    buf e1 = (r, e2) →
  ∃ w', lzc_create lib more py name ds_type props w
        = (match classify (create_kinds more) r [] with
           | None => Returns tt
           | Some f => Raises (Lzc (ZFSFault f))
           end, w')
        ∧ engine (base w') = e2
        ∧ calls (base w')
          = (calls (base w)
             ++ (if inited (base w) then [] else ["libzfs_core_init"])
             ++ ["lzc_create"])%list
        ∧ (r = 0 → classify (create_kinds more) r [] = None)
        ∧ (r ≠ 0 → ∃ f, classify (create_kinds more) r [] = Some f).
Proof.
  intros Hty Hinit Henc Hcall. rewrite lzc_create_known by done.
  destruct (of_M_getattr_ready lib w e1 Hinit) as (w1 & Hg & Hi & He & Hc & _).
  erewrite andthen_returns by exact Hg.
  erewrite andthen_returns by (by rewrite of_M_nvlist_in, Henc).
  erewrite andthen_returns by by apply of_M_getattr_inited.
  rewrite <- He in Hcall.
  destruct (of_M_call "lzc_create" _ w1 r e2 Hcall)
    as (w2 & Hrun & He2 & _ & Hc2 & _).
  erewrite andthen_returns by exact Hrun. rewrite of_M_xlate_errors.
  exists w2. split_and!; try done.
  - by rewrite Hc2, Hc, <- app_assoc.
  - by intros ->.
  - intros Hr. unfold classify. apply Z.eqb_neq in Hr. rewrite Hr. eauto.
Qed.

Lemma lzc_create_one_call_witness :
  ("zvol" = "zfs" ∨ "zvol" = "zvol")
  ∧ init_result scripted (base (rboot refusing_script)) = (0, refusing_script)
  ∧ ∃ w', lzc_create scripted (scripted_rest only_lzc_list) in_order
      "pool/a/vol"
            "zvol" None (rboot refusing_script)
          = (Raises (Lzc (ZFSFault
               {| overall := DatasetNotFound; records := [] |})), w')
          ∧ calls (base w') = ["libzfs_core_init"; "lzc_create"].
Proof.
  split; [by right|]. split; [reflexivity|].
  destruct (lzc_create_one_call scripted (scripted_rest only_lzc_list) in_order
              "pool/a/vol" "zvol" None (rboot refusing_script)
              refusing_script quiet_script (payload (VList [])) 2
              (or_intror eq_refl) eq_refl eq_refl eq_refl)
    as (w' & Hrun & _ & Hc & _).
  exists w'. split; [exact Hrun|exact Hc].
Defined.

(** X13 (what [is_supported] answers).  If every function on the chain
    of [_check_func] attributes that starts at [func] has a name that is
    bound in the module and starts with [lzc_], and is callable, then
    [is_supported(func)] is the lookup, through [_lib], of the name of the
    last function of the chain, and of no other name.  Otherwise it raises
    [ValueError] and leaves everything as it was: [_lib] is not touched. *)
Theorem is_supported_follows_chain {σ} (lib : Lib σ) (more : LibRest σ)
    (func : pyfunc) (w : rworld σ) :
  (api_function func = true →
   is_supported lib more func w
   = lib_getattr_is_not_none lib more (func_name (last_check func)) w)
  ∧ (api_function func = false →
     ∃ msg, is_supported lib more func w = (Raises (ValueError msg), w)).
Proof. split; [apply is_supported_api|apply is_supported_not_api]. Qed.

(** X14 (the check of a decorated function).  For a function [fname] of
    the module that [_uncommitted(check_func)] decorates, [is_supported] of
    the decorated object is [is_supported(check_func)]; without
    [check_func] it is the lookup of [fname] in the library.  So
    [lzc_get_props], [lzc_list_children] and [lzc_list_snaps] are reported
    as supported exactly when the library has [lzc_list]. *)
Theorem is_supported_decorated {σ} (lib : Lib σ) (more : LibRest σ)
    (fname : string) (check : pyfunc) (w : rworld σ) :
  api_name fname = true →
  is_supported lib more (uncommitted (Some check) (def fname)) w
  = is_supported lib more check w
  ∧ is_supported lib more (uncommitted None (def fname)) w
    = lib_getattr_is_not_none lib more fname w
  ∧ is_supported lib more lzc_get_props_obj w
    = lib_getattr_is_not_none lib more "lzc_list" w
  ∧ is_supported lib more lzc_list_children_obj w
    = lib_getattr_is_not_none lib more "lzc_list" w
  ∧ is_supported lib more lzc_list_snaps_obj w
    = lib_getattr_is_not_none lib more "lzc_list" w.
Proof.
  unfold api_name. intros [Hg Hp]%andb_true_iff. split_and!; try reflexivity.
  - unfold def, uncommitted. cbn [is_supported]. by rewrite Hg, Hp.
  - unfold def, uncommitted. cbn [is_supported]. by rewrite Hg, Hp.
Qed.

Lemma is_supported_decorated_witness :
  api_name "lzc_get_props" = true
  ∧ is_supported scripted (scripted_rest only_lzc_list) lzc_get_props_obj
      (rboot quiet_script)
    = is_supported scripted (scripted_rest only_lzc_list) lzc_list_obj
        (rboot quiet_script).
Proof.
  split; [reflexivity|].
  exact (proj1 (is_supported_decorated scripted (scripted_rest only_lzc_list)
                  "lzc_get_props" lzc_list_obj (rboot quiet_script) eq_refl)).
Defined.

(** X15 (the guard of a decorated function ignores [check_func]).  The
    wrapper [_f] checks [func], the function it decorates, which has no
    [_check_func]: the guard looks up the function's own name, whatever
    [check_func] was given.  So where the library has the function that
    [check_func] stands for but no attribute named as the decorated
    function, [is_supported] of the decorated object answers [True], and
    yet a call raises [NotImplementedError] before the body runs. *)
Theorem guard_ignores_check_func {σ A} (lib : Lib σ) (more : LibRest σ)
    (fname : string) (check : pyfunc) (body : N A) (w : rworld σ) (e1 : σ) :
  api_name fname = true →
  api_function check = true →
  init_result lib (base w) = (0, e1) →
  lib_has more (func_name (last_check check)) = true →
  lib_has more fname = false →
  (∃ w', is_supported lib more (uncommitted (Some check) (def fname)) w
         = (Returns true, w'))
  ∧ ∃ w', uncommitted_call lib more (def fname) body w
          = (Raises (NotImplementedError fname), w')
          ∧ engine (base w') = e1
          ∧ calls (base w')
            = (calls (base w)
               ++ if inited (base w) then [] else ["libzfs_core_init"])%list
          ∧ os_log w' = os_log w.
Proof.
  intros Hn Hc Hinit Hhas Hnot. split.
  - destruct (lib_getattr_ready lib more (func_name (last_check check)) w e1
                Hinit) as (w' & Hg & _).
    exists w'. rewrite is_supported_api
      by (by rewrite api_function_uncommitted).
    unfold def, uncommitted. cbn [last_check]. by rewrite Hg, Hhas.
  - destruct (uncommitted_call_unsupported lib more fname body w e1
                Hn Hinit Hnot) as (w' & Hrun & _ & He & Hcalls & Hos).
    by exists w'.
Qed.

Lemma guard_ignores_check_func_witness :
  api_name "lzc_get_props" = true
  ∧ api_function lzc_list_obj = true
  ∧ only_lzc_list "lzc_list" = true
  ∧ only_lzc_list "lzc_get_props" = false
  ∧ (∃ w', is_supported scripted (scripted_rest only_lzc_list)
             lzc_get_props_obj (rboot quiet_script) = (Returns true, w'))
  ∧ ∃ w', uncommitted_call scripted (scripted_rest only_lzc_list)
            (def "lzc_get_props") (unit_ tt) (rboot quiet_script)
          = (Raises (NotImplementedError "lzc_get_props"), w')
          ∧ engine (base w') = quiet_script
          ∧ calls (base w') = ["libzfs_core_init"]
          ∧ os_log w' = [].
Proof.
  split; [reflexivity|]. split; [reflexivity|]. split; [reflexivity|].
  split; [reflexivity|].
  exact (guard_ignores_check_func scripted (scripted_rest only_lzc_list)
           "lzc_get_props" lzc_list_obj (unit_ tt) (rboot quiet_script)
           quiet_script eq_refl eq_refl eq_refl eq_refl eq_refl).
Defined.

(** X16 ([lzc_promote] behind its guard).  A call of [lzc_promote] first
    looks [lzc_promote] up in the library, which initializes the library
    if need be.  If the initialization fails the call raises
    [ZFSInitializationFailed]; if the library has no [lzc_promote] the call
    raises [NotImplementedError] and no entry point other than
    [libzfs_core_init] has been called; otherwise the entry point
    [lzc_promote] is called exactly once and its status decides between
    [None] and a fault. *)
Theorem lzc_promote_guarded {σ} (lib : Lib σ) (more : LibRest σ)
    (name : string) (w : rworld σ) (r : Z) (e1 : σ) :
  init_result lib (base w) = (r, e1) →
  (r ≠ 0 →
   ∃ w', lzc_promote lib more name w
         = (Raises (Lzc (ZFSInitializationFailed r)), w')
         ∧ calls (base w') = (calls (base w) ++ ["libzfs_core_init"])%list)
  ∧ (r = 0 → lib_has more "lzc_promote" = false →
     ∃ w', lzc_promote lib more name w
           = (Raises (NotImplementedError "lzc_promote"), w')
           ∧ engine (base w') = e1
           ∧ calls (base w')
             = (calls (base w)
                ++ if inited (base w) then [] else ["libzfs_core_init"])%list)
  ∧ (r = 0 → lib_has more "lzc_promote" = true →
     ∀ s e2, c_lzc_promote more name e1 = (s, e2) →
     ∃ w', lzc_promote lib more name w
           = (match classify (promote_kinds more) s [] with
              | None => Returns tt
              | Some f => Raises (Lzc (ZFSFault f))
              end, w')
           ∧ engine (base w') = e2
           ∧ calls (base w')
             = (calls (base w)
                ++ (if inited (base w) then [] else ["libzfs_core_init"])
                ++ ["lzc_promote"])%list).
Proof.
  intros Hinit. unfold lzc_promote. split_and!.
  - intros Hr.
    destruct (uncommitted_call_init_failed lib more "lzc_promote"
                (andthen (of_M (getattr lib)) (λ _,
                   andthen (of_M (call "lzc_promote" (c_lzc_promote more name)))
                     (λ r0, of_M (xlate_errors (promote_kinds more) r0 []))))
                w r e1 eq_refl Hinit Hr)
      as (w' & Hrun & _ & _ & Hc & _).
    by exists w'.
  - intros -> Hhas.
    destruct (uncommitted_call_unsupported lib more "lzc_promote"
                (andthen (of_M (getattr lib)) (λ _,
                   andthen (of_M (call "lzc_promote" (c_lzc_promote more name)))
                     (λ r0, of_M (xlate_errors (promote_kinds more) r0 []))))
                w e1 eq_refl Hinit Hhas)
      as (w' & Hrun & _ & He & Hc & _).
    by exists w'.
  - intros -> Hhas s e2 Hcall.
    destruct (uncommitted_call_supported lib more "lzc_promote"
                (andthen (of_M (getattr lib)) (λ _,
                   andthen (of_M (call "lzc_promote" (c_lzc_promote more name)))
                     (λ r0, of_M (xlate_errors (promote_kinds more) r0 []))))
                w e1 eq_refl Hinit Hhas)
      as (w1 & Hrun & Hi & He & Hc & _).
    rewrite Hrun.
    erewrite andthen_returns by by apply of_M_getattr_inited.
    rewrite <- He in Hcall.
    destruct (of_M_call "lzc_promote" _ w1 s e2 Hcall)
      as (w2 & Hrun2 & He2 & _ & Hc2 & _).
    erewrite andthen_returns by exact Hrun2. rewrite of_M_xlate_errors.
    exists w2. split_and!; try done. by rewrite Hc2, Hc, <- app_assoc.
Qed.

Lemma lzc_promote_guarded_witness :
  init_result scripted (base (rboot quiet_script)) = (0, quiet_script)
  ∧ ∃ w', lzc_promote scripted (scripted_rest only_lzc_list) "pool/clone"
            (rboot quiet_script)
          = (Raises (NotImplementedError "lzc_promote"), w')
          ∧ engine (base w') = quiet_script
          ∧ calls (base w') = ["libzfs_core_init"].
Proof.
  split; [reflexivity|].
  destruct (lzc_promote_guarded scripted (scripted_rest only_lzc_list)
              "pool/clone" (rboot quiet_script) 0 quiet_script eq_refl)
    as (_ & Hno & _).
  exact (Hno eq_refl eq_refl).
Defined.



(** X18 (the mountpoint of a dataset).  [lzc_get_props] computes the
    mountpoint of [name] from the entry of the property, if there is one:
    without an entry it is "/" followed by the name; with a source that
    starts with "$" it is the value as it is; with the name of a dataset
    as source it is the value followed by what the name has after the
    length of the source, so that a dataset [source ++ rest] that inherits
    the property gets [value ++ rest], and a dataset whose name is no
    longer than the source gets the value itself. *)
Theorem mountpoint_rule (name src rest val : string) (v : value) :
  mountpoint_of name None = Returns (VBytes ("/" ++ name))
  ∧ (String.prefix "$" src = true →
     mountpoint_of name (Some (Prop_ v src)) = Returns v)
  ∧ (String.prefix "$" src = false →
     mountpoint_of (src ++ rest) (Some (Prop_ (VBytes val) src))
     = Returns (VBytes (val ++ rest)))
  ∧ (String.prefix "$" src = false →
     (String.length name ≤ String.length src)%nat →
     mountpoint_of name (Some (Prop_ (VBytes val) src))
     = Returns (VBytes val)).
Proof.
  unfold mountpoint_of. cbn [source_of value_of]. split_and!.
  - done.
  - by intros ->.
  - intros ->. cbn [negb]. by rewrite string_from_app.
  - intros -> Hlen. cbn [negb].
    by rewrite string_from_short, string_app_empty.
Qed.



